(** * resource_dasm: the resource decompression shim and its 68K trap handlers

    A shallow embedding of
      - src/ResourceCompression.cc  ([get_system_decompressor],
        [decompress_resource] and the syscall handler it installs),
      - src/m68kexec.cc             ([create_syscall_handler_t<M68KEmulator>],
        and of [main] and [main_t] the choice of the architecture, the
        segments and the stack),
      - src/Emulators/M68KEmulator.hh ([M68KRegisters]),
      - src/QuickDrawFormats.cc     (colours, rectangles, inversion points,
        patterns, pixel maps and [decode_monochrome_image]),
      - src/SpriteDecoders/StepOnIt-sssf.cc ([decode_sssf_image]),
    together with the properties of these functions that the specification
    states, and further properties that the code shows.

    Conventions.  Machine integers are [Z] with the wrap-around of their C++
    type written out ([u16], [u32], [u64]); bytes are [Byte.byte]; the
    [std::unordered_map]s of the source are [gmap]s; C++ exceptions are values
    of [exn] carried by [result]; code that mutates the caller's [Resource]
    and the process-wide cache of system decompressors lives in the
    state-and-exception monad [M]. *)

From Stdlib Require Import ZArith List String Lia Bool.
From Stdlib Require Import Init.Byte.
From stdpp Require Import base functions gmap strings list pretty.

Open Scope Z_scope.

(* ================================================================== *)
(** ** Machine integers and bytes *)
(* ================================================================== *)

Definition u8 (z : Z) : Z := z mod 2 ^ 8.
Definition u16 (z : Z) : Z := z mod 2 ^ 16.
Definition u32 (z : Z) : Z := z mod 2 ^ 32.
Definition u64 (z : Z) : Z := z mod 2 ^ 64.

(** Value of a signed [w]-bit integer from its unsigned representation. *)
Definition signed (w : Z) (z : Z) : Z :=
  let r := z mod 2 ^ w in
  if r <? 2 ^ (w - 1) then r else r - 2 ^ w.

Definition byte_val (b : byte) : Z := Z.of_N (Byte.to_N b).

Definition byte_of (z : Z) : byte :=
  default x00 (Byte.of_N (Z.to_N (z mod 256))).

#[global] Instance byte_eq_decision : EqDecision byte := Byte.byte_eq_dec.

(** Big-endian encodings, as [be_uint16_t] and [be_uint32_t] store them. *)
Definition be16_bytes (v : Z) : list byte :=
  [byte_of (v / 2 ^ 8); byte_of v].

Definition be32_bytes (v : Z) : list byte :=
  [byte_of (v / 2 ^ 24); byte_of (v / 2 ^ 16); byte_of (v / 2 ^ 8); byte_of v].

Fixpoint be_value (bs : list byte) (acc : Z) : Z :=
  match bs with
  | [] => acc
  | b :: bs' => be_value bs' (acc * 256 + byte_val b)
  end.

(** The big-endian integer held by [n] bytes of [data] from offset [off];
    bytes past the end of [data] are simply absent. *)
Definition be_at (data : list byte) (off n : nat) : Z :=
  be_value (take n (drop off data)) 0.

(** A C++ integer used as a condition: true when some bit of [x] under the
    mask [f] is set. *)
Definition flag_set (x f : Z) : bool := negb (Z.land x f =? 0).

(* ================================================================== *)
(** ** Exceptions and results *)
(* ================================================================== *)

(** The memory faults of [MemoryContext]. *)
Inductive MemoryFault :=
| Unmapped | Overlap | OutOfAddressSpace | StrictViolation | NotARegionBase.

(** The exceptions the modelled code throws or lets through.  All of them
    derive from [std::exception], so [catch (const exception&)] catches each. *)
Inductive exn :=
| runtime_error (what : string)
| logic_error (what : string)
| out_of_range (what : string)
| cannot_open_file (filename : string)
| memory_error (fault : MemoryFault)
| terminate_emulation.

Inductive result (A : Type) :=
| Ok (a : A)
| Throw (e : exn).
Arguments Ok {A} a.
Arguments Throw {A} e.

#[global] Instance result_ret : MRet result := fun A a => Ok a.
#[global] Instance result_bind : MBind result := fun A B f r =>
  match r with
  | Ok a => f a
  | Throw e => Throw e
  end.

Definition is_ok {A} (r : result A) : bool :=
  match r with Ok _ => true | Throw _ => false end.

(* ================================================================== *)
(** ** Decoding an A-line opcode

    The same lines open the handler installed by [decompress_resource]
    (ResourceCompression.cc, 478-488) and the one of m68kexec.cc (282-292). *)
(* ================================================================== *)

Record TrapInfo := {
  trap_number : Z;
  auto_pop : bool;
  trap_flags : Z;
}.

Definition decode_trap (opcode : Z) : TrapInfo :=
  if flag_set opcode 0x0800 then
    {| trap_number := Z.land opcode 0x0BFF;
       auto_pop := flag_set opcode 0x0400;
       trap_flags := 0 |}
  else
    {| trap_number := Z.land opcode 0x00FF;
       auto_pop := false;
       trap_flags := u8 (Z.land (Z.shiftr opcode 9) 3) |}.

(* ================================================================== *)
(** ** MemoryContext *)
(* ================================================================== *)

(** Modelled from the spec: the class [MemoryContext] (MemoryContext.hh and
    MemoryContext.cc are not among the sources).  The spec describes a sparse
    32-bit address space made of allocated regions that never overlap, in
    which every address of a region is readable and writable and every other
    address faults, plus a table of named symbols.  [mem_regions] lists the
    base and the length of each region; [mem_bytes] holds the bytes written
    so far, and a mapped address that was never written holds zero.  The
    allocation granularity, which the spec leaves to the implementation
    with a minimum of one byte, is one byte; strict mode is not used by the
    code modelled here. *)
Record MemoryContext := {
  mem_regions : list (Z * Z);
  mem_bytes : gmap Z byte;
  mem_symbols : gmap string Z;
}.

Definition MemoryContext_new : MemoryContext :=
  {| mem_regions := []; mem_bytes := ∅; mem_symbols := ∅ |}.

Definition in_region (x : Z) (region : Z * Z) : bool :=
  (region.1 <=? x) && (x <? region.1 + region.2).

Definition mapped (mem : MemoryContext) (x : Z) : bool :=
  existsb (in_region x) (mem_regions mem).

Definition read_byte (mem : MemoryContext) (x : Z) : option byte :=
  if mapped mem x then Some (default x00 (mem_bytes mem !! x)) else None.

Fixpoint load (mem : MemoryContext) (addr : Z) (n : nat) : option (list byte) :=
  match n with
  | O => Some []
  | S k =>
      match read_byte mem addr, load mem (addr + 1) k with
      | Some b, Some bs => Some (b :: bs)
      | _, _ => None
      end
  end.

Fixpoint store (addr : Z) (bs : list byte) (m : gmap Z byte) : gmap Z byte :=
  match bs with
  | [] => m
  | b :: bs' => <[addr := b]> (store (addr + 1) bs' m)
  end.

(** Modelled from the spec: [at<T>(addr, size)], the borrowed raw view; it
    exists when the whole range is mapped and faults otherwise. *)
Definition mem_at (mem : MemoryContext) (addr size : Z) : result unit :=
  match load mem addr (Z.to_nat size) with
  | Some _ => Ok tt
  | None => Throw (memory_error Unmapped)
  end.

(** A store through a raw view already obtained with [mem_at]. *)
Definition poke (mem : MemoryContext) (addr : Z) (bs : list byte) : MemoryContext :=
  {| mem_regions := mem_regions mem;
     mem_bytes := store addr bs (mem_bytes mem);
     mem_symbols := mem_symbols mem |}.

Definition overlaps (addr size : Z) (region : Z * Z) : bool :=
  (addr <? region.1 + region.2) && (region.1 <? addr + size).

(** Modelled from the spec: [allocate_at(addr, size)].  Address 0 is reserved
    and rejected, a range that leaves the 32-bit space does not fit, and a
    range that meets a region collides. *)
Definition allocate_at (mem : MemoryContext) (addr size : Z) : result MemoryContext :=
  if addr =? 0 then Throw (memory_error Overlap)
  else if 2 ^ 32 <? addr + size then Throw (memory_error OutOfAddressSpace)
  else if existsb (overlaps addr size) (mem_regions mem) then
    Throw (memory_error Overlap)
  else
    Ok {| mem_regions := (addr, size) :: mem_regions mem;
          mem_bytes := mem_bytes mem;
          mem_symbols := mem_symbols mem |}.

(** Modelled from the spec: [allocate(size)]; the implementation picks the
    address, a [uint32_t], here through [pick], and fails when no gap fits. *)
Definition allocate (pick : MemoryContext → Z → option Z)
    (mem : MemoryContext) (size : Z) : result (Z * MemoryContext) :=
  match pick mem size with
  | None => Throw (memory_error OutOfAddressSpace)
  | Some picked =>
      let addr := u32 picked in
      mem' ← allocate_at mem addr size; Ok (addr, mem')
  end.

(** Modelled from the spec: [read(addr, size)], byte-exact. *)
Definition mem_read (mem : MemoryContext) (addr size : Z) : result (list byte) :=
  match load mem addr (Z.to_nat size) with
  | Some bs => Ok bs
  | None => Throw (memory_error Unmapped)
  end.

(** Modelled from the spec: [write(addr, bytes)] and
    [memcpy(addr, host_bytes, n)]. *)
Definition mem_write (mem : MemoryContext) (addr : Z) (bs : list byte)
    : result MemoryContext :=
  _ ← mem_at mem addr (Z.of_nat (length bs)); Ok (poke mem addr bs).

(** Modelled from the spec: [memcpy(dst_addr, src_addr, n)] between two
    guest ranges. *)
Definition mem_memcpy (mem : MemoryContext) (dst src size : Z) : result MemoryContext :=
  bs ← mem_read mem src size; mem_write mem dst bs.

Definition read_u16b (mem : MemoryContext) (addr : Z) : result Z :=
  bs ← mem_read mem addr 2; Ok (be_value bs 0).

Definition read_u32b (mem : MemoryContext) (addr : Z) : result Z :=
  bs ← mem_read mem addr 4; Ok (be_value bs 0).

Definition write_u32b (mem : MemoryContext) (addr v : Z) : result MemoryContext :=
  mem_write mem addr (be32_bytes v).

(** Modelled from the spec: [get_block_size(base)]. *)
Definition get_block_size (mem : MemoryContext) (addr : Z) : result Z :=
  match find (fun region => region.1 =? addr) (mem_regions mem) with
  | Some region => Ok region.2
  | None => Throw (memory_error NotARegionBase)
  end.

(** Modelled from the spec: [get_symbol_addr(name)]. *)
Definition get_symbol_addr (mem : MemoryContext) (name : string) : result Z :=
  match mem_symbols mem !! name with
  | Some addr => Ok addr
  | None => Throw (out_of_range "no such symbol")
  end.

(* ================================================================== *)
(** ** M68KRegisters (Emulators/M68KEmulator.hh) *)
(* ================================================================== *)

Record M68KRegisters := {
  regs_d : nat → Z;   (* d[8], read through the [u] member *)
  regs_a : nat → Z;   (* a[8] *)
  regs_pc : Z;
  regs_sr : Z;        (* the low byte is the condition code register *)
}.

Definition set_d (regs : M68KRegisters) (i : nat) (v : Z) : M68KRegisters :=
  {| regs_d := <[i := u32 v]> (regs_d regs); regs_a := regs_a regs;
     regs_pc := regs_pc regs; regs_sr := regs_sr regs |}.

Definition set_a (regs : M68KRegisters) (i : nat) (v : Z) : M68KRegisters :=
  {| regs_d := regs_d regs; regs_a := <[i := u32 v]> (regs_a regs);
     regs_pc := regs_pc regs; regs_sr := regs_sr regs |}.

Definition set_pc (regs : M68KRegisters) (v : Z) : M68KRegisters :=
  {| regs_d := regs_d regs; regs_a := regs_a regs;
     regs_pc := u32 v; regs_sr := regs_sr regs |}.

(** What a syscall handler sees of a running [M68KEmulator]: its registers
    and the memory it shares with the shim. *)
Record M68KEmulator := {
  emu_regs : M68KRegisters;
  emu_mem : MemoryContext;
}.

Inductive DebuggerMode := NONE | TRACE | STEP.

(** The PowerPC side, as far as the shim touches it. *)
Record PPC32Registers := {
  ppc_r : nat → Z;
  ppc_lr : Z;
  ppc_pc : Z;
}.

Record PPC32Emulator := {
  ppc_regs : PPC32Registers;
  ppc_mem : MemoryContext;
}.

(** What the shim asks of a parsed PEF container. *)
Record PEFFFile := {
  pef_is_ppc : bool;
  pef_init_name : string;
  pef_main_name : string;
  pef_term_name : string;
  pef_exports : list string;   (* names of the export table, in map order *)
}.

(* ================================================================== *)
(** ** Resources *)
(* ================================================================== *)

Record Resource := {
  res_type : Z;
  res_id : Z;
  res_flags : Z;
  res_data : list byte;
}.

(** [Resource(type, id, data)], as [get_system_decompressor] builds it. *)
Definition Resource_new (type id : Z) (data : list byte) : Resource :=
  {| res_type := type; res_id := id; res_flags := 0; res_data := data |}.

(** The context [ResourceFile], seen through [get_resource(type, id)], which
    throws [out_of_range] when the file has no such resource. *)
Definition ResourceFile := gmap (Z * Z) Resource.

(** The two decompressor resource types.  A resource type is the big-endian
    value of its four characters, here [dcmp] and [ncmp] (the macros are in
    ResourceFile.hh, which is not among the sources). *)
Definition RESOURCE_TYPE_dcmp : Z := 0x64636D70.
Definition RESOURCE_TYPE_ncmp : Z := 0x6E636D70.

(** Modelled from the spec: [sizeof(CompressedResourceHeader)]; the spec
    gives the header a fixed layout of 16 bytes in all (the declaration, in
    ResourceCompression.hh, is not among the sources). *)
Definition sizeof_CompressedResourceHeader : Z := 16.

(** The fields of a [CompressedResourceHeader] that follow [magic].  Where
    they sit in the header is fixed by the absent declaration, so their
    decoding is left to the environment ([header_fields] below). *)
Record CompressedResourceHeader := {
  header_version : Z;
  attributes : Z;
  decompressed_size : Z;
  v8_dcmp_resource_id : Z;
  v8_output_extra_bytes : Z;
  v9_dcmp_resource_id : Z;
  v9_output_extra_bytes : Z;
}.

(** [header.magic]: the first field, a big-endian [u32]. *)
Definition header_magic (data : list byte) : Z := be_at data 0 4.

Definition sizeof_M68KDecompressorInputHeader : Z := 24.
Definition offsetof_reset_opcode : Z := 20.
Definition sizeof_PPC32DecompressorInputHeader : Z := 40.
Definition offsetof_set_r2_opcode : Z := 32.

(* ================================================================== *)
(** ** What the sources leave to other translation units *)
(* ================================================================== *)

(** Constants, layouts and collaborators that the modelled functions use but
    whose definitions are not among the sources: the flag enumerations
    (ResourceFile.hh, ResourceCompression.hh), the field layout of the
    compressed header, [load_file] (phosg), the built-in decompressors
    (Decompressors/System.hh), the choice of address made by
    [MemoryContext::allocate], the register constructors, the two
    interpreters and the PEF loader.  An interpreter is handed the syscall
    handler, the debugger mode and its initial state; the 68K one carries
    the state [S] captured by the handler's closure. *)
Class Environment := {
  FLAG_COMPRESSED : Z;
  FLAG_DECOMPRESSED : Z;
  FLAG_DECOMPRESSION_FAILED : Z;
  DISABLED : Z;
  VERBOSE : Z;
  TRACE_EXECUTION : Z;
  DEBUG_EXECUTION : Z;
  RETRY : Z;
  SKIP_FILE_DCMP : Z;
  SKIP_FILE_NCMP : Z;
  SKIP_INTERNAL : Z;
  SKIP_SYSTEM_DCMP : Z;
  SKIP_SYSTEM_NCMP : Z;
  header_fields : list byte → CompressedResourceHeader;
  load_file : string → option (list byte);
  decompress_system0 : list byte → list byte → result (list byte);
  decompress_system1 : list byte → list byte → result (list byte);
  decompress_system2 : list byte → list byte → result (list byte);
  decompress_system3 : list byte → list byte → result (list byte);
  pick_address : MemoryContext → Z → option Z;
  M68KRegisters_new : M68KRegisters;
  M68KEmulator_execute :
    ∀ S : Type, (Z → M68KEmulator * S → result (M68KEmulator * S)) →
      option DebuggerMode → M68KEmulator * S → result (M68KEmulator * S);
  PPC32Registers_new : PPC32Registers;
  PPC32Emulator_execute :
    (PPC32Emulator → result PPC32Emulator) →
      option DebuggerMode → PPC32Emulator → result PPC32Emulator;
  PEFFFile_parse : list byte → result PEFFFile;
  PEFFFile_load_into : PEFFFile → string → MemoryContext → Z → result MemoryContext;
}.

(* ================================================================== *)
(** ** The state-and-exception monad of [decompress_resource] *)
(* ================================================================== *)

(** What [decompress_resource] can change: the caller's resource, reached
    through [shared_ptr<Resource> res], and the function-local static
    [id_to_res] of [get_system_decompressor]. *)
Record State := {
  st_res : Resource;
  st_id_to_res : gmap Z Resource;
}.

(** A computation returns a value or throws, and leaves a state either way:
    what was written before a throw stays written. *)
Definition M (A : Type) : Type := State → result A * State.

#[global] Instance M_ret : MRet M := fun A a s => (Ok a, s).
#[global] Instance M_bind : MBind M := fun A B f m s =>
  match m s with
  | (Ok a, s') => f a s'
  | (Throw e, s') => (Throw e, s')
  end.

Definition throwM {A} (e : exn) : M A := fun s => (Throw e, s).

Definition liftR {A} (r : result A) : M A := fun s => (r, s).

(** [try { body } catch (const exception& e) { handler }] *)
Definition try_catch {A} (body : M A) (handler : exn → M A) : M A := fun s =>
  match body s with
  | (Ok a, s') => (Ok a, s')
  | (Throw e, s') => handler e s'
  end.

Definition get_res : M Resource := fun s => (Ok (st_res s), s).

Definition get_id_to_res : M (gmap Z Resource) := fun s => (Ok (st_id_to_res s), s).

Definition put_id_to_res (cache : gmap Z Resource) : M unit := fun s =>
  (Ok tt, {| st_res := st_res s; st_id_to_res := cache |}).

(** [res->data = data] *)
Definition set_data (data : list byte) : M unit := fun s =>
  (Ok tt,
   {| st_res := {| res_type := res_type (st_res s); res_id := res_id (st_res s);
                   res_flags := res_flags (st_res s); res_data := data |};
      st_id_to_res := st_id_to_res s |}).

(** [res->flags = f(res->flags)] *)
Definition modify_flags (f : Z → Z) : M unit := fun s =>
  (Ok tt,
   {| st_res := {| res_type := res_type (st_res s); res_id := res_id (st_res s);
                   res_flags := f (res_flags (st_res s));
                   res_data := res_data (st_res s) |};
      st_id_to_res := st_id_to_res s |}).

(* ================================================================== *)
(** ** Text of the formatted messages *)
(* ================================================================== *)

Definition hex_digit (z : Z) : string :=
  String.substring (Z.to_nat z) 1 "0123456789ABCDEF".

Fixpoint hex_digits (fuel : nat) (z : Z) (acc : string) : string :=
  match fuel with
  | O => acc
  | S k =>
      let acc' := hex_digit (z mod 16) +:+ acc in
      if z / 16 =? 0 then acc' else hex_digits k (z / 16) acc'
  end.

(** [%hX]: a 16-bit value in upper-case hexadecimal. *)
Definition format_hX (z : Z) : string := hex_digits 4 (u16 z) "".

Definition newline : string := String (Ascii.ascii_of_nat 10) "".

Section Shim.
Context `{Env : Environment}.

(* ================================================================== *)
(** ** The syscall handler installed by [decompress_resource]
       (ResourceCompression.cc, 475-542) *)
(* ================================================================== *)

(** C's [memcpy(dst, src, n)] on two raw views.  The bytes of the source view
    are taken as they are before the copy; for views that overlap C leaves
    the result undefined, and nothing below is claimed about that case. *)
Definition host_memcpy (mem : MemoryContext) (dst src size : Z) : MemoryContext :=
  match load mem src (Z.to_nat size) with
  | Some bs => poke mem dst bs
  | None => mem
  end.

(** The trap number [GetTrapAddress] is asked for: the low word of [D0],
    with the toolbox bit added above 0x4F except for 0x54 and 0x57. *)
Definition requested_trap (d0 : Z) : Z :=
  let trap_number := Z.land d0 0xFFFF in
  if (0x4F <? trap_number) && negb (trap_number =? 0x54) && negb (trap_number =? 0x57)
  then Z.lor trap_number 0x0800
  else trap_number.

(** The closure state is [trap_to_call_stub_addr]. *)
Definition shim_syscall_handler (opcode : Z) (st : M68KEmulator * gmap Z Z)
    : result (M68KEmulator * gmap Z Z) :=
  let '(emu, trap_to_call_stub_addr) := st in
  let regs := emu_regs emu in
  let mem := emu_mem emu in
  let trap := decode_trap opcode in
  if trap_number trap =? 0x002E then
    (* BlockMove: A0 = src, A1 = dst, D0 = size *)
    _ ← mem_at mem (regs_a regs 0%nat) (regs_d regs 0%nat);
    _ ← mem_at mem (regs_a regs 1%nat) (regs_d regs 0%nat);
    let mem' := host_memcpy mem (regs_a regs 1%nat) (regs_a regs 0%nat) (regs_d regs 0%nat) in
    Ok ({| emu_regs := set_d regs 0 0; emu_mem := mem' |}, trap_to_call_stub_addr)
  else if trap_number trap =? 0x0046 then
    (* GetTrapAddress *)
    let trap_number := requested_trap (regs_d regs 0%nat) in
    match trap_to_call_stub_addr !! trap_number with
    | Some call_stub_addr =>
        Ok ({| emu_regs := set_a regs 0 call_stub_addr; emu_mem := mem |},
            trap_to_call_stub_addr)
    | None =>
        '(call_stub_addr, mem1) ← allocate pick_address mem 4;
        _ ← mem_at mem1 call_stub_addr 4;
        let mem2 := poke mem1 call_stub_addr (be16_bytes (Z.lor 0xA000 trap_number)) in
        let mem3 := poke mem2 (call_stub_addr + 2) (be16_bytes 0x4E75) in
        Ok ({| emu_regs := set_a regs 0 call_stub_addr; emu_mem := mem3 |},
            <[trap_number := call_stub_addr]> trap_to_call_stub_addr)
    end
  else
    (* any other trap is skipped, with a warning when verbose *)
    Ok st.

(* ================================================================== *)
(** ** The syscall handler of m68kexec.cc (276-372), the one that
       [create_syscall_handler_t<M68KEmulator>] installs *)
(* ================================================================== *)

(** [catch (const out_of_range&)] around [get_block_size] and [read_u32b]:
    the failure of [get_block_size] is the one the spec says the guest sees
    through [GetHandleSize]. *)
Definition is_out_of_range (e : exn) : bool :=
  match e with
  | out_of_range _ => true
  | memory_error NotARegionBase => true
  | _ => false
  end.

Definition m68kexec_syscall_handler (syscall : Z) (emu : M68KEmulator)
    : result M68KEmulator :=
  let regs := emu_regs emu in
  let mem := emu_mem emu in
  let trap := decode_trap syscall in
  let trap_number := trap_number trap in
  if trap_number =? 0x001E then
    (* NewPtr: D0 = size, A0 = returned ptr *)
    '(addr, mem') ← allocate pick_address mem (regs_d regs 0%nat);
    if addr =? 0 then Throw (runtime_error "cannot allocate memory for NewPtr")
    else Ok {| emu_regs := set_d (set_a regs 0 addr) 0 0; emu_mem := mem' |}
  else if trap_number =? 0x0022 then
    (* NewHandle: D0 = size, A0 = returned handle *)
    '(addr, mem') ← allocate pick_address mem (u32 (regs_d regs 0%nat + 4));
    if addr =? 0 then Throw (runtime_error "cannot allocate memory for NewHandle")
    else
      mem'' ← write_u32b mem' addr (u32 (addr + 4));
      Ok {| emu_regs := set_d (set_a regs 0 addr) 0 0; emu_mem := mem'' |}
  else if trap_number =? 0x0025 then
    (* GetHandleSize: A0 = handle, D0 = returned size or error code *)
    match (ptr ← read_u32b mem (regs_a regs 0%nat); get_block_size mem ptr) with
    | Ok size => Ok {| emu_regs := set_d regs 0 size; emu_mem := mem |}
    | Throw e =>
        if is_out_of_range e
        then Ok {| emu_regs := set_d regs 0 (-111); emu_mem := mem |}
        else Throw e
    end
  else if (trap_number =? 0x0029) || (trap_number =? 0x002A) then
    (* HLock / HUnlock *)
    Ok {| emu_regs := set_d regs 0 0; emu_mem := mem |}
  else if trap_number =? 0x002E then
    (* BlockMove: A0 = src, A1 = dst, D0 = size *)
    mem' ← mem_memcpy mem (regs_a regs 1%nat) (regs_a regs 0%nat) (regs_d regs 0%nat);
    Ok {| emu_regs := set_d regs 0 0; emu_mem := mem' |}
  else if flag_set trap_number 0x0800 then
    Throw (runtime_error
      ("unimplemented toolbox trap (num=" +:+ format_hX (Z.land trap_number 0x0BFF)
       +:+ ", auto_pop=" +:+ (if auto_pop trap then "true" else "false") +:+ ")"
       +:+ newline))
  else
    Throw (runtime_error
      ("unimplemented os trap (num=" +:+ format_hX (Z.land trap_number 0x00FF)
       +:+ ", flags=" +:+ pretty (trap_flags trap) +:+ ")" +:+ newline)).

(* ================================================================== *)
(** ** [get_system_decompressor] (ResourceCompression.cc, 23-38) *)
(* ================================================================== *)

(** [(static_cast<uint64_t>(resource_type) << 16) | resource_id]: the
    [int16_t] id is converted to [uint64_t] by the usual arithmetic
    conversions before the bitwise or. *)
Definition system_decompressor_key (resource_type resource_id : Z) : Z :=
  Z.lor (u64 (Z.shiftl resource_type 16)) (u64 resource_id).

(** ["system_dcmps/%ccmp_%hd.bin"] *)
Definition system_decompressor_filename (use_ncmp : bool) (resource_id : Z) : string :=
  "system_dcmps/" +:+ (if use_ncmp then "n" else "d") +:+ "cmp_"
  +:+ pretty resource_id +:+ ".bin".

Definition get_system_decompressor (use_ncmp : bool) (resource_id : Z) : M Resource :=
  id_to_res ← get_id_to_res;
  let resource_type := if use_ncmp then RESOURCE_TYPE_ncmp else RESOURCE_TYPE_dcmp in
  let key := system_decompressor_key resource_type resource_id in
  match id_to_res !! key with
  | Some r => mret r
  | None =>
      let filename := system_decompressor_filename use_ncmp resource_id in
      match load_file filename with
      | None => throwM (cannot_open_file filename)
      | Some data =>
          let r := Resource_new resource_type resource_id data in
          _ ← put_id_to_res (<[key := r]> id_to_res);
          mret r
      end
  end.

(* ================================================================== *)
(** ** [decompress_resource] (ResourceCompression.cc, 86-581) *)
(* ================================================================== *)

(** Lines 126-136: the decompressor id, an [int16_t], and the extra output
    bytes, a [uint16_t], by header version. *)
Definition header_ids (header : CompressedResourceHeader) : result (Z * Z) :=
  if header_version header =? 9 then
    Ok (signed 16 (v9_dcmp_resource_id header), u16 (v9_output_extra_bytes header))
  else if header_version header =? 8 then
    Ok (signed 16 (v8_dcmp_resource_id header), u16 (v8_output_extra_bytes header))
  else Throw (runtime_error "compressed resource header version is not 8 or 9").

(** [try { v.emplace_back(e); } catch (...) { }] for an expression that either
    yields a resource or throws the exception caught. *)
Definition emplace_back_opt (v : list (option Resource)) (r : option Resource)
    : list (option Resource) :=
  match r with
  | Some x => v ++ [Some x]
  | None => v
  end.

(** [get_system_decompressor] under [catch (const cannot_open_file&)]. *)
Definition try_system_decompressor (use_ncmp : bool) (resource_id : Z)
    : M (option Resource) :=
  try_catch (r ← get_system_decompressor use_ncmp resource_id; mret (Some r))
    (fun e => match e with
              | cannot_open_file _ => mret None
              | _ => throwM e
              end).

(** Lines 146-175: the candidates, in order of priority.  [None] stands for
    the internal implementation, as [nullptr] does in the source. *)
Definition collect_decompressors (decompress_flags : Z)
    (context_rf : option ResourceFile) (dcmp_resource_id : Z)
    : M (list (option Resource)) :=
  let dcmp_resources : list (option Resource) := [] in
  let dcmp_resources :=
    match context_rf with
    | Some rf =>
        let dcmp_resources :=
          if negb (flag_set decompress_flags SKIP_FILE_DCMP)
          then emplace_back_opt dcmp_resources (rf !! (RESOURCE_TYPE_dcmp, dcmp_resource_id))
          else dcmp_resources in
        if negb (flag_set decompress_flags SKIP_FILE_NCMP)
        then emplace_back_opt dcmp_resources (rf !! (RESOURCE_TYPE_ncmp, dcmp_resource_id))
        else dcmp_resources
    | None => dcmp_resources
    end in
  let dcmp_resources :=
    if negb (flag_set decompress_flags SKIP_INTERNAL)
    then
      if (0 <=? dcmp_resource_id) && (dcmp_resource_id <=? 3)
      then dcmp_resources ++ [None]
      else dcmp_resources
    else dcmp_resources in
  dcmp_resources ←
    (if negb (flag_set decompress_flags SKIP_SYSTEM_DCMP)
     then r ← try_system_decompressor false dcmp_resource_id;
          mret (emplace_back_opt dcmp_resources r)
     else mret dcmp_resources);
  if negb (flag_set decompress_flags SKIP_SYSTEM_NCMP)
  then r ← try_system_decompressor true dcmp_resource_id;
       mret (emplace_back_opt dcmp_resources r)
  else mret dcmp_resources.

(** Lines 198-210: the built-in implementation for an id. *)
Definition internal_decompressor (dcmp_resource_id : Z)
    : option (list byte → list byte → result (list byte)) :=
  if dcmp_resource_id =? 0 then Some decompress_system0
  else if dcmp_resource_id =? 1 then Some decompress_system1
  else if dcmp_resource_id =? 2 then Some decompress_system2
  else if dcmp_resource_id =? 3 then Some decompress_system3
  else None.

(** The flags of a resource that has been decompressed. *)
Definition mark_decompressed (flags : Z) : Z :=
  Z.lor (Z.land flags (Z.lnot FLAG_COMPRESSED)) FLAG_DECOMPRESSED.

(** Lines 197-235: the attempt with the internal implementation.  It is
    handed the header and the bytes that follow it. *)
Definition decompress_internal (dcmp_resource_id : Z) : M unit :=
  res ← get_res;
  let header := header_fields (res_data res) in
  match internal_decompressor dcmp_resource_id with
  | None =>
      throwM (logic_error ("internal implementation of dcmp " +:+ pretty dcmp_resource_id
                           +:+ " requested, but does not exist"))
  | Some decompress =>
      let header_len := Z.to_nat sizeof_CompressedResourceHeader in
      decompressed_data ←
        liftR (decompress (take header_len (res_data res)) (drop header_len (res_data res)));
      if negb (Z.of_nat (length decompressed_data) =? u32 (decompressed_size header)) then
        throwM (runtime_error
          ("internal decompressor produced the wrong amount of data ("
           +:+ pretty (u32 (decompressed_size header)) +:+ " bytes expected, "
           +:+ pretty (Z.of_nat (length decompressed_data)) +:+ " bytes received)"))
      else
        _ ← set_data decompressed_data;
        modify_flags mark_decompressed
  end.

(** Where the regions of the emulated address space are put (lines 276,
    325-355). *)
Definition code_addr : Z := 0xF0000000.
Definition stack_addr : Z := 0x10000000.
Definition stack_region_size : Z := 1024 * 16.
Definition output_addr : Z := 0x20000000.
Definition working_buffer_addr : Z := 0x80000000.
Definition input_addr : Z := 0xC0000000.

(** The ASCII text [dcmp]. *)
Definition dcmp_tag : list byte := [x64; x63; x6d; x70].

(** Lines 263-272: where in a dcmp resource execution starts. *)
Definition dcmp_entry_offset (dcmp_data : list byte) : result Z :=
  if Z.of_nat (length dcmp_data) <? 10 then
    Throw (runtime_error "decompressor resource is too short")
  else if bool_decide (take 4 (drop 4 dcmp_data) = dcmp_tag) then Ok 0
  else Ok (be_at dcmp_data 2 2).

(** What loading a decompressor yields. *)
Record LoadedDecompressor := {
  entry_pc : Z;
  entry_r2 : Z;
  is_ppc : bool;
  loaded_mem : MemoryContext;
}.

(** Lines 238-323: load the decompressor into a fresh [MemoryContext] and
    find its entry point. *)
Definition load_decompressor (dcmp_res : Resource) : result LoadedDecompressor :=
  let mem := MemoryContext_new in
  if res_type dcmp_res =? RESOURCE_TYPE_dcmp then
    entry_offset ← dcmp_entry_offset (res_data dcmp_res);
    let code_region_size := Z.of_nat (length (res_data dcmp_res)) in
    mem ← allocate_at mem code_addr code_region_size;
    mem ← mem_write mem code_addr (res_data dcmp_res);
    Ok {| entry_pc := u32 (code_addr + entry_offset); entry_r2 := 0;
          is_ppc := false; loaded_mem := mem |}
  else if res_type dcmp_res =? RESOURCE_TYPE_ncmp then
    f ← PEFFFile_parse (res_data dcmp_res);
    mem ← PEFFFile_load_into f "<ncmp>" mem 0xF0000000;
    if negb (String.eqb (pef_init_name f) "") then
      Throw (runtime_error "ncmp decompressor has init symbol")
    else if negb (String.eqb (pef_main_name f) "") then
      Throw (runtime_error "ncmp decompressor has main symbol")
    else if negb (String.eqb (pef_term_name f) "") then
      Throw (runtime_error "ncmp decompressor has term symbol")
    else
      match pef_exports f with
      | [name] =>
          (* the start symbol is a transition vector: code address, then r2 *)
          let start_symbol_name := "<ncmp>:" +:+ name in
          start_symbol_addr ← get_symbol_addr mem start_symbol_name;
          pc ← read_u32b mem start_symbol_addr;
          r2 ← read_u32b mem (u32 (start_symbol_addr + 4));
          Ok {| entry_pc := pc; entry_r2 := r2; is_ppc := pef_is_ppc f;
                loaded_mem := mem |}
      | _ => Throw (runtime_error "ncmp decompressor does not export exactly one symbol")
      end
  else Throw (runtime_error "decompressor resource is not dcmp or ncmp").

(** Lines 325-332. *)
Definition output_region_size (header : CompressedResourceHeader)
    (output_extra_bytes : Z) : Z :=
  u32 (u32 (decompressed_size header) + output_extra_bytes).

Definition input_region_size (data : list byte) : Z := Z.of_nat (length data) + 0x100.

Definition working_buffer_region_size (data : list byte) : Z :=
  Z.of_nat (length data) * 256.

(** Lines 336-363: the four data regions, and the compressed resource copied
    to the start of the input region.  (The tests of the four addresses
    against zero in the source compare constants and never fire.) *)
Definition allocate_regions (mem : MemoryContext) (data : list byte)
    (header : CompressedResourceHeader) (output_extra_bytes : Z) : result MemoryContext :=
  mem ← allocate_at mem stack_addr stack_region_size;
  mem ← allocate_at mem output_addr (output_region_size header output_extra_bytes);
  mem ← allocate_at mem working_buffer_addr (working_buffer_region_size data);
  mem ← allocate_at mem input_addr (input_region_size data);
  mem_write mem input_addr data.

(** [regs.r[i].u = v] *)
Definition ppc_set_r (regs : PPC32Registers) (i : nat) (v : Z) : PPC32Registers :=
  {| ppc_r := <[i := u32 v]> (ppc_r regs); ppc_lr := ppc_lr regs; ppc_pc := ppc_pc regs |}.

(** Lines 367-432: the PowerPC frame, registers, handler and run. *)
Definition ppc_frame_addr : Z :=
  stack_addr + stack_region_size - sizeof_PPC32DecompressorInputHeader.

Definition ppc_syscall_handler (emu : PPC32Emulator) : result PPC32Emulator :=
  if negb (ppc_r (ppc_regs emu) 2%nat =? 0xFFFFFFFF)
  then Throw (runtime_error "unimplemented syscall")
  else Throw terminate_emulation.

Definition run_ppc (ld : LoadedDecompressor) (mem : MemoryContext) (data : list byte)
    (header : CompressedResourceHeader) (debugger : option DebuggerMode)
    : result MemoryContext :=
  let return_addr := ppc_frame_addr + offsetof_set_r2_opcode in
  _ ← mem_at mem ppc_frame_addr sizeof_PPC32DecompressorInputHeader;
  let mem := poke mem ppc_frame_addr (be32_bytes 0xAAAAAAAA) in
  let mem := poke mem (ppc_frame_addr + 4) (be32_bytes 0x00000000) in
  let mem := poke mem (ppc_frame_addr + 8) (be32_bytes return_addr) in
  let mem := poke mem (ppc_frame_addr + 12) (be32_bytes 0x00000000) in
  let mem := poke mem (ppc_frame_addr + 16) (be32_bytes 0x00000000) in
  let mem := poke mem (ppc_frame_addr + 20) (be32_bytes (entry_r2 ld)) in
  let mem := poke mem (ppc_frame_addr + 24) (be32_bytes 0x00000000) in
  let mem := poke mem (ppc_frame_addr + 28) (be32_bytes 0x00000000) in
  let mem := poke mem (ppc_frame_addr + 32) (be32_bytes 0x3840FFFF) in
  let mem := poke mem (ppc_frame_addr + 36) (be32_bytes 0x44000002) in
  let regs := PPC32Registers_new in
  let regs := ppc_set_r regs 1 ppc_frame_addr in
  let regs := ppc_set_r regs 2 (entry_r2 ld) in
  let regs := ppc_set_r regs 3 (input_addr + sizeof_CompressedResourceHeader) in
  let regs := ppc_set_r regs 4 output_addr in
  let regs := ppc_set_r regs 5
    (if header_version header =? 9 then input_addr else working_buffer_addr) in
  let regs := ppc_set_r regs 6 (input_region_size data - sizeof_CompressedResourceHeader) in
  let regs := {| ppc_r := ppc_r regs; ppc_lr := u32 return_addr;
                 ppc_pc := u32 (entry_pc ld) |} in
  emu ← PPC32Emulator_execute ppc_syscall_handler debugger
          {| ppc_regs := regs; ppc_mem := mem |};
  Ok (ppc_mem emu).

(** Lines 436-460: the 68K activation frame at the top of the stack region
    and the initial registers. *)
Definition m68k_frame_addr : Z :=
  stack_addr + stack_region_size - sizeof_M68KDecompressorInputHeader.

(** Lines 438-452: the stores through the view of the frame. *)
Definition write_m68k_frame (mem : MemoryContext) (data : list byte)
    (header : CompressedResourceHeader) : MemoryContext :=
  let mem := poke mem m68k_frame_addr
               (be32_bytes (m68k_frame_addr + offsetof_reset_opcode)) in
  let data_size := input_region_size data - sizeof_CompressedResourceHeader in
  let source_buffer_addr := input_addr + sizeof_CompressedResourceHeader in
  let mem :=
    if header_version header =? 9 then
      let mem := poke mem (m68k_frame_addr + 16) (be32_bytes data_size) in
      let mem := poke mem (m68k_frame_addr + 4) (be32_bytes input_addr) in
      let mem := poke mem (m68k_frame_addr + 8) (be32_bytes output_addr) in
      poke mem (m68k_frame_addr + 12) (be32_bytes source_buffer_addr)
    else
      let mem := poke mem (m68k_frame_addr + 4) (be32_bytes data_size) in
      let mem := poke mem (m68k_frame_addr + 8) (be32_bytes working_buffer_addr) in
      let mem := poke mem (m68k_frame_addr + 12) (be32_bytes output_addr) in
      poke mem (m68k_frame_addr + 16) (be32_bytes source_buffer_addr) in
  let mem := poke mem (m68k_frame_addr + offsetof_reset_opcode) (be16_bytes 0x4E70) in
  poke mem (m68k_frame_addr + 22) (be16_bytes 0x0000).

Definition m68k_setup (ld : LoadedDecompressor) (mem : MemoryContext) (data : list byte)
    (header : CompressedResourceHeader) : result M68KEmulator :=
  _ ← mem_at mem m68k_frame_addr sizeof_M68KDecompressorInputHeader;
  let mem := write_m68k_frame mem data header in
  let regs := M68KRegisters_new in
  let regs := set_a regs 7 m68k_frame_addr in
  let regs := set_pc regs (entry_pc ld) in
  Ok {| emu_regs := regs; emu_mem := mem |}.

(** Lines 466-556: the handler starts with an empty map of call stubs. *)
Definition run_m68k (emu : M68KEmulator) (debugger : option DebuggerMode)
    : result MemoryContext :=
  '(emu', _) ← M68KEmulator_execute (gmap Z Z) shim_syscall_handler debugger (emu, ∅);
  Ok (emu_mem emu').

(** What the emulator is about to run, for a decompressor held in a resource:
    everything between loading the decompressor and [emu.execute()]. *)
Definition prepare (dcmp_res : Resource) (data : list byte)
    (header : CompressedResourceHeader) (output_extra_bytes : Z)
    : result (LoadedDecompressor * MemoryContext) :=
  ld ← load_decompressor dcmp_res;
  mem ← allocate_regions (loaded_mem ld) data header output_extra_bytes;
  Ok (ld, mem).

Definition debugger_mode (decompress_flags : Z) : option DebuggerMode :=
  let debug_execution := flag_set decompress_flags DEBUG_EXECUTION in
  let trace_execution := debug_execution || flag_set decompress_flags TRACE_EXECUTION in
  if trace_execution || debug_execution
  then Some (if debug_execution then STEP else TRACE)
  else None.

(** Lines 238-567: run the decompressor and read the output back. *)
Definition run_decompressor (decompress_flags : Z) (dcmp_res : Resource)
    (data : list byte) (header : CompressedResourceHeader) (output_extra_bytes : Z)
    : result (list byte) :=
  '(ld, mem) ← prepare dcmp_res data header output_extra_bytes;
  mem ←
    (if is_ppc ld
     then run_ppc ld mem data header (debugger_mode decompress_flags)
     else emu ← m68k_setup ld mem data header;
          run_m68k emu (debugger_mode decompress_flags));
  mem_read mem output_addr (u32 (decompressed_size header)).

(** Lines 237-570: the attempt with a decompressor held in a resource. *)
Definition decompress_emulated (decompress_flags : Z) (dcmp_res : Resource)
    (output_extra_bytes : Z) : M unit :=
  res ← get_res;
  let header := header_fields (res_data res) in
  decompressed_data ←
    liftR (run_decompressor decompress_flags dcmp_res (res_data res) header
             output_extra_bytes);
  _ ← set_data decompressed_data;
  modify_flags mark_decompressed.

(** The body of the [try] block (lines 197-570) for one candidate. *)
Definition attempt (decompress_flags : Z) (dcmp_resource_id output_extra_bytes : Z)
    (dcmp_res : option Resource) : M unit :=
  match dcmp_res with
  | None => decompress_internal dcmp_resource_id
  | Some r => decompress_emulated decompress_flags r output_extra_bytes
  end.

(** Lines 189-580: the candidates in turn; an exception ends the attempt
    and is dropped (it is only printed, when verbose). *)
Fixpoint try_decompressors (decompress_flags : Z)
    (dcmp_resource_id output_extra_bytes : Z)
    (dcmp_resources : list (option Resource)) : M unit :=
  match dcmp_resources with
  | [] => throwM (runtime_error "no decompressor succeeded")
  | dcmp_res :: rest =>
      try_catch (attempt decompress_flags dcmp_resource_id output_extra_bytes dcmp_res)
        (fun _ => try_decompressors decompress_flags dcmp_resource_id
                    output_extra_bytes rest)
  end.

Definition decompress_resource (decompress_flags : Z)
    (context_rf : option ResourceFile) : M unit :=
  res ← get_res;
  if negb (flag_set (res_flags res) FLAG_COMPRESSED) then mret tt
  else if negb (flag_set decompress_flags RETRY)
          && flag_set (res_flags res) FLAG_DECOMPRESSION_FAILED then mret tt
  else if flag_set decompress_flags DISABLED then mret tt
  else if Z.of_nat (length (res_data res)) <? sizeof_CompressedResourceHeader then
    throwM (runtime_error "resource marked as compressed but is too small")
  else
    let header := header_fields (res_data res) in
    if negb (header_magic (res_data res) =? 0xA89F6572) then
      modify_flags (fun flags => Z.land flags (Z.lnot FLAG_COMPRESSED))
    else if negb (flag_set (attributes header) 0x01) then
      throwM (runtime_error
        "resource marked as compressed but does not have compression attribute set")
    else
      '(dcmp_resource_id, output_extra_bytes) ← liftR (header_ids header);
      dcmp_resources ← collect_decompressors decompress_flags context_rf dcmp_resource_id;
      if bool_decide (dcmp_resources = []) then
        throwM (runtime_error "no decompressors are available for this resource")
      else
        try_decompressors decompress_flags dcmp_resource_id output_extra_bytes
          dcmp_resources.

End Shim.

(* ================================================================== *)
(** ** Condition codes of an integer addition *)
(* ================================================================== *)

(** Modelled from the spec: [M68KRegisters::set_ccr_flags] and
    [M68KRegisters::set_ccr_flags_integer_add].  M68KEmulator.hh declares
    them; their bodies (M68KEmulator.cc) are not among the sources.  The
    flags are the low five bits of [sr]: C, V, Z, N, X from bit 0 up. *)
Definition sign_extend (value size : Z) : Z := signed (8 * size) value.

(** One flag: a negative argument keeps the bit, 0 clears it, 1 sets it. *)
Definition set_ccr_flag (sr bit v : Z) : Z :=
  if v <? 0 then sr
  else if v =? 0 then Z.clearbit sr bit
  else Z.setbit sr bit.

Definition set_ccr_flags (regs : M68KRegisters) (x n z v c : Z) : M68KRegisters :=
  let sr := regs_sr regs in
  let sr := set_ccr_flag sr 4 x in
  let sr := set_ccr_flag sr 3 n in
  let sr := set_ccr_flag sr 2 z in
  let sr := set_ccr_flag sr 1 v in
  let sr := set_ccr_flag sr 0 c in
  {| regs_d := regs_d regs; regs_a := regs_a regs; regs_pc := regs_pc regs;
     regs_sr := sr |}.

(** The sum at width [size] bytes, as the destination receives it. *)
Definition integer_add_result (left_value right_value size : Z) : Z :=
  (left_value + right_value) mod 2 ^ (8 * size).

Definition set_ccr_flags_integer_add (regs : M68KRegisters)
    (left_value right_value size : Z) : M68KRegisters :=
  let L := sign_extend left_value size in
  let R := sign_extend right_value size in
  let S := sign_extend (L + R) size in
  let uS := L mod 2 ^ (8 * size) + R mod 2 ^ (8 * size) in
  let n := S <? 0 in
  let z := S =? 0 in
  let v := eqb (L <? 0) (R <? 0) && negb (eqb (S <? 0) (L <? 0)) in
  let c := 2 ^ (8 * size) <=? uS in
  set_ccr_flags regs (Z.b2z c) (Z.b2z n) (Z.b2z z) (Z.b2z v) (Z.b2z c).

Definition ccr_x (regs : M68KRegisters) : bool := Z.testbit (regs_sr regs) 4.
Definition ccr_n (regs : M68KRegisters) : bool := Z.testbit (regs_sr regs) 3.
Definition ccr_z (regs : M68KRegisters) : bool := Z.testbit (regs_sr regs) 2.
Definition ccr_v (regs : M68KRegisters) : bool := Z.testbit (regs_sr regs) 1.
Definition ccr_c (regs : M68KRegisters) : bool := Z.testbit (regs_sr regs) 0.

(** The condition codes of ADD as the 68K Programmer's Reference defines
    them, for operands [l] and [r] of [w] bits given as unsigned values:
    N is the most significant bit of the result, Z says the result is zero,
    V says the sum of the operands read as signed numbers cannot be
    represented in [w] bits, C is the carry out of bit [w - 1], and X is C. *)
Record ConditionCodes := {
  cc_x : bool; cc_n : bool; cc_z : bool; cc_v : bool; cc_c : bool;
}.

Definition reference_add_flags (w l r : Z) : ConditionCodes :=
  let result := (l + r) mod 2 ^ w in
  let exact := signed w l + signed w r in
  let carry := 2 ^ w <=? l + r in
  {| cc_x := carry;
     cc_n := Z.testbit result (w - 1);
     cc_z := result =? 0;
     cc_v := (exact <? - 2 ^ (w - 1)) || (2 ^ (w - 1) <=? exact);
     cc_c := carry |}.

Definition flags_of (regs : M68KRegisters) : ConditionCodes :=
  {| cc_x := ccr_x regs; cc_n := ccr_n regs; cc_z := ccr_z regs;
     cc_v := ccr_v regs; cc_c := ccr_c regs |}.

(* ================================================================== *)
(** ** A concrete environment and concrete inputs *)
(* ================================================================== *)

(** The header layout the spec lists: version at 4, attributes at 6, size at
    8, then for version 9 the id at 12 and the extra bytes at 14, for
    version 8 two single bytes followed by the id at 14. *)
Definition sample_header_fields (data : list byte) : CompressedResourceHeader :=
  {| header_version := be_at data 4 2;
     attributes := be_at data 6 2;
     decompressed_size := be_at data 8 4;
     v8_dcmp_resource_id := be_at data 14 2;
     v8_output_extra_bytes := 0;
     v9_dcmp_resource_id := be_at data 12 2;
     v9_output_extra_bytes := be_at data 14 2 |}.

Definition zero_registers : M68KRegisters :=
  {| regs_d := fun _ => 0; regs_a := fun _ => 0; regs_pc := 0; regs_sr := 0 |}.

(** One bit per flag; the only system decompressor on disk is a dcmp with
    id -1; the built-in decompressors copy their input; a guest returns as
    soon as it is entered; nothing parses as a PEF container. *)
Definition sample_env : Environment :=
  {| FLAG_COMPRESSED := 0x0001;
     FLAG_DECOMPRESSED := 0x0200;
     FLAG_DECOMPRESSION_FAILED := 0x0100;
     DISABLED := 0x0001;
     VERBOSE := 0x0002;
     TRACE_EXECUTION := 0x0004;
     DEBUG_EXECUTION := 0x0008;
     RETRY := 0x0010;
     SKIP_FILE_DCMP := 0x0020;
     SKIP_FILE_NCMP := 0x0040;
     SKIP_INTERNAL := 0x0080;
     SKIP_SYSTEM_DCMP := 0x0100;
     SKIP_SYSTEM_NCMP := 0x0200;
     header_fields := sample_header_fields;
     load_file := fun name =>
       if String.eqb name "system_dcmps/dcmp_-1.bin"
       then Some [x60; x00; x00; x0a; x64; x63; x6d; x70; x00; x00; x4e; x75]
       else None;
     decompress_system0 := fun _ source => Ok source;
     decompress_system1 := fun _ source => Ok source;
     decompress_system2 := fun _ source => Ok source;
     decompress_system3 := fun _ source => Ok source;
     pick_address := fun mem _ =>
       Some (0x40000000 + 0x1000 * Z.of_nat (length (mem_regions mem)));
     M68KRegisters_new := zero_registers;
     M68KEmulator_execute := fun S _ _ st => Ok st;
     PPC32Registers_new := {| ppc_r := fun _ => 0; ppc_lr := 0; ppc_pc := 0 |};
     PPC32Emulator_execute := fun _ _ emu => Ok emu;
     PEFFFile_parse := fun _ => Throw (runtime_error "not a PEF file");
     PEFFFile_load_into := fun _ _ mem _ => Ok mem |}.

(** A version 9 header naming decompressor [id] for [size] bytes of output,
    followed by [payload]. *)
Definition sample_data (id size : Z) (payload : list byte) : list byte :=
  [xa8; x9f; x65; x72; x00; x09; x00; x01] ++ be32_bytes size
  ++ be16_bytes id ++ [x00; x00] ++ payload.

Definition sample_resource (flags : Z) (data : list byte) : Resource :=
  {| res_type := 0x54455854; res_id := 128; res_flags := flags; res_data := data |}.

Definition sample_state (res : Resource) : State :=
  {| st_res := res; st_id_to_res := ∅ |}.

(** A dcmp resource too short to hold an entry point, and the resource file
    holding it under the ids 128 and 0. *)
Definition short_dcmp : Resource := Resource_new RESOURCE_TYPE_dcmp 128 [x4e; x75].

Definition sample_rf : ResourceFile :=
  {[ (RESOURCE_TYPE_dcmp, 128) := short_dcmp; (RESOURCE_TYPE_dcmp, 0) := short_dcmp ]}.

(** A dcmp resource of the second format: three offsets, then code. *)
Definition offsets_dcmp : Resource :=
  Resource_new RESOURCE_TYPE_dcmp 128
    [x00; x06; x00; x08; x00; x0a; x4e; x75; x4e; x75; x4e; x75].

(** The memory and registers of the BlockMove scenario of the spec. *)
Definition blockmove_mem : MemoryContext :=
  {| mem_regions := [(0x200, 4); (0x300, 4)];
     mem_bytes := store 0x200 [xde; xad; xbe; xef] ∅;
     mem_symbols := ∅ |}.

Definition blockmove_regs : M68KRegisters :=
  set_d (set_a (set_a zero_registers 0 0x200) 1 0x300) 0 4.

Definition blockmove_emu : M68KEmulator :=
  {| emu_regs := blockmove_regs; emu_mem := blockmove_mem |}.

(** A guest asking [GetTrapAddress] for [d0]. *)
Definition trap_request_emu (d0 : Z) : M68KEmulator :=
  {| emu_regs := set_d zero_registers 0 d0; emu_mem := MemoryContext_new |}.

(** How the handler's state evolves while a guest runs: between two traps
    the interpreter changes registers and memory as the guest code says, but
    [trap_to_call_stub_addr] belongs to the handler's closure and changes
    only when the handler runs. *)
Inductive handler_reaches `{Env : Environment}
    : M68KEmulator * gmap Z Z → M68KEmulator * gmap Z Z → Prop :=
| reaches_here st : handler_reaches st st
| reaches_guest emu emu' traps st :
    handler_reaches (emu', traps) st → handler_reaches (emu, traps) st
| reaches_trap opcode st st' st'' :
    shim_syscall_handler opcode st = Ok st' →
    handler_reaches st' st'' → handler_reaches st st''.

(** An A-line opcode: bits 15..12 are 1010. *)
Definition is_a_line (opcode : Z) : bool := Z.shiftr opcode 12 =? 0xA.
(** What BlockMove leaves behind, in either handler. *)
Definition after_blockmove (emu : M68KEmulator) (bs : list byte) : M68KEmulator :=
  {| emu_regs := set_d (emu_regs emu) 0 0;
     emu_mem := poke (emu_mem emu) (regs_a (emu_regs emu) 1%nat) bs |}.


(** The conditions under which [decompress_resource] goes on to look at the
    data: the resource is marked compressed, it is not known to have failed
    before (unless asked to retry), and decompression is not disabled. *)
Definition decompression_wanted `{Env : Environment}
    (decompress_flags : Z) (res : Resource) : Prop :=
  flag_set (res_flags res) FLAG_COMPRESSED = true
  ∧ (flag_set decompress_flags RETRY = true
     ∨ flag_set (res_flags res) FLAG_DECOMPRESSION_FAILED = false)
  ∧ flag_set decompress_flags DISABLED = false.

(** A valid compressed header: long enough, with the magic number, the
    compression attribute, and version 8 or 9, which give the decompressor
    id and the extra output bytes. *)
Definition valid_compressed_header `{Env : Environment}
    (data : list byte) (dcmp_resource_id output_extra_bytes : Z) : Prop :=
  sizeof_CompressedResourceHeader ≤ Z.of_nat (length data)
  ∧ header_magic data = 0xA89F6572
  ∧ flag_set (attributes (header_fields data)) 0x01 = true
  ∧ header_ids (header_fields data) = Ok (dcmp_resource_id, output_extra_bytes).

(** An attempt that ends with an exception. *)
Definition fails {A} (r : result A * State) : Prop := is_ok r.1 = false.

(** What one category contributes to the list of candidates: nothing when
    its skip flag is set or when it has no decompressor to offer. *)
Definition candidate (skip : bool) (r : option Resource) : list (option Resource) :=
  if skip then [] else
  match r with
  | Some x => [Some x]
  | None => []
  end.

(* ================================================================== *)
(** ** The cache of system decompressors *)
(* ================================================================== *)

(** The environment [E] once [system_dcmps] has been removed: no file can
    be opened any more, everything else is as before. *)
Definition without_files (E : Environment) : Environment :=
  {| FLAG_COMPRESSED := @FLAG_COMPRESSED E;
     FLAG_DECOMPRESSED := @FLAG_DECOMPRESSED E;
     FLAG_DECOMPRESSION_FAILED := @FLAG_DECOMPRESSION_FAILED E;
     DISABLED := @DISABLED E;
     VERBOSE := @VERBOSE E;
     TRACE_EXECUTION := @TRACE_EXECUTION E;
     DEBUG_EXECUTION := @DEBUG_EXECUTION E;
     RETRY := @RETRY E;
     SKIP_FILE_DCMP := @SKIP_FILE_DCMP E;
     SKIP_FILE_NCMP := @SKIP_FILE_NCMP E;
     SKIP_INTERNAL := @SKIP_INTERNAL E;
     SKIP_SYSTEM_DCMP := @SKIP_SYSTEM_DCMP E;
     SKIP_SYSTEM_NCMP := @SKIP_SYSTEM_NCMP E;
     header_fields := @header_fields E;
     load_file := fun _ => None;
     decompress_system0 := @decompress_system0 E;
     decompress_system1 := @decompress_system1 E;
     decompress_system2 := @decompress_system2 E;
     decompress_system3 := @decompress_system3 E;
     pick_address := @pick_address E;
     M68KRegisters_new := @M68KRegisters_new E;
     M68KEmulator_execute := @M68KEmulator_execute E;
     PPC32Registers_new := @PPC32Registers_new E;
     PPC32Emulator_execute := @PPC32Emulator_execute E;
     PEFFFile_parse := @PEFFFile_parse E;
     PEFFFile_load_into := @PEFFFile_load_into E |}.

(** An entry of the cache as [get_system_decompressor] makes it: a resource
    of type dcmp or ncmp without flags, holding the contents of the file
    named after its type and id, under the key of its type and id. *)
Definition loaded_from_file `{Env : Environment} (key : Z) (r : Resource) : Prop :=
  ∃ use_ncmp : bool,
    res_type r = (if use_ncmp then RESOURCE_TYPE_ncmp else RESOURCE_TYPE_dcmp)
    ∧ key = system_decompressor_key (res_type r) (res_id r)
    ∧ load_file (system_decompressor_filename use_ncmp (res_id r)) = Some (res_data r)
    ∧ res_flags r = 0.

(** The cache [c'] holds what [c] held, and what it holds besides was
    loaded from a file. *)
Definition cache_extends `{Env : Environment} (c c' : gmap Z Resource) : Prop :=
  c ⊆ c' ∧ ∀ key r, c' !! key = Some r → c !! key = None → loaded_from_file key r.

(* ================================================================== *)
(** ** m68kexec.cc: choosing the architecture and preparing the machine *)
(* ================================================================== *)

Inductive Architecture := M68K | PPC32 | X86.

(** [main], lines 688-698: what one argument does to the architecture.
    [strcmp] compares the whole argument, [strncmp] its first 10 or 11
    characters. *)
Definition select_architecture_arg (arch : Architecture) (arg : string) : Architecture :=
  if String.eqb arg "--m68k" then M68K
  else if String.eqb arg "--ppc32" then PPC32
  else if String.eqb arg "--x86" then X86
  else if String.prefix "--load-pe=" arg then X86
  else if String.prefix "--load-dol=" arg then PPC32
  else arch.

(** [main], lines 686-699: the arguments after the program name, in order,
    starting from M68K. *)
Definition select_architecture (argv : list string) : Architecture :=
  fold_left select_architecture_arg (tail argv) M68K.

(** Modelled from the spec: [write_u32l] and [read_u32l], the little-endian
    typed accesses, and [memset(addr, byte, n)]. *)
Definition le32_bytes (v : Z) : list byte := rev (be32_bytes v).

Definition write_u32l (mem : MemoryContext) (addr v : Z) : result MemoryContext :=
  mem_write mem addr (le32_bytes v).

Definition read_u32l (mem : MemoryContext) (addr : Z) : result Z :=
  bs ← mem_read mem addr 4; Ok (be_value (rev bs) 0).

Definition mem_memset (mem : MemoryContext) (addr v size : Z) : result MemoryContext :=
  mem_write mem addr (replicate (Z.to_nat size) (byte_of v)).

(** [main_t], lines 623-629: a memory segment of [size] bytes at [addr],
    holding [data] cut to [size] bytes or followed by zeroes up to [size]
    bytes.  ([def.addr + def.data.size()] is handed to [memset] as a
    [uint32_t].) *)
Definition load_segment (mem : MemoryContext) (addr size : Z) (data : list byte)
    : result MemoryContext :=
  mem ← allocate_at mem addr size;
  if size <=? Z.of_nat (length data) then
    mem_write mem addr (take (Z.to_nat size) data)
  else
    mem ← mem_write mem addr data;
    mem_memset mem (u32 (addr + Z.of_nat (length data))) 0
      (size - Z.of_nat (length data)).

(** [main_t], lines 647-655: the values to push, in the order of the command
    line; the stack pointer is a [uint32_t]. *)
Fixpoint push_values (is_little_endian : bool) (mem : MemoryContext) (sp : Z)
    (values_to_push : list Z) : result (Z * MemoryContext) :=
  match values_to_push with
  | [] => Ok (sp, mem)
  | value :: rest =>
      let sp := u32 (sp - 4) in
      mem ← (if is_little_endian then write_u32l mem sp value
             else write_u32b mem sp value);
      push_values is_little_endian mem sp rest
  end.

Definition stack_size : Z := 0x10000.

(** [main_t], lines 637-658: from the stack pointer found in the registers
    to the one stored back in them; a stack pointer of zero asks for a
    stack region. *)
Definition prepare_stack `{Env : Environment} (is_little_endian : bool)
    (mem : MemoryContext) (sp : Z) (values_to_push : list Z)
    : result (Z * MemoryContext) :=
  '(sp, mem) ←
    (if sp =? 0 then
       '(stack_addr, mem) ← allocate pick_address mem stack_size;
       Ok (u32 (stack_addr + stack_size), mem)
     else Ok (sp, mem));
  push_values is_little_endian mem sp values_to_push.

(** Typed reads in the byte order of the emulated machine. *)
Definition read_u32 (is_little_endian : bool) (mem : MemoryContext) (addr : Z)
    : result Z :=
  if is_little_endian then read_u32l mem addr else read_u32b mem addr.

(* ================================================================== *)
(** ** QuickDrawFormats.cc *)
(* ================================================================== *)

(** The structures are declared in QuickDrawFormats.hh, which is not among
    the sources; their fields are taken with the types of the constructors'
    parameters: [uint8_t] components for [Color8], [uint16_t] components for
    [Color], [int16_t] coordinates for [Point] and [Rect]. *)
Record Color8 := {
  c8_r : Z;
  c8_g : Z;
  c8_b : Z;
}.

(** [Color8::Color8(uint8_t r, uint8_t g, uint8_t b)] *)
Definition Color8_new (r g b : Z) : Color8 :=
  {| c8_r := u8 r; c8_g := u8 g; c8_b := u8 b |}.

(** [Color8::Color8(uint32_t c)] *)
Definition Color8_of_u32 (c : Z) : Color8 :=
  Color8_new (Z.shiftr (u32 c) 16) (Z.shiftr (u32 c) 8) (u32 c).

Record Color := {
  c_r : Z;
  c_g : Z;
  c_b : Z;
}.

(** [Color::Color(uint16_t r, uint16_t g, uint16_t b)] *)
Definition Color_new (r g b : Z) : Color :=
  {| c_r := u16 r; c_g := u16 g; c_b := u16 b |}.

(** [Color::as8] *)
Definition Color_as8 (c : Color) : Color8 :=
  {| c8_r := u8 (c_r c / 0x101); c8_g := u8 (c_g c / 0x101); c8_b := u8 (c_b c / 0x101) |}.

(** [Color::to_u64] *)
Definition Color_to_u64 (c : Color) : Z :=
  Z.lor (Z.lor (u64 (Z.shiftl (u64 (c_r c)) 32)) (u64 (Z.shiftl (u64 (c_g c)) 16)))
        (u64 (c_b c)).

Record Point := {
  pt_y : Z;
  pt_x : Z;
}.

(** [Point::Point(int16_t y, int16_t x)] *)
Definition Point_new (y x : Z) : Point :=
  {| pt_y := signed 16 y; pt_x := signed 16 x |}.

Record Rect := {
  rect_y1 : Z;
  rect_x1 : Z;
  rect_y2 : Z;
  rect_x2 : Z;
}.

(** [Rect::contains(ssize_t x, ssize_t y)] *)
Definition Rect_contains (r : Rect) (x y : Z) : bool :=
  (rect_x1 r <=? x) && (x <? rect_x2 r) && (rect_y1 r <=? y) && (y <? rect_y2 r).

(** [Rect::contains(const Rect& other)] *)
Definition Rect_contains_rect (r other : Rect) : bool :=
  (rect_x1 r <=? rect_x1 other) && (rect_x1 other <? rect_x2 r)
  && (rect_y1 r <=? rect_y1 other) && (rect_y1 other <? rect_y2 r)
  && (rect_x1 r <=? rect_x2 other) && (rect_x2 other <=? rect_x2 r)
  && (rect_y1 r <=? rect_y2 other) && (rect_y2 other <=? rect_y2 r).

(** [Rect::width], [Rect::height], [Rect::is_empty] *)
Definition Rect_width (r : Rect) : Z := rect_x2 r - rect_x1 r.
Definition Rect_height (r : Rect) : Z := rect_y2 r - rect_y1 r.
Definition Rect_is_empty (r : Rect) : bool :=
  (rect_x1 r =? rect_x2 r) || (rect_y1 r =? rect_y2 r).

(** [Region::signature_for_inversion_point(int16_t x, int16_t y)]:
    [(static_cast<int32_t>(x) << 16) | y], where [y] is promoted to [int]
    with its sign. *)
Definition signature_for_inversion_point (x y : Z) : Z :=
  signed 32 (Z.lor (Z.shiftl (signed 16 x) 16) (signed 16 y)).

(** [Region::inversion_point_for_signature(int32_t s)]:
    [Point(s & 0xFFFF, (s >> 16) & 0xFFFF)] *)
Definition inversion_point_for_signature (s : Z) : Point :=
  Point_new (Z.land s 0xFFFF) (Z.land (Z.shiftr s 16) 0xFFFF).

(** [Region::contains], lines 229-238: the test that counts the inversion
    points above and to the left of the point, used for large regions. *)
Definition count_inversions (inversions : list Z) (x y : Z) : bool :=
  fold_left (fun contained pt =>
               let pt_x := signed 16 (Z.land (Z.shiftr pt 16) 0xFFFF) in
               let pt_y := signed 16 (Z.land pt 0xFFFF) in
               if (pt_x <=? x) && (pt_y <=? y) then negb contained else contained)
            inversions true.

(** [Pattern::pixel_at(uint8_t x, uint8_t y)], on the eight rows of the
    pattern. *)
Definition Pattern_pixel_at (rows : Z → byte) (x y : Z) : bool :=
  negb (Z.land (Z.shiftr (byte_val (rows (Z.land (u8 y) 7))) (7 - Z.land (u8 x) 7)) 1 =? 0).

(** [PixelMapData::lookup_entry]: [data] is the array that ends the
    structure, read at any index the arguments lead to; the index is a
    [size_t], taken here without overflow. *)
Definition lookup_entry (data : Z → byte) (pixel_size row_bytes x y : Z) : result Z :=
  let at_ i := byte_val (data i) in
  if pixel_size =? 1 then
    Ok (Z.land (Z.shiftr (at_ (y * row_bytes + x / 8)) (7 - Z.land x 7)) 1)
  else if pixel_size =? 2 then
    Ok (Z.land (Z.shiftr (at_ (y * row_bytes + x / 4)) (6 - Z.land x 3 * 2)) 3)
  else if pixel_size =? 4 then
    Ok (Z.land (Z.shiftr (at_ (y * row_bytes + x / 2)) (4 - Z.land x 1 * 4)) 15)
  else if pixel_size =? 8 then
    Ok (at_ (y * row_bytes + x))
  else if pixel_size =? 16 then
    let i := y * row_bytes + x * 2 in
    Ok (be_value [data i; data (i + 1)] 0)
  else if pixel_size =? 32 then
    let i := y * row_bytes + x * 4 in
    Ok (be_value [data i; data (i + 1); data (i + 2); data (i + 3)] 0)
  else Throw (runtime_error "pixel size is not 1, 2, 4, 8, 16, or 32 bits").

(** [decode_color_image], lines 563-565: the channels of an xrgb1555 pixel,
    each a [uint8_t]. *)
Definition xrgb1555_r (color_id : Z) : Z :=
  u8 (Z.lor (Z.land (Z.shiftr color_id 7) 0xF8) (Z.land (Z.shiftr color_id 12) 0x07)).
Definition xrgb1555_g (color_id : Z) : Z :=
  u8 (Z.lor (Z.land (Z.shiftr color_id 2) 0xF8) (Z.land (Z.shiftr color_id 7) 0x07)).
Definition xrgb1555_b (color_id : Z) : Z :=
  u8 (Z.lor (Z.land (u32 (Z.shiftl color_id 3)) 0xF8) (Z.land (Z.shiftr color_id 2) 0x07)).

(** [decode_4bit_image], lines 405-406: the two grey levels of a byte when
    no colour table is given. *)
Definition gray4_left (indexes : Z) : Z :=
  u8 (Z.lor (Z.land indexes 0xF0) (Z.shiftr (Z.land indexes 0xF0) 4)).
Definition gray4_right (indexes : Z) : Z :=
  u8 (Z.lor (Z.shiftl (Z.land indexes 0x0F) 4) (Z.land indexes 0x0F)).

(* ================================================================== *)
(** ** Images and readers (phosg) *)
(* ================================================================== *)

(** [Image] and [StringReader] are classes of phosg, a library outside the
    repository.  What the decoders use of them is taken as follows.  An
    image has a width, a height, possibly an alpha channel, and at each
    position four channels of eight bits; a new image is black; reading or
    writing outside the image throws [runtime_error]; an image without alpha
    channel drops the alpha it is given and reads as opaque.  A reader walks
    forward through a string and throws [out_of_range] when asked for more
    bytes than are left; [skip] moves on without looking, and [sub] is the
    reader of a part of the string, cut to what the string holds.  The texts
    of these exceptions are phosg's and nothing below depends on them. *)
Record Pixel := {
  px_r : Z;
  px_g : Z;
  px_b : Z;
  px_a : Z;
}.

Record Image := {
  img_width : Z;
  img_height : Z;
  img_has_alpha : bool;
  img_pixels : gmap (Z * Z) Pixel;
}.

Definition Image_new (width height : Z) (has_alpha : bool) : Image :=
  {| img_width := width; img_height := height; img_has_alpha := has_alpha;
     img_pixels := ∅ |}.

Definition Image_inside (img : Image) (x y : Z) : bool :=
  (0 <=? x) && (x <? img_width img) && (0 <=? y) && (y <? img_height img).

Definition write_pixel (img : Image) (x y r g b a : Z) : result Image :=
  if Image_inside img x y then
    Ok {| img_width := img_width img; img_height := img_height img;
          img_has_alpha := img_has_alpha img;
          img_pixels :=
            <[(x, y) := {| px_r := u8 r; px_g := u8 g; px_b := u8 b;
                           px_a := if img_has_alpha img then u8 a else 0xFF |}]>
              (img_pixels img) |}
  else Throw (runtime_error "out of bounds").

Definition read_pixel (img : Image) (x y : Z) : result Pixel :=
  if Image_inside img x y then
    Ok (default {| px_r := 0; px_g := 0; px_b := 0;
                   px_a := if img_has_alpha img then 0 else 0xFF |}
          (img_pixels img !! (x, y)))
  else Throw (runtime_error "out of bounds").

Record StringReader := {
  sr_data : list byte;
  sr_offset : nat;
}.

Definition StringReader_new (data : list byte) : StringReader :=
  {| sr_data := data; sr_offset := 0 |}.

(** What is left to read. *)
Definition sr_rest (r : StringReader) : list byte := drop (sr_offset r) (sr_data r).

Definition get_bytes (r : StringReader) (n : nat) : result (list byte * StringReader) :=
  if (sr_offset r + n <=? length (sr_data r))%nat then
    Ok (take n (sr_rest r), {| sr_data := sr_data r; sr_offset := sr_offset r + n |})
  else Throw (out_of_range "end of string").

Definition get_u8 (r : StringReader) : result (Z * StringReader) :=
  '(bs, r) ← get_bytes r 1; Ok (be_value bs 0, r).

Definition get_u16b (r : StringReader) : result (Z * StringReader) :=
  '(bs, r) ← get_bytes r 2; Ok (be_value bs 0, r).

Definition get_u32b (r : StringReader) : result (Z * StringReader) :=
  '(bs, r) ← get_bytes r 4; Ok (be_value bs 0, r).

Definition skip (r : StringReader) (n : nat) : StringReader :=
  {| sr_data := sr_data r; sr_offset := sr_offset r + n |}.

Definition StringReader_size (r : StringReader) : Z := Z.of_nat (length (sr_data r)).

Definition StringReader_sub (r : StringReader) (offset size : Z) : StringReader :=
  StringReader_new (take (Z.to_nat size) (drop (Z.to_nat offset) (sr_data r))).

(** [for (i = start; i < start + n; i++) body], on a state that the body
    may leave with an exception. *)
Fixpoint for_loop {T : Type} (n : nat) (start : Z) (body : Z → T → result T) (s : T)
    : result T :=
  match n with
  | O => Ok s
  | S k =>
      match body start s with
      | Ok s' => for_loop k (start + 1) body s'
      | Throw e => Throw e
      end
  end.

(* ================================================================== *)
(** ** QuickDrawFormats.cc: [decode_monochrome_image] *)
(* ================================================================== *)

(** Lines 264-292.  [data] is what [vdata] points to, read at any offset the
    loops reach; sizes and coordinates are [size_t], taken without
    overflow.  The loop over [x] advances by 8, so its [k]-th round has
    [x = 8 * k]. *)
Definition decode_monochrome_image (data : Z → byte) (size w h row_bytes : Z)
    : result Image :=
  row_bytes ←
    (if row_bytes =? 0 then
       if negb (Z.land w 7 =? 0) then
         Throw (runtime_error
                  "width must be a multiple of 8 unless row_bytes is specified")
       else Ok (w / 8)
     else Ok row_bytes);
  if negb (size =? row_bytes * h) then
    Throw (runtime_error
             ("incorrect data size: expected " +:+ pretty (row_bytes * h)
              +:+ " bytes, got " +:+ pretty size +:+ " bytes"))
  else
    for_loop (Z.to_nat h) 0 (fun y result =>
      for_loop (Z.to_nat ((w + 7) / 8)) 0 (fun k result =>
        let x := 8 * k in
        let pixels := byte_val (data (y * row_bytes + x / 8)) in
        let z_limit := if x + 8 <=? w then 8 else w - x in
        '(_, result) ←
          for_loop (Z.to_nat z_limit) 0 (fun z '(pixels, result) =>
            let value := if negb (Z.land pixels 0x80 =? 0) then 0x00 else 0xFF in
            let pixels := u8 (Z.shiftl pixels 1) in
            result ← write_pixel result (x + z) y value value value 0xFF;
            Ok (pixels, result)) (pixels, result);
        Ok result) result)
      (Image_new w h false).

(** The pixel of a monochrome image for a bit: set is black. *)
Definition monochrome_pixel (bit : bool) : Pixel :=
  let value := if bit then 0x00 else 0xFF in
  {| px_r := value; px_g := value; px_b := value; px_a := 0xFF |}.

(** What the image should hold at a position: the leftmost pixel of a byte
    is its most significant bit. *)
Definition monochrome_expected (data : Z → byte) (row_bytes x y : Z) : Pixel :=
  monochrome_pixel (Z.testbit (byte_val (data (y * row_bytes + x / 8))) (7 - x mod 8)).

(** The image while [decode_monochrome_image] fills it: [filled x y] says
    which positions have been written. *)
Definition monochrome_partial (data : Z → byte) (w h row_bytes : Z)
    (filled : Z → Z → Prop) (img : Image) : Prop :=
  img_width img = w ∧ img_height img = h ∧ img_has_alpha img = false
  ∧ ∀ x y, 0 ≤ x < w → 0 ≤ y < h → filled x y →
           img_pixels img !! (x, y) = Some (monochrome_expected data row_bytes x y).

(* ================================================================== *)
(** ** SpriteDecoders/StepOnIt-sssf.cc: [decode_sssf_image] *)
(* ================================================================== *)

Record ColorTableEntry := {
  color_num : Z;
  cte_c : Color;
}.

(** Lines 25-30: a run of transparent pixels. *)
Fixpoint push_zeroes (n : nat) (decoded_data : list byte) (target_size : Z)
    : result (list byte) :=
  match n with
  | O => Ok decoded_data
  | S k =>
      if target_size <=? Z.of_nat (length decoded_data) then
        Throw (logic_error "exceeded target size during transparent segment")
      else push_zeroes k (decoded_data ++ [x00]) target_size
  end.

(** Lines 35-40: a run of bytes taken from the data stream. *)
Fixpoint push_data (n : nat) (data_r : StringReader) (decoded_data : list byte)
    (target_size : Z) : result (list byte * StringReader) :=
  match n with
  | O => Ok (decoded_data, data_r)
  | S k =>
      if target_size <=? Z.of_nat (length decoded_data) then
        Throw (logic_error "exceeded target size during data segment")
      else
        match get_u8 data_r with
        | Ok (v, data_r) => push_data k data_r (decoded_data ++ [byte_of v]) target_size
        | Throw e => Throw e
        end
  end.

(** Lines 23-41: the loop over the runs.  Each round reads at least one byte
    of [r], here the bytes of the reader that are still unread; when they
    run out [get_u8] throws. *)
Fixpoint decode_sssf_runs (r : list byte) (data_r : StringReader)
    (decoded_data : list byte) (target_size : Z) : result (list byte) :=
  if negb (Z.of_nat (length decoded_data) <? target_size) then Ok decoded_data
  else
    match r with
    | [] => Throw (out_of_range "end of string")
    | num_zeroes :: r =>
        match push_zeroes (Z.to_nat (byte_val num_zeroes)) decoded_data target_size with
        | Throw e => Throw e
        | Ok decoded_data =>
            if target_size <=? Z.of_nat (length decoded_data) then Ok decoded_data
            else
              match r with
              | [] => Throw (out_of_range "end of string")
              | num_data_bytes :: r =>
                  match push_data (Z.to_nat (byte_val num_data_bytes)) data_r
                          decoded_data target_size with
                  | Throw e => Throw e
                  | Ok (decoded_data, data_r) =>
                      decode_sssf_runs r data_r decoded_data target_size
                  end
              end
        end
    end.

(** Lines 47-53: one pixel.  A zero is transparent; any other value is an
    index into the colour table, which [vector::at] checks. *)
Definition sssf_pixel (clut : list ColorTableEntry) (ret : Image) (x y v : Z)
    : result Image :=
  if v =? 0 then write_pixel ret x y 0 0 0 0
  else
    match clut !! Z.to_nat v with
    | Some entry =>
        let c := Color_as8 (cte_c entry) in
        write_pixel ret x y (c8_r c) (c8_g c) (c8_b c) 0xFF
    | None => Throw (out_of_range "vector::at")
    end.

(** Lines 13-58.  [width * height] is a product of two [int]s converted to
    [size_t]; it is taken as two's complement hardware computes it. *)
Definition decode_sssf_image (r : StringReader) (clut : list ColorTableEntry)
    : result Image :=
  '(width, r) ← get_u16b r;
  '(height, r) ← get_u16b r;
  let r := skip r 4 in
  '(data_stream_offset, r) ← get_u32b r;
  let data_r :=
    StringReader_sub r data_stream_offset
      (u64 (StringReader_size r - data_stream_offset)) in
  let target_size := u64 (signed 32 (width * height)) in
  decoded_data ← decode_sssf_runs (sr_rest r) data_r [] target_size;
  let ret := Image_new width height true in
  '(_, ret) ←
    for_loop (Z.to_nat height) 0 (fun y st =>
      for_loop (Z.to_nat width) 0 (fun x '(decoded_r, ret) =>
        '(v, decoded_r) ← get_u8 decoded_r;
        ret ← sssf_pixel clut ret x y v;
        Ok (decoded_r, ret)) st)
      (StringReader_new decoded_data, ret);
  Ok ret.

(** The pixel that [decode_sssf_image] makes of a decoded byte. *)
Definition sssf_color (clut : list ColorTableEntry) (v : Z) : option Pixel :=
  if v =? 0 then Some {| px_r := 0; px_g := 0; px_b := 0; px_a := 0 |}
  else
    entry ← clut !! Z.to_nat v;
    Some {| px_r := c8_r (Color_as8 (cte_c entry));
            px_g := c8_g (Color_as8 (cte_c entry));
            px_b := c8_b (Color_as8 (cte_c entry));
            px_a := 0xFF |}.

(** The reader of the decoded data and the image while [decode_sssf_image]
    writes the pixels: [count] bytes have been read, and the positions that
    [filled] holds of have been written. *)
Definition sssf_partial (clut : list ColorTableEntry) (decoded_data : list byte)
    (width height : Z) (count : Z) (filled : Z → Z → Prop)
    (st : StringReader * Image) : Prop :=
  sr_data st.1 = decoded_data ∧ Z.of_nat (sr_offset st.1) = count
  ∧ img_width st.2 = width ∧ img_height st.2 = height ∧ img_has_alpha st.2 = true
  ∧ ∀ x y, 0 ≤ x < width → 0 ≤ y < height → filled x y →
      ∃ v px, decoded_data !! Z.to_nat (y * width + x) = Some v
              ∧ sssf_color clut (byte_val v) = Some px
              ∧ img_pixels st.2 !! (x, y) = Some px.

(* ================================================================== *)
(** * Properties *)
(* ================================================================== *)

(** *** Bytes and big-endian values *)

Lemma byte_val_range (b : byte) : 0 ≤ byte_val b < 256.
Proof.
  unfold byte_val. pose proof (Byte.to_N_bounded b). lia.
Qed.

Lemma byte_val_of (z : Z) : byte_val (byte_of z) = z mod 256.
Proof.
  unfold byte_val, byte_of.
  assert (0 ≤ z mod 256 < 256) as Hr by (apply Z.mod_pos_bound; lia).
  destruct (Byte.of_N (Z.to_N (z mod 256))) as [b|] eqn:Hb; simpl.
  - apply Byte.to_of_N in Hb. rewrite Hb. lia.
  - pose proof (Byte.to_of_N_option_map (Z.to_N (z mod 256))) as Hm.
    rewrite Hb in Hm. simpl in Hm.
    destruct (N.leb_spec (Z.to_N (z mod 256)) 255); [done | lia].
Qed.

Lemma be_value_bound (bs : list byte) (acc : Z) :
  0 ≤ acc → 0 ≤ be_value bs acc < (acc + 1) * 256 ^ Z.of_nat (length bs).
Proof.
  revert acc. induction bs as [|b bs IH]; intros acc Hacc; simpl be_value.
  - simpl. lia.
  - pose proof (byte_val_range b).
    specialize (IH (acc * 256 + byte_val b) ltac:(lia)).
    rewrite length_cons, Nat2Z.inj_succ, Z.pow_succ_r by lia.
    assert (0 < 256 ^ Z.of_nat (length bs)) by (apply Z.pow_pos_nonneg; lia).
    nia.
Qed.

Lemma be16_bytes_value (v : Z) : be_value (be16_bytes v) 0 = v mod 2 ^ 16.
Proof.
  unfold be16_bytes. simpl be_value. rewrite !byte_val_of.
  change (2 ^ 8) with 256. change (2 ^ 16) with 65536.
  Z.div_mod_to_equations. lia.
Qed.

Lemma be32_bytes_value (v : Z) : be_value (be32_bytes v) 0 = v mod 2 ^ 32.
Proof.
  unfold be32_bytes. simpl be_value. rewrite !byte_val_of.
  change (2 ^ 8) with 256. change (2 ^ 16) with 65536.
  change (2 ^ 24) with 16777216. change (2 ^ 32) with 4294967296.
  Z.div_mod_to_equations. lia.
Qed.

(** *** Stores and loads *)

Lemma store_lookup (bs : list byte) (addr x : Z) (m : gmap Z byte) :
  store addr bs m !! x =
    if decide (addr ≤ x < addr + Z.of_nat (length bs))
    then bs !! Z.to_nat (x - addr)
    else m !! x.
Proof.
  revert addr. induction bs as [|b bs IH]; intros addr; simpl store.
  - case_decide; [simpl in *; lia | done].
  - rewrite lookup_insert. case_decide as Heq.
    + subst x. rewrite decide_True by (simpl; lia).
      by rewrite Z.sub_diag.
    + rewrite IH. simpl length.
      case_decide; case_decide; try lia; [|done].
      replace (Z.to_nat (x - addr)) with (S (Z.to_nat (x - (addr + 1)))) by lia.
      done.
Qed.

Lemma store_lookup_outside (bs : list byte) (addr x : Z) (m : gmap Z byte) :
  x < addr ∨ addr + Z.of_nat (length bs) ≤ x → store addr bs m !! x = m !! x.
Proof. intros. rewrite store_lookup. case_decide; [lia | done]. Qed.

Lemma mapped_poke (mem : MemoryContext) (addr x : Z) (bs : list byte) :
  mapped (poke mem addr bs) x = mapped mem x.
Proof. done. Qed.

Lemma read_byte_poke_outside (mem : MemoryContext) (addr x : Z) (bs : list byte) :
  x < addr ∨ addr + Z.of_nat (length bs) ≤ x →
  read_byte (poke mem addr bs) x = read_byte mem x.
Proof.
  intros Hout. unfold read_byte. rewrite mapped_poke. simpl.
  by rewrite store_lookup_outside.
Qed.

Lemma load_ext (n : nat) (addr : Z) (mem1 mem2 : MemoryContext) :
  (∀ x, addr ≤ x < addr + Z.of_nat n → read_byte mem1 x = read_byte mem2 x) →
  load mem1 addr n = load mem2 addr n.
Proof.
  revert addr. induction n as [|n IH]; intros addr Hext; simpl; [done|].
  rewrite (Hext addr) by lia.
  rewrite (IH (addr + 1)); [done|]. intros x Hx. apply Hext. lia.
Qed.

Lemma load_length (n : nat) (addr : Z) (mem : MemoryContext) (bs : list byte) :
  load mem addr n = Some bs → length bs = n.
Proof.
  revert addr bs. induction n as [|n IH]; intros addr bs; simpl.
  - by intros [= <-].
  - destruct (read_byte mem addr); [|done].
    destruct (load mem (addr + 1) n) eqn:Hl; [|done].
    intros [= <-]. simpl. f_equal. eauto.
Qed.

(** A range can be loaded exactly when all of it is mapped. *)
Lemma load_is_Some (n : nat) (addr : Z) (mem : MemoryContext) :
  is_Some (load mem addr n) ↔ ∀ x, addr ≤ x < addr + Z.of_nat n → mapped mem x = true.
Proof.
  revert addr. induction n as [|n IH]; intros addr; simpl.
  - split; [intros _ x Hx; lia | eauto].
  - unfold read_byte at 1. split.
    + destruct (mapped mem addr) eqn:Hm; [|by intros [? [=]]].
      destruct (load mem (addr + 1) n) as [bs'|] eqn:Hl; [|by intros [? [=]]].
      intros _ x Hx. destruct (decide (x = addr)) as [->|]; [done|].
      apply (proj1 (IH (addr + 1))); [eauto | lia].
    + intros Hall. rewrite (Hall addr) by lia.
      destruct (proj2 (IH (addr + 1))) as [bs ->]; [|eauto].
      intros x Hx. apply Hall. lia.
Qed.

Lemma load_poke_same (bs : list byte) (addr : Z) (mem : MemoryContext) :
  (∀ x, addr ≤ x < addr + Z.of_nat (length bs) → mapped mem x = true) →
  load (poke mem addr bs) addr (length bs) = Some bs.
Proof.
  revert addr mem. induction bs as [|b bs IH]; intros addr mem Hmapped; [done|].
  simpl load. unfold read_byte at 1. rewrite mapped_poke, Hmapped by (simpl; lia).
  simpl mem_bytes. rewrite lookup_insert_eq. simpl default.
  rewrite (load_ext _ _ _ (poke mem (addr + 1) bs)).
  - rewrite IH; [done|]. intros x Hx. apply Hmapped. simpl. lia.
  - intros x Hx. unfold read_byte. rewrite !mapped_poke. simpl.
    by rewrite lookup_insert_ne by lia.
Qed.

Lemma load_poke_disjoint (bs : list byte) (addr x : Z) (n : nat) (mem : MemoryContext) :
  x + Z.of_nat n ≤ addr ∨ addr + Z.of_nat (length bs) ≤ x →
  load (poke mem addr bs) x n = load mem x n.
Proof.
  intros Hd. apply load_ext. intros y Hy. apply read_byte_poke_outside. lia.
Qed.

(** *** Bits of an opcode *)

Lemma land_pow2 (x n : Z) :
  0 ≤ n → Z.land x (2 ^ n) = Z.b2z (Z.testbit x n) * 2 ^ n.
Proof.
  intros Hn. apply Z.bits_inj'. intros i Hi.
  rewrite Z.land_spec, Z.pow2_bits_eqb by lia.
  rewrite <- Z.shiftl_mul_pow2 by lia.
  rewrite Z.shiftl_spec by lia.
  destruct (Z.eqb_spec n i) as [->|Hne].
  - rewrite Z.sub_diag, andb_true_r. by destruct (Z.testbit x i).
  - rewrite andb_false_r. destruct (Z.testbit x n); simpl.
    + destruct (Z.ltb_spec i n).
      * by rewrite Z.testbit_neg_r by lia.
      * change 1 with (2 ^ 0). rewrite Z.pow2_bits_eqb by lia.
        symmetry. apply Z.eqb_neq. lia.
    + by rewrite Z.bits_0.
Qed.

Lemma flag_set_bit (x n : Z) : 0 ≤ n → flag_set x (2 ^ n) = Z.testbit x n.
Proof.
  intros Hn. unfold flag_set. rewrite land_pow2 by done.
  assert (0 < 2 ^ n) by (apply Z.pow_pos_nonneg; lia).
  destruct (Z.testbit x n); simpl; [|done].
  apply negb_true_iff, Z.eqb_neq. lia.
Qed.

Lemma two_bits (y : Z) :
  Z.land y 3 = Z.b2z (Z.testbit y 0) + 2 * Z.b2z (Z.testbit y 1).
Proof.
  change 3 with (Z.ones 2). rewrite Z.land_ones by lia.
  rewrite (Z.testbit_spec' y 0), (Z.testbit_spec' y 1) by lia.
  change (2 ^ 0) with 1. change (2 ^ 1) with 2. change (2 ^ 2) with 4.
  Z.div_mod_to_equations. lia.
Qed.

Lemma two_bits_range (y : Z) : 0 ≤ Z.land y 3 < 4.
Proof. rewrite two_bits. destruct (Z.testbit y 0), (Z.testbit y 1); simpl; lia. Qed.

(** C7, as amended.  For every opcode handed to either syscall handler: if
    bit 11 is set the trap is a toolbox trap, its number is
    [opcode & 0x0BFF] and the auto-pop flag is bit 10 (the flags are 0);
    otherwise it is an OS trap, its number is [opcode & 0x00FF], auto-pop is
    clear and the flags are bits 10 and 9 of the opcode (bit 9 as the low
    bit), not bits 9 and 8. *)
Theorem decode_trap_spec (opcode : Z) :
  decode_trap opcode =
    if Z.testbit opcode 11 then
      {| trap_number := Z.land opcode 0x0BFF;
         auto_pop := Z.testbit opcode 10;
         trap_flags := 0 |}
    else
      {| trap_number := Z.land opcode 0x00FF;
         auto_pop := false;
         trap_flags := Z.b2z (Z.testbit opcode 9) + 2 * Z.b2z (Z.testbit opcode 10) |}.
Proof.
  unfold decode_trap.
  change 0x0800 with (2 ^ 11). change 0x0400 with (2 ^ 10).
  rewrite !flag_set_bit by lia.
  destruct (Z.testbit opcode 11); [done|].
  f_equal. unfold u8.
  pose proof (two_bits_range (Z.shiftr opcode 9)).
  rewrite Z.mod_small by lia.
  rewrite two_bits, !Z.shiftr_spec by lia. done.
Qed.

(** C7 as the spec states it fails on the OS trap 0xA100: bits 9 and 8 of
    the opcode read 01, but the flags the handler decodes are 0. *)
Lemma decode_trap_flags_not_bits_9_8 :
  Z.testbit 0xA100 11 = false
  ∧ Z.land (Z.shiftr 0xA100 8) 3 = 1
  ∧ trap_flags (decode_trap 0xA100) = 0
  ∧ trap_flags (decode_trap 0xA100) ≠ Z.land (Z.shiftr 0xA100 8) 3.
Proof. repeat split; try (vm_compute; reflexivity). vm_compute. discriminate. Qed.

(** *** The two syscall handlers *)

Section Handlers.
Context `{Env : Environment}.

Lemma u32_small (z : Z) : 0 ≤ z < 2 ^ 32 → u32 z = z.
Proof. intros. unfold u32. by apply Z.mod_small. Qed.

Lemma u32_range (z : Z) : 0 ≤ u32 z < 2 ^ 32.
Proof. unfold u32. apply Z.mod_pos_bound. lia. Qed.

Lemma mem_at_Ok (mem : MemoryContext) (addr size : Z) :
  is_Some (load mem addr (Z.to_nat size)) → mem_at mem addr size = Ok tt.
Proof. intros [bs Hbs]. unfold mem_at. by rewrite Hbs. Qed.

Lemma mem_read_poke_same (mem : MemoryContext) (addr size : Z) (bs : list byte) :
  Z.to_nat size = length bs →
  (∀ x, addr ≤ x < addr + Z.of_nat (length bs) → mapped mem x = true) →
  mem_read (poke mem addr bs) addr size = Ok bs.
Proof.
  intros Hlen Hmapped. unfold mem_read. by rewrite Hlen, load_poke_same.
Qed.

Lemma mem_read_poke_disjoint (mem : MemoryContext) (addr x size : Z) (bs : list byte) :
  x + Z.of_nat (Z.to_nat size) ≤ addr ∨ addr + Z.of_nat (length bs) ≤ x →
  mem_read (poke mem addr bs) x size = mem_read mem x size.
Proof.
  intros Hd. unfold mem_read. by rewrite load_poke_disjoint.
Qed.

Lemma shim_blockmove (opcode : Z) (emu : M68KEmulator) (traps : gmap Z Z)
    (bs : list byte) :
  trap_number (decode_trap opcode) = 0x2E →
  load (emu_mem emu) (regs_a (emu_regs emu) 0%nat)
       (Z.to_nat (regs_d (emu_regs emu) 0%nat)) = Some bs →
  is_Some (load (emu_mem emu) (regs_a (emu_regs emu) 1%nat)
                (Z.to_nat (regs_d (emu_regs emu) 0%nat))) →
  shim_syscall_handler opcode (emu, traps) = Ok (after_blockmove emu bs, traps).
Proof.
  intros Htrap Hsrc Hdst. unfold shim_syscall_handler. rewrite Htrap. simpl.
  rewrite (mem_at_Ok _ _ _ (mk_is_Some _ _ Hsrc)), (mem_at_Ok _ _ _ Hdst). simpl.
  unfold host_memcpy. by rewrite Hsrc.
Qed.

Lemma m68kexec_blockmove (opcode : Z) (emu : M68KEmulator) (bs : list byte) :
  trap_number (decode_trap opcode) = 0x2E →
  load (emu_mem emu) (regs_a (emu_regs emu) 0%nat)
       (Z.to_nat (regs_d (emu_regs emu) 0%nat)) = Some bs →
  is_Some (load (emu_mem emu) (regs_a (emu_regs emu) 1%nat)
                (Z.to_nat (regs_d (emu_regs emu) 0%nat))) →
  m68kexec_syscall_handler opcode emu = Ok (after_blockmove emu bs).
Proof.
  intros Htrap Hsrc Hdst. unfold m68kexec_syscall_handler. rewrite Htrap. simpl.
  unfold mem_memcpy, mem_read. rewrite Hsrc. simpl.
  unfold mem_write. rewrite mem_at_Ok; [done|].
  by rewrite Nat2Z.id, (load_length _ _ _ _ Hsrc).
Qed.

(** C5.  BlockMove (trap 0x2E), in the handler of the shim and in the one of
    m68kexec: when the [D0] bytes at [A0] and the [D0] bytes at [A1] are
    mapped and the two ranges do not overlap, the handler returns normally,
    the [D0] bytes at [A1] are then the bytes that were at [A0], no byte
    outside the destination range has changed, [D0] is 0 and no other
    register has changed.  The scenario of the spec (A0 = 0x200, A1 = 0x300,
    D0 = 4, DE AD BE EF at 0x200, opcode 0xA02E) is the instance that
    follows the section. *)
Theorem blockmove_copies (opcode : Z) (emu : M68KEmulator) (traps : gmap Z Z)
    (bs : list byte) :
  let a0 := regs_a (emu_regs emu) 0%nat in
  let a1 := regs_a (emu_regs emu) 1%nat in
  let d0 := regs_d (emu_regs emu) 0%nat in
  trap_number (decode_trap opcode) = 0x2E →
  0 ≤ d0 →
  load (emu_mem emu) a0 (Z.to_nat d0) = Some bs →
  is_Some (load (emu_mem emu) a1 (Z.to_nat d0)) →
  a0 + d0 ≤ a1 ∨ a1 + d0 ≤ a0 →
  ∃ emu',
    shim_syscall_handler opcode (emu, traps) = Ok (emu', traps)
    ∧ m68kexec_syscall_handler opcode emu = Ok emu'
    ∧ mem_read (emu_mem emu') a1 d0 = Ok bs
    ∧ Z.of_nat (length bs) = d0
    ∧ (∀ x, x < a1 ∨ a1 + d0 ≤ x →
         read_byte (emu_mem emu') x = read_byte (emu_mem emu) x)
    ∧ mem_regions (emu_mem emu') = mem_regions (emu_mem emu)
    ∧ regs_d (emu_regs emu') 0%nat = 0
    ∧ (∀ i, i ≠ 0%nat → regs_d (emu_regs emu') i = regs_d (emu_regs emu) i)
    ∧ regs_a (emu_regs emu') = regs_a (emu_regs emu)
    ∧ regs_pc (emu_regs emu') = regs_pc (emu_regs emu)
    ∧ regs_sr (emu_regs emu') = regs_sr (emu_regs emu).
Proof.
  intros a0 a1 d0 Htrap Hd0 Hsrc Hdst _.
  pose proof (load_length _ _ _ _ Hsrc) as Hlen.
  exists (after_blockmove emu bs). repeat split.
  - by apply shim_blockmove.
  - by apply m68kexec_blockmove.
  - apply mem_read_poke_same; [by rewrite Hlen|].
    rewrite Hlen. by apply load_is_Some.
  - lia.
  - intros x Hx. simpl. apply read_byte_poke_outside. fold a1. lia.
  - intros i Hi. simpl. by rewrite fn_lookup_insert_ne.
Qed.

End Handlers.

(** The BlockMove scenario of the spec: after opcode 0xA02E the four bytes
    at 0x300 are DE AD BE EF and D0 is 0. *)
Lemma blockmove_scenario :
  ∃ emu',
    shim_syscall_handler (Env := sample_env) 0xA02E (blockmove_emu, ∅) = Ok (emu', ∅)
    ∧ m68kexec_syscall_handler (Env := sample_env) 0xA02E blockmove_emu = Ok emu'
    ∧ mem_read (emu_mem emu') 0x300 4 = Ok [xde; xad; xbe; xef]
    ∧ regs_d (emu_regs emu') 0%nat = 0.
Proof.
  destruct (blockmove_copies (Env := sample_env) 0xA02E blockmove_emu ∅
              [xde; xad; xbe; xef]) as (emu' & H1 & H2 & H3 & _ & _ & _ & H4 & _).
  - reflexivity.
  - vm_compute. discriminate.
  - reflexivity.
  - vm_compute. eauto.
  - vm_compute. left. discriminate.
  - exists emu'. split; [exact H1|]. split; [exact H2|]. split; [exact H3 | exact H4].
Defined.


Section GetTrapAddress.
Context `{Env : Environment}.

Lemma overlaps_in_region (addr size x : Z) (region : Z * Z) :
  addr ≤ x < addr + size → in_region x region = true → overlaps addr size region = true.
Proof.
  unfold in_region, overlaps. intros Hx [Hlo Hhi]%andb_true_iff.
  apply andb_true_iff. split; lia.
Qed.

(** What a successful [allocate_at] has checked and done. *)
Lemma allocate_at_Ok (mem mem' : MemoryContext) (addr size : Z) :
  allocate_at mem addr size = Ok mem' →
  addr ≠ 0 ∧ addr + size ≤ 2 ^ 32
  ∧ (∀ x, addr ≤ x < addr + size → mapped mem x = false)
  ∧ mem' = {| mem_regions := (addr, size) :: mem_regions mem;
              mem_bytes := mem_bytes mem;
              mem_symbols := mem_symbols mem |}.
Proof.
  unfold allocate_at.
  destruct (Z.eqb_spec addr 0); [done|].
  destruct (Z.ltb_spec (2 ^ 32) (addr + size)); [done|].
  destruct (existsb (overlaps addr size) (mem_regions mem)) eqn:Hfree; [done|].
  intros [= <-]. repeat split; try done.
  intros x Hx. unfold mapped. apply not_true_iff_false. intros Hin.
  apply existsb_exists in Hin as (region & Hregion & Hin).
  assert (existsb (overlaps addr size) (mem_regions mem) = true); [|congruence].
  apply existsb_exists. exists region. split; [done|].
  by apply overlaps_in_region with x.
Qed.

Lemma allocate_at_mapped (mem mem' : MemoryContext) (addr size x : Z) :
  allocate_at mem addr size = Ok mem' →
  mapped mem' x = in_region x (addr, size) || mapped mem x.
Proof. by intros (_ & _ & _ & ->)%allocate_at_Ok. Qed.

Lemma allocate_at_range_mapped (mem mem' : MemoryContext) (addr size x : Z) :
  allocate_at mem addr size = Ok mem' → addr ≤ x < addr + size → mapped mem' x = true.
Proof.
  intros Hat Hx. rewrite (allocate_at_mapped _ _ _ _ _ Hat).
  apply orb_true_iff. left. unfold in_region. simpl. apply andb_true_iff. lia.
Qed.

Lemma lor_bound (n a b : Z) :
  0 ≤ n → 0 ≤ a < 2 ^ n → 0 ≤ b < 2 ^ n → 0 ≤ Z.lor a b < 2 ^ n.
Proof.
  intros Hn Ha Hb. split; [apply Z.lor_nonneg; lia|].
  destruct (Z.eq_dec (Z.lor a b) 0) as [->|Hne]; [lia|].
  apply Z.log2_lt_pow2; [pose proof (proj2 (Z.lor_nonneg a b)); lia|].
  pose proof (Z.log2_lor a b ltac:(lia) ltac:(lia)) as Hl.
  assert (a = 0 ∨ 0 < a) as [->|Hpa] by lia;
    assert (b = 0 ∨ 0 < b) as [->|Hpb] by lia.
  - done.
  - rewrite Z.lor_0_l in *. apply Z.log2_lt_pow2; lia.
  - rewrite Z.lor_0_r in *. apply Z.log2_lt_pow2; lia.
  - assert (Z.log2 a < n) by (apply Z.log2_lt_pow2; lia).
    assert (Z.log2 b < n) by (apply Z.log2_lt_pow2; lia). lia.
Qed.

Lemma requested_trap_range (d0 : Z) : 0 ≤ requested_trap d0 < 2 ^ 16.
Proof.
  unfold requested_trap.
  assert (0 ≤ Z.land d0 0xFFFF < 2 ^ 16) as Hw.
  { change 0xFFFF with (Z.ones 16). rewrite Z.land_ones by lia.
    apply Z.mod_pos_bound. lia. }
  destruct (_ && _); [|done]. apply lor_bound; lia.
Qed.

(** The first word of a stub is an A-line opcode when bits 12 and 14 of the
    request are clear. *)
Lemma stub_opcode_a_line (d0 : Z) :
  Z.land d0 0x5000 = 0 → is_a_line (Z.lor 0xA000 (requested_trap d0)) = true.
Proof.
  intros Hbits. unfold is_a_line. apply Z.eqb_eq.
  assert (Z.testbit d0 12 = false ∧ Z.testbit d0 14 = false) as [H12 H14].
  { assert (∀ i, Z.testbit (Z.land d0 0x5000) i = false) as Hb
      by (intros i; rewrite Hbits; apply Z.bits_0).
    pose proof (Hb 12) as Hb12. pose proof (Hb 14) as Hb14.
    rewrite Z.land_spec in Hb12, Hb14.
    change (Z.testbit 0x5000 12) with true in Hb12.
    change (Z.testbit 0x5000 14) with true in Hb14.
    by rewrite andb_true_r in Hb12, Hb14. }
  assert (Z.shiftr (requested_trap d0) 12 = Z.shiftr (Z.land d0 0xFFFF) 12) as Hsh.
  { unfold requested_trap. destruct (_ && _); [|done].
    rewrite Z.shiftr_lor. change (Z.shiftr 2048 12) with 0. apply Z.lor_0_r. }
  rewrite Z.shiftr_lor, Hsh. change (Z.shiftr 40960 12) with 10.
  apply Z.bits_inj'. intros i Hi.
  rewrite Z.lor_spec, Z.shiftr_spec, Z.land_spec by lia.
  destruct (decide (i = 0)) as [->|]; [change (0 + 12) with 12; by rewrite H12|].
  destruct (decide (i = 1)) as [->|]; [done|].
  destruct (decide (i = 2)) as [->|]; [change (2 + 12) with 14; by rewrite H14|].
  destruct (decide (i = 3)) as [->|]; [done|].
  assert (Z.testbit 65535 (i + 12) = false) as ->.
  { change 65535 with (Z.ones 16). apply Z.ones_spec_high. lia. }
  rewrite andb_false_r, orb_false_r. done.
Qed.

(** With bit 12 or bit 14 of the request set, the first word of a stub is
    not an A-line opcode: its top four bits are not 1010. *)
Lemma stub_opcode_not_a_line (d0 : Z) :
  Z.land d0 0x5000 ≠ 0 → is_a_line (Z.lor 0xA000 (requested_trap d0)) = false.
Proof.
  intros Hbits. apply not_true_is_false. intros Ha. apply Hbits.
  unfold is_a_line in Ha. apply Z.eqb_eq in Ha.
  assert (∀ i, 12 ≤ i → Z.testbit (requested_trap d0) i = Z.testbit (Z.land d0 0xFFFF) i)
    as Hhigh.
  { intros i Hi. unfold requested_trap. destruct (_ && _); [|done].
    rewrite Z.lor_spec. change 0x0800 with (2 ^ 11). rewrite Z.pow2_bits_eqb by lia.
    destruct (Z.eqb_spec 11 i); [lia|]. apply orb_false_r. }
  assert (Z.testbit d0 12 = false ∧ Z.testbit d0 14 = false) as [H12 H14].
  { pose proof (f_equal (fun z => Z.testbit z 0) Ha) as Hb0.
    pose proof (f_equal (fun z => Z.testbit z 2) Ha) as Hb2.
    cbv beta in Hb0, Hb2.
    rewrite Z.shiftr_spec, Z.lor_spec, Hhigh, Z.land_spec in Hb0, Hb2 by lia.
    change (Z.testbit 0xA000 (0 + 12)) with false in Hb0.
    change (Z.testbit 0xA000 (2 + 12)) with false in Hb2.
    change (Z.testbit 0xFFFF (0 + 12)) with true in Hb0.
    change (Z.testbit 0xFFFF (2 + 12)) with true in Hb2.
    change (Z.testbit 0xA 0) with false in Hb0.
    change (Z.testbit 0xA 2) with false in Hb2.
    rewrite andb_true_r in Hb0, Hb2. by split. }
  apply Z.bits_inj'. intros i Hi. rewrite Z.land_spec, Z.bits_0.
  destruct (decide (i = 12)) as [->|]; [by rewrite H12|].
  destruct (decide (i = 14)) as [->|]; [by rewrite H14|].
  assert (Z.testbit 0x5000 i = false) as ->; [|apply andb_false_r].
  change 0x5000 with (Z.lor (2 ^ 12) (2 ^ 14)).
  rewrite Z.lor_spec, !Z.pow2_bits_eqb by lia.
  destruct (Z.eqb_spec 12 i); [lia|]. destruct (Z.eqb_spec 14 i); [lia|]. done.
Qed.

(** The handler only ever adds entries to its map of call stubs. *)
Lemma handler_keeps_stubs (opcode : Z) (st st' : M68KEmulator * gmap Z Z) (k v : Z) :
  shim_syscall_handler opcode st = Ok st' → st.2 !! k = Some v → st'.2 !! k = Some v.
Proof.
  destruct st as [emu traps]. unfold shim_syscall_handler.
  destruct (trap_number (decode_trap opcode) =? 46).
  { do 2 (destruct (mem_at _ _ _); simpl; try done). by intros [= <-]. }
  destruct (trap_number (decode_trap opcode) =? 70); [|by intros [= <-]].
  destruct (traps !! requested_trap _) as [addr|] eqn:Hlook; [by intros [= <-]|].
  destruct (allocate _ _ _) as [[addr mem1]|]; simpl; [|done].
  destruct (mem_at _ _ _); simpl; [|done]. intros [= <-] Hk. simpl in *.
  rewrite lookup_insert_ne; [done|]. congruence.
Qed.

Lemma reaches_keeps_stubs (st st' : M68KEmulator * gmap Z Z) (k v : Z) :
  handler_reaches st st' → st.2 !! k = Some v → st'.2 !! k = Some v.
Proof.
  induction 1 as [st | emu emu' traps st _ IH | opcode st st' st'' Hstep _ IH];
    intros Hk; [done | by apply IH |].
  apply IH. by eapply handler_keeps_stubs.
Qed.

(** A request that finds its stub in the map. *)
Lemma get_trap_address_cached (opcode : Z) (emu : M68KEmulator) (traps : gmap Z Z)
    (addr : Z) :
  trap_number (decode_trap opcode) = 0x46 →
  traps !! requested_trap (regs_d (emu_regs emu) 0%nat) = Some addr →
  shim_syscall_handler opcode (emu, traps)
  = Ok ({| emu_regs := set_a (emu_regs emu) 0 addr; emu_mem := emu_mem emu |}, traps).
Proof.
  intros Htrap Hlook. unfold shim_syscall_handler. rewrite Htrap. simpl.
  by rewrite Hlook.
Qed.

Lemma allocate_Ok (mem mem1 : MemoryContext) (size addr : Z) :
  allocate pick_address mem size = Ok (addr, mem1) →
  0 ≤ addr < 2 ^ 32 ∧ allocate_at mem addr size = Ok mem1.
Proof.
  unfold allocate. destruct (pick_address mem size) as [picked|]; [|done].
  destruct (allocate_at mem (u32 picked) size) as [mem'|] eqn:Hat; [|done].
  simpl. intros [= <- <-]. split; [apply u32_range | done].
Qed.

(** A request that finds no stub and allocates one. *)
Lemma get_trap_address_fresh (opcode : Z) (emu : M68KEmulator) (traps : gmap Z Z)
    (addr : Z) (mem1 : MemoryContext) :
  let t := requested_trap (regs_d (emu_regs emu) 0%nat) in
  trap_number (decode_trap opcode) = 0x46 →
  traps !! t = None →
  allocate pick_address (emu_mem emu) 4 = Ok (addr, mem1) →
  shim_syscall_handler opcode (emu, traps)
  = Ok ({| emu_regs := set_a (emu_regs emu) 0 addr;
           emu_mem := poke (poke mem1 addr (be16_bytes (Z.lor 0xA000 t)))
                        (addr + 2) (be16_bytes 0x4E75) |},
        <[t := addr]> traps).
Proof.
  intros t Htrap Hlook Halloc. unfold shim_syscall_handler. rewrite Htrap. simpl.
  fold t. rewrite Hlook, Halloc. simpl.
  destruct (allocate_Ok _ _ _ _ Halloc) as [_ Hat].
  rewrite mem_at_Ok; [done|]. apply load_is_Some. intros x Hx.
  apply (allocate_at_range_mapped _ _ _ _ _ Hat). lia.
Qed.

Lemma get_trap_address_fails (opcode : Z) (emu : M68KEmulator) (traps : gmap Z Z)
    (e : exn) :
  trap_number (decode_trap opcode) = 0x46 →
  traps !! requested_trap (regs_d (emu_regs emu) 0%nat) = None →
  allocate pick_address (emu_mem emu) 4 = Throw e →
  shim_syscall_handler opcode (emu, traps) = Throw e.
Proof.
  intros Htrap Hlook Halloc. unfold shim_syscall_handler. rewrite Htrap. simpl.
  by rewrite Hlook, Halloc.
Qed.

(** GetTrapAddress (trap 0x46) in the handler of the shim, for any request.
    Let [t] be the trap number asked for in [D0], normalised.  If the map of
    call stubs has an address for [t], that address is returned in [A0] and
    nothing else changes.  Otherwise the handler allocates four bytes; if
    that fails the handler fails, and if it gives [addr] then the handler
    returns [addr] in [A0], records it for [t], the four bytes at [addr] are
    newly allocated and hold the big-endian words [0xA000 | t] and 0x4E75
    (RTS), the first of which is an A-line opcode whenever bits 12 and 14 of
    [D0] are clear, and every later request for [t], whatever the guest and
    the handler did in between, returns [addr] in [A0] again without
    touching memory or the map. *)
Theorem get_trap_address_stub (opcode : Z) (emu : M68KEmulator) (traps : gmap Z Z) :
  trap_number (decode_trap opcode) = 0x46 →
  let d0 := regs_d (emu_regs emu) 0%nat in
  let t := requested_trap d0 in
  match traps !! t with
  | Some addr =>
      shim_syscall_handler opcode (emu, traps)
      = Ok ({| emu_regs := set_a (emu_regs emu) 0 addr; emu_mem := emu_mem emu |}, traps)
  | None =>
      match allocate pick_address (emu_mem emu) 4 with
      | Throw e => shim_syscall_handler opcode (emu, traps) = Throw e
      | Ok (addr, _) =>
          ∃ emu',
            shim_syscall_handler opcode (emu, traps) = Ok (emu', <[t := addr]> traps)
            ∧ regs_a (emu_regs emu') 0%nat = addr
            ∧ (∀ x, addr ≤ x < addr + 4 → mapped (emu_mem emu) x = false)
            ∧ get_block_size (emu_mem emu') addr = Ok 4
            ∧ read_u16b (emu_mem emu') addr = Ok (Z.lor 0xA000 t)
            ∧ read_u16b (emu_mem emu') (addr + 2) = Ok 0x4E75
            ∧ (Z.land d0 0x5000 = 0 → is_a_line (Z.lor 0xA000 t) = true)
            ∧ (∀ opcode2 emu2 traps2,
                 handler_reaches (emu', <[t := addr]> traps) (emu2, traps2) →
                 trap_number (decode_trap opcode2) = 0x46 →
                 requested_trap (regs_d (emu_regs emu2) 0%nat) = t →
                 ∃ emu3,
                   shim_syscall_handler opcode2 (emu2, traps2) = Ok (emu3, traps2)
                   ∧ regs_a (emu_regs emu3) 0%nat = addr
                   ∧ emu_mem emu3 = emu_mem emu2)
      end
  end.
Proof.
  intros Htrap d0 t.
  destruct (traps !! t) as [addr|] eqn:Hlook.
  { by apply get_trap_address_cached. }
  destruct (allocate pick_address (emu_mem emu) 4) as [[addr mem1]|e] eqn:Halloc;
    [|by apply get_trap_address_fails].
  destruct (allocate_Ok _ _ _ _ Halloc) as [Hrange Hat].
  destruct (allocate_at_Ok _ _ _ _ Hat) as (Hnz & Htop & Hfree & Hmem1).
  pose proof (fun x => allocate_at_range_mapped _ _ _ _ x Hat) as Hmapped.
  assert (0 ≤ Z.lor 0xA000 t < 2 ^ 16) as Hop.
  { apply lor_bound; [lia | lia | apply requested_trap_range]. }
  eexists. split; [by apply get_trap_address_fresh|]. simpl.
  repeat split.
  - rewrite fn_lookup_insert. apply u32_small. lia.
  - exact Hfree.
  - unfold get_block_size. simpl. rewrite Hmem1. simpl. by rewrite Z.eqb_refl.
  - unfold read_u16b. rewrite mem_read_poke_disjoint by (simpl; lia).
    rewrite mem_read_poke_same; [|done|intros x Hx; apply Hmapped; simpl in Hx; lia].
    change (Ok (be_value (be16_bytes (Z.lor 0xA000 t)) 0) = Ok (Z.lor 0xA000 t)).
    rewrite be16_bytes_value. f_equal. apply Z.mod_small. lia.
  - unfold read_u16b.
    rewrite mem_read_poke_same;
      [done|done|intros x Hx; rewrite mapped_poke; apply Hmapped; simpl in Hx; lia].
  - apply stub_opcode_a_line.
  - intros opcode2 emu2 traps2 Hreach Htrap2 Hreq.
    pose proof (reaches_keeps_stubs _ _ t addr Hreach) as Hkept. simpl in Hkept.
    rewrite lookup_insert_eq in Hkept. specialize (Hkept eq_refl).
    eexists. split.
    + apply get_trap_address_cached; [done|]. by rewrite Hreq.
    + simpl. split; [|done]. rewrite fn_lookup_insert. apply u32_small. lia.
Qed.

End GetTrapAddress.

(** A first request for trap 0x9F, a toolbox trap. *)
Lemma get_trap_address_scenario :
  ∃ emu',
    shim_syscall_handler (Env := sample_env) 0xA146 (trap_request_emu 0x9F, ∅)
    = Ok (emu', <[0x89F := 0x40000000]> ∅)
    ∧ regs_a (emu_regs emu') 0%nat = 0x40000000
    ∧ read_u16b (emu_mem emu') 0x40000000 = Ok 0xA89F
    ∧ read_u16b (emu_mem emu') 0x40000002 = Ok 0x4E75.
Proof.
  destruct (get_trap_address_stub (Env := sample_env) 0xA146 (trap_request_emu 0x9F) ∅
              eq_refl) as (emu' & H1 & H2 & _ & _ & H3 & H4 & _).
  exists emu'. split; [exact H1|]. split; [exact H2|]. split; [exact H3 | exact H4].
Defined.

(** C6.  The stub that GetTrapAddress builds is to be an A-trap opcode
    followed by RTS, and the line that stores its first word says so.  The
    word stored is [0xA000 | trap_number] with the request unmasked: asked
    for 0x1000, on an empty map of call stubs, the handler returns normally
    with A0 pointing to a stub whose first word is 0xB800, which is not an
    A-line opcode, followed by 0x4E75; a guest that calls the stub does not
    reach the trap handler. *)
Theorem get_trap_address_not_a_line :
  ∃ emu' traps',
    shim_syscall_handler (Env := sample_env) 0xA146 (trap_request_emu 0x1000, ∅)
    = Ok (emu', traps')
    ∧ traps' = <[requested_trap 0x1000 := regs_a (emu_regs emu') 0%nat]> ∅
    ∧ requested_trap 0x1000 = 0x1800
    ∧ read_u16b (emu_mem emu') (regs_a (emu_regs emu') 0%nat) = Ok 0xB800
    ∧ read_u16b (emu_mem emu') (regs_a (emu_regs emu') 0%nat + 2) = Ok 0x4E75
    ∧ is_a_line 0xB800 = false.
Proof.
  eexists _, _. split; [vm_compute; reflexivity|].
  split; [reflexivity|]. split; [reflexivity|].
  split; [vm_compute; reflexivity|]. split; vm_compute; reflexivity.
Qed.

(** *** Attempts that fail *)

Section Decompress.
Context `{Env : Environment}.

Lemma fails_inv {A} (r : result A * State) : fails r → ∃ e s, r = (Throw e, s).
Proof. destruct r as [[a|e] s]; [done | eauto]. Qed.

(** *** Collecting the candidates *)

Lemma get_system_decompressor_res (use_ncmp : bool) (id : Z) (s s' : State)
    (r : result Resource) :
  get_system_decompressor use_ncmp id s = (r, s') → st_res s' = st_res s.
Proof.
  unfold get_system_decompressor, mbind, M_bind, get_id_to_res. simpl.
  destruct (st_id_to_res s !! _); [by intros [= _ <-]|].
  destruct (load_file _); [|by intros [= _ <-]].
  simpl. by intros [= _ <-].
Qed.

Lemma try_system_decompressor_Ok (use_ncmp : bool) (id : Z) (s : State) :
  ∃ r s', try_system_decompressor use_ncmp id s = (Ok r, s') ∧ st_res s' = st_res s.
Proof.
  unfold try_system_decompressor, try_catch, mbind, M_bind.
  destruct (get_system_decompressor use_ncmp id s) as [[r|e] s'] eqn:Hget.
  - simpl. apply get_system_decompressor_res in Hget. eauto.
  - pose proof Hget as Hres%get_system_decompressor_res.
    assert (∃ name, e = cannot_open_file name) as [name ->].
    { revert Hget. unfold get_system_decompressor, mbind, M_bind, get_id_to_res.
      simpl. destruct (st_id_to_res s !! _); [done|].
      destruct (load_file _); [done|]. intros [= <- _]. eauto. }
    simpl. eauto.
Qed.

Lemma collect_decompressors_Ok (decompress_flags : Z) (context_rf : option ResourceFile)
    (id : Z) (s : State) :
  ∃ cs s',
    collect_decompressors decompress_flags context_rf id s = (Ok cs, s')
    ∧ st_res s' = st_res s.
Proof.
  unfold collect_decompressors.
  set (l := match context_rf with Some _ => _ | None => _ end).
  set (l' := if negb (flag_set decompress_flags SKIP_INTERNAL) then _ else l).
  clearbody l'. clear l.
  unfold mbind, M_bind, mret, M_ret.
  destruct (negb (flag_set decompress_flags SKIP_SYSTEM_DCMP)).
  - destruct (try_system_decompressor_Ok false id s) as (r1 & s1 & -> & Hs1).
    destruct (negb (flag_set decompress_flags SKIP_SYSTEM_NCMP)).
    + destruct (try_system_decompressor_Ok true id s1) as (r2 & s2 & -> & Hs2).
      eexists _, _. split; [done | congruence].
    + eauto.
  - destruct (negb (flag_set decompress_flags SKIP_SYSTEM_NCMP)).
    + destruct (try_system_decompressor_Ok true id s) as (r2 & s2 & -> & Hs2).
      eauto.
    + eauto.
Qed.

(** *** One attempt *)

(** An attempt that throws has written nothing. *)
Lemma attempt_Throw (decompress_flags id extra : Z) (c : option Resource)
    (s s' : State) (e : exn) :
  attempt decompress_flags id extra c s = (Throw e, s') → s' = s.
Proof.
  destruct c as [r|]; simpl.
  - unfold decompress_emulated, mbind, M_bind, get_res, liftR.
    destruct (run_decompressor _ _ _ _ _); [|by intros [= _ <-]]. done.
  - unfold decompress_internal, mbind, M_bind, get_res, liftR, throwM.
    destruct (internal_decompressor id) as [decompress|]; [|by intros [= _ <-]].
    destruct (decompress _ _) as [data|]; [|by intros [= _ <-]].
    destruct (negb _); [by intros [= _ <-] | done].
Qed.

Lemma attempt_fails (decompress_flags id extra : Z) (c : option Resource) (s : State) :
  fails (attempt decompress_flags id extra c s) →
  ∃ e, attempt decompress_flags id extra c s = (Throw e, s).
Proof.
  intros (e & s' & Hatt)%fails_inv. exists e.
  by rewrite Hatt, (attempt_Throw _ _ _ _ _ _ _ Hatt).
Qed.

(** *** The candidates in turn *)

Lemma try_decompressors_all_fail (decompress_flags id extra : Z)
    (cs : list (option Resource)) (s : State) :
  (∀ c, c ∈ cs → fails (attempt decompress_flags id extra c s)) →
  try_decompressors decompress_flags id extra cs s
  = (Throw (runtime_error "no decompressor succeeded"), s).
Proof.
  induction cs as [|c cs IH]; intros Hall; simpl; [done|].
  destruct (attempt_fails decompress_flags id extra c s) as [e Hc]; [apply Hall; by left|].
  unfold try_catch. rewrite Hc. apply IH. intros c' Hc'. apply Hall. by right.
Qed.

Lemma try_decompressors_first_success (decompress_flags id extra : Z)
    (l1 l2 : list (option Resource)) (c : option Resource) (s s' : State) :
  (∀ c', c' ∈ l1 → fails (attempt decompress_flags id extra c' s)) →
  attempt decompress_flags id extra c s = (Ok tt, s') →
  try_decompressors decompress_flags id extra (l1 ++ c :: l2) s = (Ok tt, s').
Proof.
  induction l1 as [|c1 l1 IH]; intros Hfail Hc; simpl.
  - unfold try_catch. by rewrite Hc.
  - destruct (attempt_fails decompress_flags id extra c1 s) as [e Hc1]; [apply Hfail; by left|].
    unfold try_catch. rewrite Hc1. apply IH; [|done].
    intros c' Hc'. apply Hfail. by right.
Qed.

Lemma try_decompressors_Throw (decompress_flags id extra : Z)
    (cs : list (option Resource)) (s s' : State) (e : exn) :
  try_decompressors decompress_flags id extra cs s = (Throw e, s') →
  (∀ c, c ∈ cs → fails (attempt decompress_flags id extra c s))
  ∧ e = runtime_error "no decompressor succeeded" ∧ s' = s.
Proof.
  induction cs as [|c cs IH]; simpl.
  - intros [= <- <-]. split; [|done]. intros c Hc. by apply elem_of_nil in Hc.
  - unfold try_catch.
    destruct (attempt decompress_flags id extra c s) as [[[]|e1] s1] eqn:Hc; [done|].
    pose proof (attempt_Throw _ _ _ _ _ _ _ Hc) as ->.
    intros (Hall & -> & ->)%IH. split; [|done].
    intros c' [->|Hc']%elem_of_cons; [by rewrite Hc | by apply Hall].
Qed.

Lemma try_decompressors_Ok (decompress_flags id extra : Z)
    (cs : list (option Resource)) (s s' : State) :
  try_decompressors decompress_flags id extra cs s = (Ok tt, s') →
  ∃ l1 c l2,
    cs = l1 ++ c :: l2
    ∧ (∀ c', c' ∈ l1 → fails (attempt decompress_flags id extra c' s))
    ∧ attempt decompress_flags id extra c s = (Ok tt, s').
Proof.
  induction cs as [|c cs IH]; simpl; [done|].
  unfold try_catch.
  destruct (attempt decompress_flags id extra c s) as [[[]|e1] s1] eqn:Hc.
  - intros [= <-]. exists [], c, cs. split; [done|]. split; [|done].
    intros c' Hc'. by apply elem_of_nil in Hc'.
  - pose proof (attempt_Throw _ _ _ _ _ _ _ Hc) as ->.
    intros (l1 & c2 & l2 & -> & Hfail & Hok)%IH.
    exists (c :: l1), c2, l2. split; [done|]. split; [|done].
    intros c' [->|Hc']%elem_of_cons; [by rewrite Hc | by apply Hfail].
Qed.

End Decompress.

(** *** [decompress_resource] as a whole *)

Section DecompressResource.
Context `{Env : Environment}.

(** With a valid header, [decompress_resource] is the collection of the
    candidates followed by the attempts. *)
Lemma decompress_resource_valid (decompress_flags : Z) (context_rf : option ResourceFile)
    (s s1 : State) (id extra : Z) (cs : list (option Resource)) :
  decompression_wanted decompress_flags (st_res s) →
  valid_compressed_header (res_data (st_res s)) id extra →
  collect_decompressors decompress_flags context_rf id s = (Ok cs, s1) →
  decompress_resource decompress_flags context_rf s
  = if bool_decide (cs = [])
    then (Throw (runtime_error "no decompressors are available for this resource"), s1)
    else try_decompressors decompress_flags id extra cs s1.
Proof.
  intros (Hcomp & Hretry & Hdis) (Hlen & Hmagic & Hattr & Hids) Hcollect.
  unfold decompress_resource, mbind, M_bind, get_res, liftR. simpl.
  rewrite Hcomp, Hdis. simpl.
  assert (negb (flag_set decompress_flags RETRY)
          && flag_set (res_flags (st_res s)) FLAG_DECOMPRESSION_FAILED = false) as ->.
  { destruct Hretry as [-> | ->]; [done | apply andb_false_r]. }
  destruct (Z.ltb_spec (Z.of_nat (length (res_data (st_res s))))
              sizeof_CompressedResourceHeader); [lia|].
  rewrite Hmagic, Hattr, Hids. simpl. rewrite Hcollect.
  by destruct (bool_decide (cs = [])).
Qed.

(** C10.  Whenever [decompress_resource] ends with an exception, whichever
    it is (resource too small, compression attribute clear, header version
    other than 8 or 9, no candidate available, every candidate failing),
    the caller's resource is as it was before the call: type, id, flags and
    data. *)
Theorem decompress_resource_throw_keeps_resource (decompress_flags : Z)
    (context_rf : option ResourceFile) (s s' : State) (e : exn) :
  decompress_resource decompress_flags context_rf s = (Throw e, s') →
  st_res s' = st_res s.
Proof.
  unfold decompress_resource, mbind, M_bind, get_res, liftR, throwM, mret, M_ret.
  simpl.
  destruct (negb (flag_set (res_flags (st_res s)) FLAG_COMPRESSED)); [done|].
  destruct (_ && _); [done|].
  destruct (flag_set decompress_flags DISABLED); [done|].
  destruct (_ <? _); [by intros [= _ <-]|].
  destruct (negb (header_magic _ =? _)); [done|].
  destruct (negb (flag_set (attributes _) 1)); [by intros [= _ <-]|].
  destruct (header_ids _) as [[id extra]|]; [|by intros [= _ <-]].
  destruct (collect_decompressors_Ok decompress_flags context_rf id s)
    as (cs & s1 & -> & Hres).
  destruct (bool_decide (cs = [])); [by intros [= _ <-]|].
  by intros (_ & _ & ->)%try_decompressors_Throw.
Qed.

(** C1, as amended.  With a valid compressed header the candidates are
    collected and tried in order from the state [s1] in which collecting
    them leaves things (the resource itself untouched).  An attempt that
    fails changes nothing, and the next candidate is tried: the call returns
    with the outcome of the first attempt that succeeds.  The call raises an
    exception exactly when every attempt fails; the exception is then not
    that of the last attempt but always [runtime_error("no decompressor
    succeeded")], or [runtime_error("no decompressors are available for this
    resource")] when there was no candidate at all. *)
Theorem decompress_resource_attempts (decompress_flags : Z)
    (context_rf : option ResourceFile) (s : State) (id extra : Z) :
  decompression_wanted decompress_flags (st_res s) →
  valid_compressed_header (res_data (st_res s)) id extra →
  ∃ cs s1,
    collect_decompressors decompress_flags context_rf id s = (Ok cs, s1)
    ∧ st_res s1 = st_res s
    ∧ (∀ c e s', attempt decompress_flags id extra c s1 = (Throw e, s') → s' = s1)
    ∧ (∀ l1 c l2 s',
         cs = l1 ++ c :: l2 →
         (∀ c', c' ∈ l1 → fails (attempt decompress_flags id extra c' s1)) →
         attempt decompress_flags id extra c s1 = (Ok tt, s') →
         decompress_resource decompress_flags context_rf s = (Ok tt, s'))
    ∧ (fails (decompress_resource decompress_flags context_rf s)
       ↔ ∀ c, c ∈ cs → fails (attempt decompress_flags id extra c s1))
    ∧ (∀ e s',
         decompress_resource decompress_flags context_rf s = (Throw e, s') →
         s' = s1
         ∧ e = runtime_error
                 (if bool_decide (cs = [])
                  then "no decompressors are available for this resource"
                  else "no decompressor succeeded")).
Proof.
  intros Hwanted Hvalid.
  destruct (collect_decompressors_Ok decompress_flags context_rf id s)
    as (cs & s1 & Hcollect & Hres).
  pose proof (decompress_resource_valid _ _ _ _ _ _ _ Hwanted Hvalid Hcollect) as Hrun.
  exists cs, s1. split; [done|]. split; [done|]. split; [|split; [|split]].
  - intros c e s'. apply attempt_Throw.
  - intros l1 c l2 s' -> Hfail Hok. rewrite Hrun.
    rewrite bool_decide_eq_false_2 by (by destruct l1).
    by apply try_decompressors_first_success.
  - rewrite Hrun. case_bool_decide as Hnil.
    + subst cs. split; [|done]. intros _ c Hc. by apply elem_of_nil in Hc.
    + split.
      * intros (e & s' & Htry)%fails_inv.
        by apply try_decompressors_Throw in Htry as (Hall & _).
      * intros Hall. by rewrite try_decompressors_all_fail.
  - intros e s'. rewrite Hrun. case_bool_decide as Hnil.
    + by intros [= <- <-].
    + by intros (_ & -> & ->)%try_decompressors_Throw.
Qed.

End DecompressResource.

(** *** A resource marked compressed that does not start with the magic number *)

Lemma byte_val_inj (b1 b2 : byte) : byte_val b1 = byte_val b2 → b1 = b2.
Proof.
  unfold byte_val. intros Heq%(inj Z.of_N).
  pose proof (Byte.of_to_N b1) as H1. rewrite Heq, Byte.of_to_N in H1. congruence.
Qed.

Lemma header_magic_bytes (data : list byte) :
  4 ≤ Z.of_nat (length data) →
  header_magic data = 0xA89F6572 ↔ take 4 data = [xa8; x9f; x65; x72].
Proof.
  destruct data as [|b0 [|b1 [|b2 [|b3 rest]]]]; simpl length; try lia. intros _.
  unfold header_magic, be_at. simpl.
  pose proof (byte_val_range b0). pose proof (byte_val_range b1).
  pose proof (byte_val_range b2). pose proof (byte_val_range b3).
  split.
  - intros Hval.
    assert (byte_val b0 = byte_val xa8) as ->%byte_val_inj
      by (change (byte_val xa8) with 0xA8; lia).
    assert (byte_val b1 = byte_val x9f) as ->%byte_val_inj
      by (change (byte_val x9f) with 0x9F; change (byte_val xa8) with 0xA8 in Hval; lia).
    assert (byte_val b2 = byte_val x65) as ->%byte_val_inj
      by (change (byte_val x65) with 0x65; change (byte_val xa8) with 0xA8 in Hval;
          change (byte_val x9f) with 0x9F in Hval; lia).
    assert (byte_val b3 = byte_val x72) as ->%byte_val_inj
      by (change (byte_val x72) with 0x72; change (byte_val xa8) with 0xA8 in Hval;
          change (byte_val x9f) with 0x9F in Hval;
          change (byte_val x65) with 0x65 in Hval; lia).
    done.
  - by intros [= -> -> -> ->].
Qed.

Section BadMagic.
Context `{Env : Environment}.

Lemma clear_flag_cleared (flags mask : Z) :
  flag_set (Z.land flags (Z.lnot mask)) mask = false.
Proof.
  unfold flag_set. apply negb_false_iff, Z.eqb_eq.
  rewrite <- Z.land_assoc, (Z.land_comm (Z.lnot mask)), Z.land_lnot_diag.
  apply Z.land_0_r.
Qed.

(** The state in which the caller's resource has lost its compressed flag
    and nothing else has changed. *)
Lemma modify_flags_run (f : Z → Z) (s : State) :
  modify_flags f s
  = (Ok tt,
     {| st_res := {| res_type := res_type (st_res s); res_id := res_id (st_res s);
                     res_flags := f (res_flags (st_res s));
                     res_data := res_data (st_res s) |};
        st_id_to_res := st_id_to_res s |}).
Proof. done. Qed.

(** C2, as amended.  For a resource marked compressed whose data has at
    least 16 bytes, the first four of which are not A8 9F 65 72,
    [decompress_resource] returns without an exception and leaves the data
    (and the type, the id and the cache of system decompressors) as they
    were.  It clears the compressed flag, and changes no other flag, unless
    decompression is disabled in [decompress_flags] or the resource is
    flagged as having failed decompression and no retry is asked for; in
    these two cases it returns at once and the flags stay as they were,
    compressed flag included. *)
Theorem decompress_resource_without_magic (decompress_flags : Z)
    (context_rf : option ResourceFile) (s : State) :
  flag_set (res_flags (st_res s)) FLAG_COMPRESSED = true →
  16 ≤ Z.of_nat (length (res_data (st_res s))) →
  take 4 (res_data (st_res s)) ≠ [xa8; x9f; x65; x72] →
  ∃ s',
    decompress_resource decompress_flags context_rf s = (Ok tt, s')
    ∧ res_data (st_res s') = res_data (st_res s)
    ∧ res_type (st_res s') = res_type (st_res s)
    ∧ res_id (st_res s') = res_id (st_res s)
    ∧ st_id_to_res s' = st_id_to_res s
    ∧ if flag_set decompress_flags DISABLED
         || (negb (flag_set decompress_flags RETRY)
             && flag_set (res_flags (st_res s)) FLAG_DECOMPRESSION_FAILED)
      then res_flags (st_res s') = res_flags (st_res s)
      else res_flags (st_res s') = Z.land (res_flags (st_res s)) (Z.lnot FLAG_COMPRESSED)
           ∧ flag_set (res_flags (st_res s')) FLAG_COMPRESSED = false.
Proof.
  intros Hcomp Hlen Hmagic.
  unfold decompress_resource, mbind, M_bind, get_res, mret, M_ret. simpl.
  rewrite Hcomp. simpl.
  destruct (negb (flag_set decompress_flags RETRY)
            && flag_set (res_flags (st_res s)) FLAG_DECOMPRESSION_FAILED).
  { exists s. by rewrite orb_true_r. }
  destruct (flag_set decompress_flags DISABLED).
  { by exists s. }
  destruct (Z.ltb_spec (Z.of_nat (length (res_data (st_res s))))
              sizeof_CompressedResourceHeader) as [Hshort|_].
  { unfold sizeof_CompressedResourceHeader in Hshort. lia. }
  destruct (Z.eqb_spec (header_magic (res_data (st_res s))) 0xA89F6572) as [Heq|_].
  { apply header_magic_bytes in Heq; [done | lia]. }
  simpl. rewrite modify_flags_run. eexists. split; [done|]. simpl.
  repeat split. apply clear_flag_cleared.
Qed.

End BadMagic.

(** Sixteen bytes that do not start with the magic number, in a resource
    marked compressed: the compressed flag is cleared. *)
Lemma decompress_resource_without_magic_scenario :
  ∃ s',
    decompress_resource (Env := sample_env) 0 None
      (sample_state (sample_resource 0x0001 (replicate 16 x00))) = (Ok tt, s')
    ∧ res_data (st_res s') = replicate 16 x00
    ∧ res_flags (st_res s') = 0.
Proof.
  destruct (decompress_resource_without_magic (Env := sample_env) 0 None
              (sample_state (sample_resource 0x0001 (replicate 16 x00))))
    as (s' & Hrun & Hdata & _ & _ & _ & Hflags).
  - reflexivity.
  - vm_compute. discriminate.
  - vm_compute. discriminate.
  - exists s'. split; [exact Hrun|]. split; [exact Hdata|].
    exact (proj1 Hflags).
Defined.

(** C2 as the spec states it fails when decompression is disabled: the
    same resource, marked compressed, 16 bytes long and without the magic
    number, comes back still marked compressed. *)
Lemma decompress_resource_disabled_keeps_flag :
  let s := sample_state (sample_resource 0x0001 (replicate 16 x00)) in
  flag_set (res_flags (st_res s)) (FLAG_COMPRESSED (Environment := sample_env)) = true
  ∧ 16 ≤ Z.of_nat (length (res_data (st_res s)))
  ∧ take 4 (res_data (st_res s)) ≠ [xa8; x9f; x65; x72]
  ∧ ∃ s',
      decompress_resource (Env := sample_env) (DISABLED (Environment := sample_env))
        None s = (Ok tt, s')
      ∧ flag_set (res_flags (st_res s')) (FLAG_COMPRESSED (Environment := sample_env))
        = true.
Proof.
  split; [vm_compute; reflexivity|]. split; [vm_compute; discriminate|].
  split; [vm_compute; discriminate|].
  eexists. split; vm_compute; reflexivity.
Qed.

(** *** Loading a dcmp and entering it *)

Section Entry.
Context `{Env : Environment}.

Lemma result_bind_Ok {A B} (r : result A) (f : A → result B) (b : B) :
  r ≫= f = Ok b → ∃ a, r = Ok a ∧ f a = Ok b.
Proof. destruct r as [a|e]; [eauto | done]. Qed.

Lemma mem_write_Ok (mem mem' : MemoryContext) (addr : Z) (bs : list byte) :
  mem_write mem addr bs = Ok mem' → mem' = poke mem addr bs.
Proof.
  unfold mem_write. destruct (mem_at _ _ _); simpl; [|done]. by intros [= <-].
Qed.

Lemma be_at_range (data : list byte) (off n : nat) :
  0 ≤ be_at data off n < 256 ^ Z.of_nat n.
Proof.
  unfold be_at.
  pose proof (be_value_bound (take n (drop off data)) 0 ltac:(lia)) as Hb.
  assert (length (take n (drop off data)) ≤ n)%nat by (rewrite length_take; lia).
  assert (256 ^ Z.of_nat (length (take n (drop off data))) ≤ 256 ^ Z.of_nat n)
    by (apply Z.pow_le_mono_r; lia).
  lia.
Qed.

Lemma dcmp_entry_offset_range (dcmp_data : list byte) (entry_offset : Z) :
  dcmp_entry_offset dcmp_data = Ok entry_offset → 0 ≤ entry_offset < 2 ^ 16.
Proof.
  unfold dcmp_entry_offset. destruct (_ <? _); [done|].
  destruct (bool_decide _); intros [= <-]; [lia|].
  apply (be_at_range dcmp_data 2 2).
Qed.

(** What loading a resource of type dcmp yields. *)
Lemma load_decompressor_dcmp (dcmp_res : Resource) (ld : LoadedDecompressor) :
  res_type dcmp_res = RESOURCE_TYPE_dcmp →
  load_decompressor dcmp_res = Ok ld →
  ∃ entry_offset,
    dcmp_entry_offset (res_data dcmp_res) = Ok entry_offset
    ∧ entry_pc ld = code_addr + entry_offset
    ∧ is_ppc ld = false
    ∧ mem_read (loaded_mem ld) code_addr (Z.of_nat (length (res_data dcmp_res)))
      = Ok (res_data dcmp_res).
Proof.
  intros Htype. unfold load_decompressor. rewrite Htype, Z.eqb_refl.
  destruct (dcmp_entry_offset (res_data dcmp_res)) as [off|] eqn:Hoff; simpl; [|done].
  destruct (allocate_at _ _ _) as [mem1|] eqn:Hat; simpl; [|done].
  destruct (mem_write _ _ _) as [mem2|] eqn:Hwrite; simpl; [|done].
  intros [= <-]. simpl. exists off. split; [done|].
  apply dcmp_entry_offset_range in Hoff.
  split; [apply u32_small; unfold code_addr; lia|]. split; [done|].
  apply mem_write_Ok in Hwrite as ->. apply mem_read_poke_same; [lia|].
  intros x Hx. by apply (allocate_at_range_mapped _ _ _ _ _ Hat).
Qed.

(** Loading succeeds for every dcmp that has its ten bytes and fits between
    the code base and the end of the address space. *)
Lemma load_decompressor_dcmp_Ok (dcmp_res : Resource) :
  res_type dcmp_res = RESOURCE_TYPE_dcmp →
  10 ≤ Z.of_nat (length (res_data dcmp_res)) ≤ 0x10000000 →
  is_ok (load_decompressor dcmp_res) = true.
Proof.
  intros Htype Hlen. unfold load_decompressor. rewrite Htype, Z.eqb_refl.
  unfold dcmp_entry_offset.
  destruct (Z.ltb_spec (Z.of_nat (length (res_data dcmp_res))) 10); [lia|].
  assert (∃ off, (if bool_decide (take 4 (drop 4 (res_data dcmp_res)) = dcmp_tag)
                  then Ok 0 else Ok (be_at (res_data dcmp_res) 2 2)) = Ok off)
    as [off ->] by (destruct (bool_decide _); eauto).
  cbn [mbind result_bind].
  destruct (allocate_at MemoryContext_new code_addr
              (Z.of_nat (length (res_data dcmp_res)))) as [mem1|] eqn:Hat.
  - cbn [mbind result_bind]. unfold mem_write. rewrite mem_at_Ok; [done|].
    apply load_is_Some. intros x Hx.
    apply (allocate_at_range_mapped _ _ _ _ _ Hat). lia.
  - revert Hat. unfold allocate_at.
    destruct (Z.eqb_spec code_addr 0); [done|].
    destruct (Z.ltb_spec (2 ^ 32) (code_addr + Z.of_nat (length (res_data dcmp_res))))
      as [Hbig|_]; [unfold code_addr in Hbig; lia | done].
Qed.

(** The stack region is mapped once the regions are allocated. *)
Lemma allocate_regions_stack (mem0 mem : MemoryContext) (data : list byte)
    (header : CompressedResourceHeader) (extra x : Z) :
  allocate_regions mem0 data header extra = Ok mem →
  stack_addr ≤ x < stack_addr + stack_region_size →
  mapped mem x = true.
Proof.
  unfold allocate_regions.
  intros (mem1 & H1 & (mem2 & H2 & (mem3 & H3 & (mem4 & H4 & Hw)%result_bind_Ok)
    %result_bind_Ok)%result_bind_Ok)%result_bind_Ok Hx.
  apply mem_write_Ok in Hw as ->. rewrite mapped_poke.
  rewrite (allocate_at_mapped _ _ _ _ _ H4), (allocate_at_mapped _ _ _ _ _ H3),
    (allocate_at_mapped _ _ _ _ _ H2), (allocate_at_range_mapped _ _ _ _ _ H1 Hx).
  by rewrite !orb_true_r.
Qed.

Lemma m68k_setup_Ok (ld : LoadedDecompressor) (mem : MemoryContext) (data : list byte)
    (header : CompressedResourceHeader) :
  (∀ x, stack_addr ≤ x < stack_addr + stack_region_size → mapped mem x = true) →
  m68k_setup ld mem data header
  = Ok {| emu_regs := set_pc (set_a M68KRegisters_new 7 m68k_frame_addr) (entry_pc ld);
          emu_mem := write_m68k_frame mem data header |}.
Proof.
  intros Hstack. unfold m68k_setup. rewrite mem_at_Ok; [done|].
  apply load_is_Some. intros x Hx. apply Hstack.
  unfold m68k_frame_addr, stack_addr, stack_region_size,
    sizeof_M68KDecompressorInputHeader in *. lia.
Qed.

Lemma length_be32_bytes (v : Z) : length (be32_bytes v) = 4%nat.
Proof. done. Qed.

Lemma length_be16_bytes (v : Z) : length (be16_bytes v) = 2%nat.
Proof. done. Qed.

Ltac frame_ranges :=
  rewrite ?length_be32_bytes, ?length_be16_bytes in *;
  unfold offsetof_reset_opcode, m68k_frame_addr, stack_addr, stack_region_size,
    sizeof_M68KDecompressorInputHeader in *;
  lia.

Lemma frame_return_addr (mem : MemoryContext) (data : list byte)
    (header : CompressedResourceHeader) :
  (∀ x, stack_addr ≤ x < stack_addr + stack_region_size → mapped mem x = true) →
  read_u32b (write_m68k_frame mem data header) m68k_frame_addr
  = Ok (m68k_frame_addr + offsetof_reset_opcode).
Proof.
  intros Hstack. unfold read_u32b, write_m68k_frame.
  destruct (header_version header =? 9);
    rewrite !mem_read_poke_disjoint by frame_ranges;
    (rewrite mem_read_poke_same;
       [done | done | intros x Hx; apply Hstack; frame_ranges]).
Qed.

Lemma frame_reset_opcode (mem : MemoryContext) (data : list byte)
    (header : CompressedResourceHeader) :
  (∀ x, stack_addr ≤ x < stack_addr + stack_region_size → mapped mem x = true) →
  read_u16b (write_m68k_frame mem data header) (m68k_frame_addr + offsetof_reset_opcode)
  = Ok 0x4E70.
Proof.
  intros Hstack. unfold read_u16b, write_m68k_frame.
  destruct (header_version header =? 9);
    rewrite !mem_read_poke_disjoint by frame_ranges;
    (rewrite mem_read_poke_same;
       [done | done | intros x Hx; rewrite !mapped_poke; apply Hstack; frame_ranges]).
Qed.

(** [be_at] on two bytes that are there. *)
Lemma be_at_2 (data : list byte) (off : nat) (hi lo : byte) :
  data !! off = Some hi → data !! S off = Some lo →
  be_at data off 2 = 256 * byte_val hi + byte_val lo.
Proof.
  intros Hhi Hlo. unfold be_at.
  rewrite (drop_S _ _ _ Hhi), (drop_S _ _ _ Hlo). simpl. lia.
Qed.

Lemma take_drop_4 (data : list byte) (off : nat) (b0 b1 b2 b3 : byte) :
  data !! off = Some b0 → data !! S off = Some b1 →
  data !! S (S off) = Some b2 → data !! S (S (S off)) = Some b3 →
  take 4 (drop off data) = [b0; b1; b2; b3].
Proof.
  intros H0 H1 H2 H3.
  by rewrite (drop_S _ _ _ H0), (drop_S _ _ _ H1), (drop_S _ _ _ H2),
    (drop_S _ _ _ H3).
Qed.

(** C3.  For a resource of type dcmp with at least 10 bytes, the entry
    offset is 0 when bytes 4 to 7 are the ASCII text [dcmp], and otherwise
    the big-endian 16-bit value of bytes 2 and 3; the resource is loaded at
    the code base 0xF0000000 (which succeeds as long as it fits below the
    end of the address space), the entry point is the code base plus the
    entry offset, and that is where the program counter of the 68K
    emulator is set. *)
Theorem dcmp_entry_point (dcmp_res : Resource) :
  res_type dcmp_res = RESOURCE_TYPE_dcmp →
  10 ≤ Z.of_nat (length (res_data dcmp_res)) →
  ∃ b2 b3 b4 b5 b6 b7 entry_offset,
    res_data dcmp_res !! 2%nat = Some b2 ∧ res_data dcmp_res !! 3%nat = Some b3
    ∧ res_data dcmp_res !! 4%nat = Some b4 ∧ res_data dcmp_res !! 5%nat = Some b5
    ∧ res_data dcmp_res !! 6%nat = Some b6 ∧ res_data dcmp_res !! 7%nat = Some b7
    ∧ entry_offset
      = (if bool_decide ([b4; b5; b6; b7] = [x64; x63; x6d; x70])
         then 0 else 256 * byte_val b2 + byte_val b3)
    ∧ dcmp_entry_offset (res_data dcmp_res) = Ok entry_offset
    ∧ (Z.of_nat (length (res_data dcmp_res)) ≤ 0x10000000 →
       is_ok (load_decompressor dcmp_res) = true)
    ∧ (∀ ld, load_decompressor dcmp_res = Ok ld →
         entry_pc ld = code_addr + entry_offset
         ∧ mem_read (loaded_mem ld) code_addr (Z.of_nat (length (res_data dcmp_res)))
           = Ok (res_data dcmp_res)
         ∧ ∀ mem data header emu,
             m68k_setup ld mem data header = Ok emu →
             regs_pc (emu_regs emu) = code_addr + entry_offset).
Proof.
  intros Htype Hlen.
  destruct (lookup_lt_is_Some_2 (res_data dcmp_res) 2) as [b2 H2]; [lia|].
  destruct (lookup_lt_is_Some_2 (res_data dcmp_res) 3) as [b3 H3]; [lia|].
  destruct (lookup_lt_is_Some_2 (res_data dcmp_res) 4) as [b4 H4]; [lia|].
  destruct (lookup_lt_is_Some_2 (res_data dcmp_res) 5) as [b5 H5]; [lia|].
  destruct (lookup_lt_is_Some_2 (res_data dcmp_res) 6) as [b6 H6]; [lia|].
  destruct (lookup_lt_is_Some_2 (res_data dcmp_res) 7) as [b7 H7]; [lia|].
  exists b2, b3, b4, b5, b6, b7. eexists. do 6 (split; [done|]). split; [done|].
  assert (dcmp_entry_offset (res_data dcmp_res)
          = Ok (if bool_decide ([b4; b5; b6; b7] = [x64; x63; x6d; x70])
                then 0 else 256 * byte_val b2 + byte_val b3)) as Hoff.
  { unfold dcmp_entry_offset.
    destruct (Z.ltb_spec (Z.of_nat (length (res_data dcmp_res))) 10); [lia|].
    rewrite (take_drop_4 _ 4 b4 b5 b6 b7), (be_at_2 _ 2 b2 b3) by done.
    unfold dcmp_tag. by destruct (bool_decide _). }
  split; [done|]. split.
  { intros Hfit. by apply load_decompressor_dcmp_Ok. }
  intros ld Hld.
  destruct (load_decompressor_dcmp _ _ Htype Hld) as (off & Hoff' & Hpc & _ & Hcode).
  rewrite Hoff in Hoff'. injection Hoff' as <-.
  split; [done|]. split; [done|].
  intros mem data header emu. unfold m68k_setup.
  destruct (mem_at _ _ _); simpl; [|done]. intros [= <-]. simpl.
  rewrite Hpc. apply u32_small.
  apply dcmp_entry_offset_range in Hoff. unfold code_addr. lia.
Qed.

Lemma prepare_Ok (dcmp_res : Resource) (data : list byte)
    (header : CompressedResourceHeader) (output_extra_bytes : Z)
    (ld : LoadedDecompressor) (mem : MemoryContext) :
  prepare dcmp_res data header output_extra_bytes = Ok (ld, mem) →
  load_decompressor dcmp_res = Ok ld
  ∧ allocate_regions (loaded_mem ld) data header output_extra_bytes = Ok mem.
Proof.
  unfold prepare.
  intros (ld' & Hld & (mem' & Hregions & [= <- <-])%result_bind_Ok)%result_bind_Ok.
  by split.
Qed.

(** C8.  For a decompressor of type dcmp, once the decompressor is loaded
    and the regions are allocated, setting up the 68K emulator succeeds and
    the emulator is started on the result, in which: A7 is the base of the
    activation frame, which ends where the stack region ends; PC is the
    code base plus the entry offset; the [return_addr] field, at the base of
    the frame, holds the address of the frame's [reset_opcode] field; and
    the [reset_opcode] field holds 0x4E70. *)
Theorem m68k_entry_state (decompress_flags : Z) (dcmp_res : Resource)
    (data : list byte) (header : CompressedResourceHeader) (output_extra_bytes : Z)
    (ld : LoadedDecompressor) (mem : MemoryContext) :
  res_type dcmp_res = RESOURCE_TYPE_dcmp →
  prepare dcmp_res data header output_extra_bytes = Ok (ld, mem) →
  ∃ emu entry_offset,
    dcmp_entry_offset (res_data dcmp_res) = Ok entry_offset
    ∧ m68k_setup ld mem data header = Ok emu
    ∧ run_decompressor decompress_flags dcmp_res data header output_extra_bytes
      = (mem' ← run_m68k emu (debugger_mode decompress_flags);
         mem_read mem' output_addr (u32 (decompressed_size header)))
    ∧ regs_a (emu_regs emu) 7%nat = m68k_frame_addr
    ∧ m68k_frame_addr + sizeof_M68KDecompressorInputHeader
      = stack_addr + stack_region_size
    ∧ regs_pc (emu_regs emu) = code_addr + entry_offset
    ∧ read_u32b (emu_mem emu) m68k_frame_addr
      = Ok (m68k_frame_addr + offsetof_reset_opcode)
    ∧ read_u16b (emu_mem emu) (m68k_frame_addr + offsetof_reset_opcode) = Ok 0x4E70.
Proof.
  intros Htype Hprep.
  destruct (prepare_Ok _ _ _ _ _ _ Hprep) as [Hld Hregions].
  destruct (load_decompressor_dcmp _ _ Htype Hld) as (off & Hoff & Hpc & Hppc & _).
  pose proof (m68k_setup_Ok ld mem data header
                (fun x => allocate_regions_stack _ _ _ _ _ x Hregions)) as Hsetup.
  eexists _, off. split; [done|]. split; [exact Hsetup|]. split.
  { unfold run_decompressor. rewrite Hprep.
    cbn [mbind result_bind]. by rewrite Hppc, Hsetup. }
  cbn [emu_regs emu_mem regs_a regs_pc set_pc set_a].
  split; [apply fn_lookup_insert|]. split; [done|]. split.
  { rewrite Hpc. rewrite u32_small; [done|].
    apply dcmp_entry_offset_range in Hoff. unfold code_addr. lia. }
  pose proof (fun x => allocate_regions_stack _ _ _ _ _ x Hregions) as Hstack.
  split; [by apply frame_return_addr | by apply frame_reset_opcode].
Qed.

End Entry.


(** *** When the set-up goes through *)

Section Reachable.
Context `{Env : Environment}.

Lemma allocate_at_free (mem : MemoryContext) (addr size : Z) :
  addr ≠ 0 → addr + size ≤ 2 ^ 32 →
  existsb (overlaps addr size) (mem_regions mem) = false →
  allocate_at mem addr size
  = Ok {| mem_regions := (addr, size) :: mem_regions mem;
          mem_bytes := mem_bytes mem;
          mem_symbols := mem_symbols mem |}.
Proof.
  intros Hnz Htop Hfree. unfold allocate_at.
  destruct (Z.eqb_spec addr 0); [done|].
  destruct (Z.ltb_spec (2 ^ 32) (addr + size)); [lia|].
  by rewrite Hfree.
Qed.

Lemma overlaps_false (addr size base len : Z) :
  base + len ≤ addr ∨ addr + size ≤ base → overlaps addr size (base, len) = false.
Proof.
  intros Hd. unfold overlaps. simpl. apply andb_false_iff.
  destruct Hd; [left | right]; apply Z.ltb_ge; lia.
Qed.

(** The set-up of a dcmp goes through whenever the sizes fit the layout:
    the dcmp has its ten bytes and at most 256 MiB, the output region at
    most 0x60000000 bytes and the compressed resource at most 4 MiB. *)
Lemma prepare_dcmp_Ok (dcmp_res : Resource) (data : list byte)
    (header : CompressedResourceHeader) (output_extra_bytes : Z) :
  res_type dcmp_res = RESOURCE_TYPE_dcmp →
  10 ≤ Z.of_nat (length (res_data dcmp_res)) ≤ 0x10000000 →
  output_region_size header output_extra_bytes ≤ 0x60000000 →
  Z.of_nat (length data) ≤ 0x400000 →
  is_ok (prepare dcmp_res data header output_extra_bytes) = true.
Proof.
  intros Htype Hcode Hout Hdata.
  assert (0 ≤ output_region_size header output_extra_bytes) as Hout0
    by apply u32_range.
  unfold prepare.
  pose proof (load_decompressor_dcmp_Ok dcmp_res Htype Hcode) as Hload.
  destruct (load_decompressor dcmp_res) as [ld|] eqn:Hld; [clear Hload | done].
  cbn [mbind result_bind].
  assert (mem_regions (loaded_mem ld)
          = [(code_addr, Z.of_nat (length (res_data dcmp_res)))]) as Hregions.
  { revert Hld. unfold load_decompressor. rewrite Htype, Z.eqb_refl.
    intros (off & _ & (mem1 & Hat & (mem2 & Hw & [= <-])%result_bind_Ok)
      %result_bind_Ok)%result_bind_Ok.
    apply mem_write_Ok in Hw as ->. simpl.
    by apply allocate_at_Ok in Hat as (_ & _ & _ & ->). }
  unfold allocate_regions, stack_addr, stack_region_size, output_addr,
    working_buffer_addr, input_addr, working_buffer_region_size, input_region_size,
    code_addr in *.
  rewrite allocate_at_free; [|lia|lia|].
  2: { rewrite Hregions. simpl. by rewrite !overlaps_false by lia. }
  cbn [mbind result_bind].
  rewrite allocate_at_free; [|lia|lia|].
  2: { simpl. rewrite Hregions. simpl. by rewrite !overlaps_false by lia. }
  cbn [mbind result_bind].
  rewrite allocate_at_free; [|lia|lia|].
  2: { simpl. rewrite Hregions. simpl.
       by rewrite !overlaps_false by lia. }
  cbn [mbind result_bind].
  rewrite allocate_at_free; [|lia|lia|].
  2: { simpl. rewrite Hregions. simpl.
       by rewrite !overlaps_false by lia. }
  cbn [mbind result_bind]. unfold mem_write. rewrite mem_at_Ok; [done|].
  apply load_is_Some. intros x Hx. unfold mapped. simpl.
  unfold in_region at 1. simpl.
  destruct (Z.leb_spec 3221225472 x); [|lia].
  destruct (Z.ltb_spec x (3221225472 + (Z.of_nat (length data) + 256))); [done | lia].
Qed.

End Reachable.

(** A dcmp of the second format (three offsets, then code): the entry offset
    is the second word, 8. *)
Lemma dcmp_entry_point_scenario :
  dcmp_entry_offset (res_data offsets_dcmp) = Ok 8
  ∧ ∀ ld, load_decompressor (Env := sample_env) offsets_dcmp = Ok ld →
          entry_pc ld = 0xF0000008.
Proof.
  destruct (dcmp_entry_point (Env := sample_env) offsets_dcmp)
    as (b2 & b3 & b4 & b5 & b6 & b7 & off & H2 & H3 & H4 & H5 & H6 & H7
        & -> & Hoff & _ & Hld).
  - reflexivity.
  - vm_compute. discriminate.
  - injection H2 as <-. injection H3 as <-. injection H4 as <-.
    injection H5 as <-. injection H6 as <-. injection H7 as <-.
    split; [exact Hoff|]. intros ld Hload. exact (proj1 (Hld ld Hload)).
Defined.

(** The same dcmp about to decompress a version 9 resource. *)
Lemma m68k_entry_state_scenario :
  let data := sample_data 128 4 [x01; x02; x03; x04] in
  ∃ ld mem emu,
    prepare (Env := sample_env) offsets_dcmp data (sample_header_fields data) 0
    = Ok (ld, mem)
    ∧ m68k_setup (Env := sample_env) ld mem data (sample_header_fields data) = Ok emu
    ∧ regs_a (emu_regs emu) 7%nat = 0x10003FE8
    ∧ regs_pc (emu_regs emu) = 0xF0000008
    ∧ read_u32b (emu_mem emu) 0x10003FE8 = Ok 0x10003FFC
    ∧ read_u16b (emu_mem emu) 0x10003FFC = Ok 0x4E70.
Proof.
  intros data.
  destruct (prepare (Env := sample_env) offsets_dcmp data (sample_header_fields data) 0)
    as [[ld mem]|] eqn:Hprep; [|vm_compute in Hprep; discriminate].
  destruct (m68k_entry_state (Env := sample_env) 0 offsets_dcmp data
              (sample_header_fields data) 0 ld mem eq_refl Hprep)
    as (emu & off & Hoff & Hsetup & _ & Ha7 & _ & Hpc & Hret & Hreset).
  injection Hoff as <-.
  exists ld, mem, emu. split; [reflexivity|]. split; [exact Hsetup|].
  split; [exact Ha7|]. split; [exact Hpc|]. split; [exact Hret | exact Hreset].
Defined.

(** *** Condition codes of an addition *)

Lemma set_ccr_flag_testbit (sr bit i : Z) (b : bool) :
  0 ≤ bit →
  Z.testbit (set_ccr_flag sr bit (Z.b2z b)) i
  = if i =? bit then b else Z.testbit sr i.
Proof.
  intros Hbit. unfold set_ccr_flag. destruct b; simpl.
  - rewrite Z.setbit_eqb by done. rewrite (Z.eqb_sym bit i).
    by destruct (i =? bit).
  - rewrite Z.clearbit_eqb. rewrite (Z.eqb_sym bit i).
    destruct (i =? bit); [apply andb_false_r | apply andb_true_r].
Qed.

Lemma set_ccr_flags_testbit (regs : M68KRegisters) (x n z v c : bool) (i : Z) :
  Z.testbit (regs_sr (set_ccr_flags regs (Z.b2z x) (Z.b2z n) (Z.b2z z) (Z.b2z v)
                        (Z.b2z c))) i
  = if i =? 0 then c else if i =? 1 then v else if i =? 2 then z
    else if i =? 3 then n else if i =? 4 then x else Z.testbit (regs_sr regs) i.
Proof. unfold set_ccr_flags. simpl. by rewrite !set_ccr_flag_testbit by lia. Qed.

(** The top bit of a [w]-bit value says whether it is in the upper half. *)
Lemma top_bit (w a : Z) :
  0 < w → 0 ≤ a < 2 ^ w → Z.testbit a (w - 1) = (2 ^ (w - 1) <=? a).
Proof.
  intros Hw Ha.
  assert (2 ^ w = 2 * 2 ^ (w - 1)) as Hpow
    by (rewrite <- Z.pow_succ_r by lia; f_equal; lia).
  assert (0 < 2 ^ (w - 1)) by (apply Z.pow_pos_nonneg; lia).
  pose proof (Z.testbit_spec' a (w - 1) ltac:(lia)) as Hbit.
  destruct (Z.leb_spec (2 ^ (w - 1)) a).
  - assert (a `div` 2 ^ (w - 1) = 1) as Hq
      by (symmetry; apply Z.div_unique with (a - 2 ^ (w - 1)); lia).
    rewrite Hq in Hbit. by destruct (Z.testbit a (w - 1)).
  - rewrite Z.div_small in Hbit by lia. by destruct (Z.testbit a (w - 1)).
Qed.

(** C9.  For operands of any value and a width of 1, 2 or 4 bytes, the
    integer-add helper leaves in X, N, Z, V and C the condition codes that
    the Programmer's Reference defines for ADD on the operands at that
    width (N the top bit of the result, Z the result being zero, V signed
    overflow, C the carry out, X equal to C); the other bits of the status
    register and the other registers are unchanged, and the result at that
    width is the sum of the operands modulo 2^(8 size).  The instance
    0x7FFF + 0x0001 at width 2 follows. *)
Theorem integer_add_flags (regs : M68KRegisters) (left_value right_value size : Z) :
  size = 1 ∨ size = 2 ∨ size = 4 →
  let w := 8 * size in
  let l := left_value mod 2 ^ w in
  let r := right_value mod 2 ^ w in
  let regs' := set_ccr_flags_integer_add regs left_value right_value size in
  flags_of regs' = reference_add_flags w l r
  ∧ integer_add_result left_value right_value size = (l + r) mod 2 ^ w
  ∧ (∀ i, 5 ≤ i → Z.testbit (regs_sr regs') i = Z.testbit (regs_sr regs) i)
  ∧ regs_d regs' = regs_d regs ∧ regs_a regs' = regs_a regs
  ∧ regs_pc regs' = regs_pc regs.
Proof.
  intros Hsize w l r regs'.
  assert (0 < w ∧ 2 ^ w = 2 * 2 ^ (w - 1) ∧ 0 < 2 ^ (w - 1)) as (Hw & Hpow & Hhalf).
  { subst w. destruct Hsize as [-> | [-> | ->]]; by vm_compute. }
  assert (0 ≤ l < 2 ^ w) as Hl by (apply Z.mod_pos_bound; lia).
  assert (0 ≤ r < 2 ^ w) as Hr by (apply Z.mod_pos_bound; lia).
  assert (0 ≤ (l + r) mod 2 ^ w < 2 ^ w) as Hsum by (apply Z.mod_pos_bound; lia).
  (* the operands and the sum as the helper computes them *)
  set (L := sign_extend left_value size).
  set (R := sign_extend right_value size).
  set (S := sign_extend (L + R) size).
  assert (L = if l <? 2 ^ (w - 1) then l else l - 2 ^ w) as HL by done.
  assert (R = if r <? 2 ^ (w - 1) then r else r - 2 ^ w) as HR by done.
  assert (signed w l = L) as HsL.
  { unfold signed. fold w in HL. rewrite Z.mod_small by done. by rewrite HL. }
  assert (signed w r = R) as HsR.
  { unfold signed. rewrite Z.mod_small by done. by rewrite HR. }
  assert ((L + R) mod 2 ^ w = (l + r) mod 2 ^ w) as Hmod.
  { rewrite HL, HR. destruct (l <? 2 ^ (w - 1)), (r <? 2 ^ (w - 1)).
    - done.
    - replace (l + (r - 2 ^ w)) with (l + r + (-1) * 2 ^ w) by lia.
      by rewrite Z.mod_add by lia.
    - replace (l - 2 ^ w + r) with (l + r + (-1) * 2 ^ w) by lia.
      by rewrite Z.mod_add by lia.
    - replace (l - 2 ^ w + (r - 2 ^ w)) with (l + r + (-2) * 2 ^ w) by lia.
      by rewrite Z.mod_add by lia. }
  assert (S = if (l + r) mod 2 ^ w <? 2 ^ (w - 1)
              then (l + r) mod 2 ^ w else (l + r) mod 2 ^ w - 2 ^ w) as HS.
  { unfold S, sign_extend, signed. fold w. by rewrite Hmod. }
  assert (L mod 2 ^ w = l) as HLm.
  { rewrite HL. destruct (l <? 2 ^ (w - 1)); [by apply Z.mod_small|].
    replace (l - 2 ^ w) with (l + (-1) * 2 ^ w) by lia.
    rewrite Z.mod_add by lia. by apply Z.mod_small. }
  assert (R mod 2 ^ w = r) as HRm.
  { rewrite HR. destruct (r <? 2 ^ (w - 1)); [by apply Z.mod_small|].
    replace (r - 2 ^ w) with (r + (-1) * 2 ^ w) by lia.
    rewrite Z.mod_add by lia. by apply Z.mod_small. }
  assert ((l + r) mod 2 ^ w = l + r ∨ (l + r) mod 2 ^ w = l + r - 2 ^ w) as Hwrap.
  { destruct (Z.lt_ge_cases (l + r) (2 ^ w)).
    - left. apply Z.mod_small. lia.
    - right. symmetry. apply Z.mod_unique with 1; lia. }
  split; [|split; [|split; [|done]]].
  - unfold flags_of, ccr_x, ccr_n, ccr_z, ccr_v, ccr_c, regs',
      set_ccr_flags_integer_add.
    rewrite !set_ccr_flags_testbit. simpl (_ =? _).
    fold w. fold L. fold R. fold S. rewrite HLm, HRm.
    unfold reference_add_flags. rewrite HsL, HsR.
    rewrite top_bit by done.
    f_equal.
    + rewrite HS.
      destruct (Z.ltb_spec ((l + r) mod 2 ^ w) (2 ^ (w - 1)));
        destruct (Z.leb_spec (2 ^ (w - 1)) ((l + r) mod 2 ^ w));
        destruct (Z.ltb_spec ((l + r) mod 2 ^ w) 0);
        destruct (Z.ltb_spec ((l + r) mod 2 ^ w - 2 ^ w) 0); try done; lia.
    + rewrite HS.
      destruct (Z.ltb_spec ((l + r) mod 2 ^ w) (2 ^ (w - 1)));
        destruct (Z.eqb_spec ((l + r) mod 2 ^ w) 0);
        destruct (Z.eqb_spec ((l + r) mod 2 ^ w - 2 ^ w) 0); try done; lia.
    + rewrite HS, HL, HR.
      destruct (Z.ltb_spec l (2 ^ (w - 1))); destruct (Z.ltb_spec r (2 ^ (w - 1)));
        destruct (Z.ltb_spec ((l + r) mod 2 ^ w) (2 ^ (w - 1)));
        repeat match goal with
               | |- context [?a <? ?b] => destruct (Z.ltb_spec a b)
               | |- context [?a <=? ?b] => destruct (Z.leb_spec a b)
               end; simpl; try done; lia.
  - unfold integer_add_result. fold w. subst l r.
    by rewrite <- Z.add_mod by lia.
  - intros i Hi. unfold regs', set_ccr_flags_integer_add.
    rewrite set_ccr_flags_testbit.
    destruct (Z.eqb_spec i 0); [lia|]. destruct (Z.eqb_spec i 1); [lia|].
    destruct (Z.eqb_spec i 2); [lia|]. destruct (Z.eqb_spec i 3); [lia|].
    destruct (Z.eqb_spec i 4); [lia|]. done.
Qed.

(** 0x7FFF + 0x0001 at width 2: the result is 0x8000, with N = 1, Z = 0,
    V = 1, C = 0 and X = 0. *)
Lemma integer_add_flags_scenario :
  integer_add_result 0x7FFF 0x0001 2 = 0x8000
  ∧ flags_of (set_ccr_flags_integer_add zero_registers 0x7FFF 0x0001 2)
    = {| cc_x := false; cc_n := true; cc_z := false; cc_v := true; cc_c := false |}.
Proof.
  destruct (integer_add_flags zero_registers 0x7FFF 0x0001 2)
    as (Hflags & Hresult & _).
  - right. left. reflexivity.
  - split; [exact Hresult | exact Hflags].
Defined.

(** *** The candidates and the cache of system decompressors *)

Lemma testbit_negative (id i : Z) :
  - 2 ^ 15 ≤ id < 0 → 15 ≤ i → Z.testbit id i = true.
Proof.
  intros Hid Hi. apply Z.bits_above_log2_neg; [lia|].
  destruct (Z.eq_dec (Z.pred (- id)) 0) as [->|]; [simpl; lia|].
  assert (Z.log2 (Z.pred (- id)) < 15); [|lia].
  apply Z.log2_lt_pow2; lia.
Qed.

(** For a negative id the key does not depend on the resource type: the
    sign extension of the id sets every bit the type could occupy. *)
Lemma system_decompressor_key_negative (resource_type resource_id : Z) :
  - 2 ^ 15 ≤ resource_id < 0 →
  system_decompressor_key resource_type resource_id = u64 resource_id.
Proof.
  intros Hid. unfold system_decompressor_key, u64. apply Z.bits_inj'. intros i Hi.
  rewrite Z.lor_spec.
  destruct (Z.lt_ge_cases i 64).
  - rewrite !Z.mod_pow2_bits_low by lia.
    destruct (Z.lt_ge_cases i 16).
    + by rewrite Z.shiftl_spec_low by lia.
    + rewrite (testbit_negative resource_id i) by lia. apply orb_true_r.
  - by rewrite !Z.mod_pow2_bits_high by lia.
Qed.

Lemma system_decompressor_key_collision (resource_id : Z) :
  - 2 ^ 15 ≤ resource_id < 0 →
  system_decompressor_key RESOURCE_TYPE_ncmp resource_id
  = system_decompressor_key RESOURCE_TYPE_dcmp resource_id.
Proof. intros Hid. by rewrite !system_decompressor_key_negative. Qed.

(** For an id that is not negative the two types have different keys. *)
Lemma system_decompressor_key_distinct (resource_id : Z) :
  0 ≤ resource_id < 2 ^ 15 →
  system_decompressor_key RESOURCE_TYPE_ncmp resource_id
  ≠ system_decompressor_key RESOURCE_TYPE_dcmp resource_id.
Proof.
  intros Hid Heq.
  assert (Z.testbit (u64 resource_id) 41 = false) as Hbit.
  { unfold u64. rewrite Z.mod_small by lia.
    destruct (Z.eq_dec resource_id 0) as [->|]; [done|].
    apply Z.bits_above_log2; [lia|].
    assert (Z.log2 resource_id < 15); [|lia]. apply Z.log2_lt_pow2; lia. }
  apply (f_equal (fun key => Z.testbit key 41)) in Heq.
  unfold system_decompressor_key in Heq. rewrite !Z.lor_spec, Hbit in Heq.
  by vm_compute in Heq.
Qed.

Section Candidates.
Context `{Env : Environment}.

(** A system decompressor that is not in the cache comes from its file. *)
Lemma try_system_decompressor_miss (use_ncmp : bool) (id : Z) (s : State) :
  let resource_type := if use_ncmp then RESOURCE_TYPE_ncmp else RESOURCE_TYPE_dcmp in
  let key := system_decompressor_key resource_type id in
  st_id_to_res s !! key = None →
  try_system_decompressor use_ncmp id s
  = match load_file (system_decompressor_filename use_ncmp id) with
    | Some data =>
        (Ok (Some (Resource_new resource_type id data)),
         {| st_res := st_res s;
            st_id_to_res := <[key := Resource_new resource_type id data]> (st_id_to_res s) |})
    | None => (Ok None, s)
    end.
Proof.
  intros resource_type key Hmiss.
  unfold try_system_decompressor, try_catch, get_system_decompressor, mbind, M_bind,
    get_id_to_res. simpl. fold resource_type. fold key. rewrite Hmiss.
  by destruct (load_file _).
Qed.

(** A system decompressor that is in the cache is returned as cached,
    whatever its type and whatever is on disk. *)
Lemma try_system_decompressor_hit (use_ncmp : bool) (id : Z) (s : State) (r : Resource) :
  st_id_to_res s
    !! system_decompressor_key
         (if use_ncmp then RESOURCE_TYPE_ncmp else RESOURCE_TYPE_dcmp) id = Some r →
  try_system_decompressor use_ncmp id s = (Ok (Some r), s).
Proof.
  intros Hhit.
  unfold try_system_decompressor, try_catch, get_system_decompressor, mbind, M_bind,
    get_id_to_res. simpl. by rewrite Hhit.
Qed.

(** The candidates for an id that is not negative, in a process that has not
    loaded a system decompressor yet: the five categories in order, each
    left out when its skip flag is set or when it has nothing to offer. *)
Lemma collect_decompressors_nonnegative_id (decompress_flags : Z)
    (context_rf : option ResourceFile) (id : Z) (s : State) :
  0 ≤ id < 2 ^ 15 →
  st_id_to_res s = ∅ →
  (collect_decompressors decompress_flags context_rf id s).1
  = Ok (candidate (flag_set decompress_flags SKIP_FILE_DCMP)
          (rf ← context_rf; rf !! (RESOURCE_TYPE_dcmp, id))
        ++ candidate (flag_set decompress_flags SKIP_FILE_NCMP)
             (rf ← context_rf; rf !! (RESOURCE_TYPE_ncmp, id))
        ++ (if flag_set decompress_flags SKIP_INTERNAL then []
            else if id <=? 3 then [None] else [])
        ++ candidate (flag_set decompress_flags SKIP_SYSTEM_DCMP)
             (Resource_new RESOURCE_TYPE_dcmp id
                <$> load_file (system_decompressor_filename false id))
        ++ candidate (flag_set decompress_flags SKIP_SYSTEM_NCMP)
             (Resource_new RESOURCE_TYPE_ncmp id
                <$> load_file (system_decompressor_filename true id))).
Proof.
  intros Hid Hcache.
  pose proof (system_decompressor_key_distinct id Hid) as Hkeys.
  unfold collect_decompressors.
  set (files :=
    match context_rf with
    | Some rf => _
    | None => []
    end).
  assert (files
          = candidate (flag_set decompress_flags SKIP_FILE_DCMP)
              (rf ← context_rf; rf !! (RESOURCE_TYPE_dcmp, id))
            ++ candidate (flag_set decompress_flags SKIP_FILE_NCMP)
                 (rf ← context_rf; rf !! (RESOURCE_TYPE_ncmp, id))) as ->.
  { unfold files, candidate, emplace_back_opt.
    destruct context_rf as [rf|]; simpl.
    - destruct (flag_set decompress_flags SKIP_FILE_DCMP),
        (flag_set decompress_flags SKIP_FILE_NCMP),
        (rf !! (RESOURCE_TYPE_dcmp, id)), (rf !! (RESOURCE_TYPE_ncmp, id)); done.
    - by destruct (flag_set decompress_flags SKIP_FILE_DCMP),
        (flag_set decompress_flags SKIP_FILE_NCMP). }
  set (files := candidate _ _ ++ candidate _ _).
  set (internal :=
    if negb (flag_set decompress_flags SKIP_INTERNAL) then _ else files).
  assert (internal
          = files ++ (if flag_set decompress_flags SKIP_INTERNAL then []
                      else if id <=? 3 then [None] else [])) as ->.
  { unfold internal. destruct (flag_set decompress_flags SKIP_INTERNAL); simpl.
    - by rewrite app_nil_r.
    - destruct (Z.leb_spec 0 id); [|lia]. simpl.
      destruct (id <=? 3); [done | by rewrite app_nil_r]. }
  set (before := files ++ _).
  assert (∀ rest, before ++ rest = files ++ (if flag_set decompress_flags SKIP_INTERNAL
                                             then []
                                             else if id <=? 3 then [None] else []) ++ rest)
    as Hbefore by (intros rest; unfold before; by rewrite <- app_assoc).
  assert (∀ l (r : option Resource), emplace_back_opt l r = l ++ candidate false r)
    as Hemplace by (intros l [r|]; simpl; [done | by rewrite app_nil_r]).
  clearbody before. unfold mbind, M_bind, mret, M_ret.
  destruct (flag_set decompress_flags SKIP_SYSTEM_DCMP),
    (flag_set decompress_flags SKIP_SYSTEM_NCMP);
    cbv beta iota delta [negb].
  - cbn [fst]. f_equal. rewrite <- (app_nil_r before), Hbefore. unfold files.
    by rewrite <- app_assoc.
  - rewrite try_system_decompressor_miss by (by rewrite Hcache).
    destruct (load_file _) as [data_n|]; cbn [fst fmap option_fmap option_map];
      f_equal; rewrite Hemplace, Hbefore; unfold files; by rewrite <- app_assoc.
  - rewrite try_system_decompressor_miss by (by rewrite Hcache).
    destruct (load_file _) as [data_d|]; cbn [fst fmap option_fmap option_map];
      f_equal; rewrite Hemplace, Hbefore; unfold files; rewrite <- app_assoc;
      by rewrite ?app_nil_r.
  - rewrite try_system_decompressor_miss by (by rewrite Hcache).
    destruct (load_file (system_decompressor_filename false id)) as [data_d|].
    + rewrite try_system_decompressor_miss
        by (simpl; rewrite Hcache, lookup_insert_ne; [done | by apply not_eq_sym]).
      destruct (load_file _) as [data_n|]; cbn [fst fmap option_fmap option_map];
        f_equal; rewrite !Hemplace, <- app_assoc, Hbefore; unfold files;
        by rewrite <- app_assoc.
    + rewrite try_system_decompressor_miss by (by rewrite Hcache).
      destruct (load_file _) as [data_n|]; cbn [fst fmap option_fmap option_map];
        f_equal; rewrite !Hemplace, <- app_assoc, Hbefore; unfold files;
        by rewrite <- app_assoc.
Qed.

End Candidates.

(** *** Concrete runs *)

Section NegativeId.
Context `{Env : Environment}.

(** With a negative id, once the system dcmp has been loaded the request for
    the system ncmp finds it in the cache under the same key, and returns
    the dcmp again, whether or not there is an ncmp on disk. *)
Lemma negative_id_system_candidates (id : Z) (s : State) (data : list byte) :
  - 2 ^ 15 ≤ id < 0 →
  st_id_to_res s = ∅ →
  load_file (system_decompressor_filename false id) = Some data →
  let r := Resource_new RESOURCE_TYPE_dcmp id data in
  ∃ s1,
    try_system_decompressor false id s = (Ok (Some r), s1)
    ∧ try_system_decompressor true id s1 = (Ok (Some r), s1).
Proof.
  intros Hid Hcache Hfile r.
  rewrite try_system_decompressor_miss by (by rewrite Hcache).
  rewrite Hfile. eexists. split; [done|].
  apply try_system_decompressor_hit. simpl.
  rewrite system_decompressor_key_collision by done. apply lookup_insert_eq.
Qed.

End NegativeId.

(** C4, at the input where the code departs from it.  The header names the
    decompressor -1, no resource file is given, no flag is set, and the only
    file on disk is system_dcmps/dcmp_-1.bin.  The list of candidates should
    hold that dcmp once; it holds it twice, the second time in the place of
    the system ncmp, which does not exist. *)
Theorem collect_decompressors_negative_id :
  let s := sample_state (sample_resource 0x0001 (sample_data (-1) 4 [x01; x02; x03; x04])) in
  let dcmp := Resource_new RESOURCE_TYPE_dcmp (-1)
                [x60; x00; x00; x0a; x64; x63; x6d; x70; x00; x00; x4e; x75] in
  header_ids (header_fields (Environment := sample_env) (res_data (st_res s)))
  = Ok (-1, 0)
  ∧ load_file (Environment := sample_env) (system_decompressor_filename false (-1))
    = Some (res_data dcmp)
  ∧ load_file (Environment := sample_env) (system_decompressor_filename true (-1)) = None
  ∧ (collect_decompressors (Env := sample_env) 0 None (-1) s).1
    = Ok [Some dcmp; Some dcmp].
Proof. repeat split; vm_compute; reflexivity. Qed.

(** C1 as the spec states it fails: the only candidate is a dcmp too short
    to hold an entry point, the attempt with it fails with "decompressor
    resource is too short", and the caller gets "no decompressor succeeded". *)
Lemma last_error_not_surfaced :
  let s := sample_state (sample_resource 0x0001 (sample_data 128 4 [x01; x02; x03; x04])) in
  collect_decompressors (Env := sample_env) 0 (Some sample_rf) 128 s
  = (Ok [Some short_dcmp], s)
  ∧ attempt (Env := sample_env) 0 128 0 (Some short_dcmp) s
    = (Throw (runtime_error "decompressor resource is too short"), s)
  ∧ decompress_resource (Env := sample_env) 0 (Some sample_rf) s
    = (Throw (runtime_error "no decompressor succeeded"), s)
  ∧ runtime_error "no decompressor succeeded"
    ≠ runtime_error "decompressor resource is too short".
Proof. repeat split; try (vm_compute; reflexivity). discriminate. Qed.

(** Two candidates for decompressor 0: the dcmp of the resource file, too
    short, and then the built-in implementation, which succeeds. *)
Lemma decompress_resource_attempts_scenario :
  let s := sample_state (sample_resource 0x0001 (sample_data 0 4 [x01; x02; x03; x04])) in
  fails (attempt (Env := sample_env) 0 0 0 (Some short_dcmp) s)
  ∧ ∃ s',
      decompress_resource (Env := sample_env) 0 (Some sample_rf) s = (Ok tt, s')
      ∧ res_data (st_res s') = [x01; x02; x03; x04].
Proof.
  intros s.
  destruct (decompress_resource_attempts (Env := sample_env) 0 (Some sample_rf) s 0 0)
    as (cs & s1 & Hcollect & _ & _ & Hfirst & _).
  - split; [reflexivity|]. split; [right; reflexivity | reflexivity].
  - split; [vm_compute; discriminate|]. repeat split; vm_compute; reflexivity.
  - vm_compute in Hcollect. injection Hcollect as <- <-.
    split; [reflexivity|].
    eexists. split.
    + apply (Hfirst [Some short_dcmp] None []); [reflexivity | | vm_compute; reflexivity].
      intros c' Hc'. apply list_elem_of_singleton in Hc'. subst c'. reflexivity.
    + reflexivity.
Defined.

(** Every candidate fails: the exception reaches the caller and the resource
    is as it was. *)
Lemma decompress_resource_throw_scenario :
  let s := sample_state (sample_resource 0x0001 (sample_data 128 4 [x01; x02; x03; x04])) in
  is_ok (decompress_resource (Env := sample_env) 0 (Some sample_rf) s).1 = false
  ∧ st_res (decompress_resource (Env := sample_env) 0 (Some sample_rf) s).2 = st_res s.
Proof.
  intros s. split; [vm_compute; reflexivity|].
  apply (decompress_resource_throw_keeps_resource (Env := sample_env) 0 (Some sample_rf)
           s _ (runtime_error "no decompressor succeeded")).
  vm_compute. reflexivity.
Defined.

(* ================================================================== *)
(** * Further properties of [decompress_resource] *)
(* ================================================================== *)

Section Outcome.
Context `{Env : Environment}.

Lemma mark_decompressed_clears (flags : Z) :
  Z.land FLAG_COMPRESSED FLAG_DECOMPRESSED = 0 →
  flag_set (mark_decompressed flags) FLAG_COMPRESSED = false.
Proof.
  intros Hdisj. unfold flag_set, mark_decompressed.
  apply negb_false_iff, Z.eqb_eq, Z.bits_inj'. intros n Hn.
  apply (f_equal (fun z => Z.testbit z n)) in Hdisj.
  rewrite Z.land_spec, Z.bits_0 in Hdisj.
  rewrite Z.land_spec, Z.lor_spec, Z.land_spec, Z.lnot_spec, Z.bits_0 by done.
  destruct (Z.testbit flags n), (Z.testbit FLAG_COMPRESSED n),
    (Z.testbit FLAG_DECOMPRESSED n); done.
Qed.

(** What a successful attempt writes: the output, of the length the header
    announces, and the flags of a decompressed resource. *)
Lemma attempt_Ok (decompress_flags id extra : Z) (c : option Resource) (s s' : State) :
  attempt decompress_flags id extra c s = (Ok tt, s') →
  ∃ data,
    s' = {| st_res := {| res_type := res_type (st_res s); res_id := res_id (st_res s);
                         res_flags := mark_decompressed (res_flags (st_res s));
                         res_data := data |};
            st_id_to_res := st_id_to_res s |}
    ∧ Z.of_nat (length data)
      = u32 (decompressed_size (header_fields (res_data (st_res s)))).
Proof.
  destruct c as [r|]; simpl.
  - unfold decompress_emulated, mbind, M_bind, get_res, liftR.
    destruct (run_decompressor _ _ _ _ _) as [out|] eqn:Hrun; [|done].
    intros [= <-]. exists out. split; [done|].
    unfold run_decompressor in Hrun.
    apply result_bind_Ok in Hrun as ([ld mem] & _ & Hrun).
    apply result_bind_Ok in Hrun as (mem' & _ & Hread).
    unfold mem_read in Hread.
    destruct (load mem' output_addr _) as [bs|] eqn:Hload; [|done].
    injection Hread as ->. apply load_length in Hload. rewrite Hload.
    apply Z2Nat.id, u32_range.
  - unfold decompress_internal, mbind, M_bind, get_res, liftR, throwM.
    destruct (internal_decompressor id) as [decompress|]; [|done].
    destruct (decompress _ _) as [out|]; [|done].
    destruct (Z.eqb_spec (Z.of_nat (length out))
                (u32 (decompressed_size (header_fields (res_data (st_res s))))))
      as [Hlen|]; [|done].
    simpl. intros [= <-]. by exists out.
Qed.

(** The three ways in which [decompress_resource] returns normally: at once,
    after clearing the compressed flag of a resource without the magic
    number, and after a successful attempt. *)
Lemma decompress_resource_Ok (decompress_flags : Z) (context_rf : option ResourceFile)
    (s s' : State) :
  decompress_resource decompress_flags context_rf s = (Ok tt, s') →
  s' = s
  ∨ res_flags (st_res s') = Z.land (res_flags (st_res s)) (Z.lnot FLAG_COMPRESSED)
  ∨ res_flags (st_res s') = mark_decompressed (res_flags (st_res s)).
Proof.
  unfold decompress_resource, mbind, M_bind, get_res, liftR, throwM, mret, M_ret.
  simpl.
  destruct (negb (flag_set (res_flags (st_res s)) FLAG_COMPRESSED));
    [intros [= <-]; by left|].
  destruct (_ && _); [intros [= <-]; by left|].
  destruct (flag_set decompress_flags DISABLED); [intros [= <-]; by left|].
  destruct (_ <? _); [done|].
  destruct (negb (header_magic _ =? _)).
  { rewrite modify_flags_run. intros [= <-]. right. by left. }
  destruct (negb (flag_set (attributes _) 1)); [done|].
  destruct (header_ids _) as [[id extra]|]; [|done].
  destruct (collect_decompressors_Ok decompress_flags context_rf id s)
    as (cs & s1 & -> & Hres).
  destruct (bool_decide (cs = [])); [done|].
  intros (l1 & c & l2 & _ & _ & (data & -> & _)%attempt_Ok)%try_decompressors_Ok.
  right. right. simpl. by rewrite Hres.
Qed.

(** X1.  Decompressing twice is decompressing once.  When the bit that marks
    a resource as compressed is not also part of the mark of a decompressed
    one, a call of [decompress_resource] that returns normally leaves a
    state in which the same call returns normally again and changes
    nothing: either the first call had returned at once, or it has cleared
    the compressed flag, and the second call stops at its first test. *)
Theorem decompress_resource_twice (decompress_flags : Z)
    (context_rf : option ResourceFile) (s s' : State) :
  Z.land FLAG_COMPRESSED FLAG_DECOMPRESSED = 0 →
  decompress_resource decompress_flags context_rf s = (Ok tt, s') →
  decompress_resource decompress_flags context_rf s' = (Ok tt, s').
Proof.
  intros Hdisj Hrun.
  destruct (decompress_resource_Ok _ _ _ _ Hrun) as [-> | Hflags]; [done|].
  assert (flag_set (res_flags (st_res s')) FLAG_COMPRESSED = false) as Hclear.
  { destruct Hflags as [-> | ->];
      [apply clear_flag_cleared | by apply mark_decompressed_clears]. }
  unfold decompress_resource, mbind, M_bind, get_res, mret, M_ret. simpl.
  by rewrite Hclear.
Qed.

(** X2.  The outcome of a successful decompression.  When the resource is
    to be decompressed and carries a valid header, a call that returns
    normally has replaced the data by exactly as many bytes as the header's
    [decompressed_size] says, whichever decompressor produced them, has
    cleared the compressed flag and set the decompressed one on top of the
    other flags, and has kept the type and the id. *)
Theorem decompress_resource_success (decompress_flags : Z)
    (context_rf : option ResourceFile) (s s' : State) (id extra : Z) :
  decompression_wanted decompress_flags (st_res s) →
  valid_compressed_header (res_data (st_res s)) id extra →
  decompress_resource decompress_flags context_rf s = (Ok tt, s') →
  Z.of_nat (length (res_data (st_res s')))
  = u32 (decompressed_size (header_fields (res_data (st_res s))))
  ∧ res_flags (st_res s')
    = Z.lor (Z.land (res_flags (st_res s)) (Z.lnot FLAG_COMPRESSED)) FLAG_DECOMPRESSED
  ∧ res_type (st_res s') = res_type (st_res s)
  ∧ res_id (st_res s') = res_id (st_res s).
Proof.
  intros Hwanted Hvalid.
  destruct (collect_decompressors_Ok decompress_flags context_rf id s)
    as (cs & s1 & Hcollect & Hres).
  rewrite (decompress_resource_valid _ _ _ _ _ _ _ Hwanted Hvalid Hcollect).
  destruct (bool_decide (cs = [])); [done|].
  intros (l1 & c & l2 & _ & _ & (data & -> & Hlen)%attempt_Ok)%try_decompressors_Ok.
  simpl. rewrite Hres in Hlen. rewrite Hres. done.
Qed.

(** X3.  The exceptions that leave [decompress_resource].  Whatever a
    decompressor throws while it is tried (a memory fault of the emulated
    machine, a [logic_error], an [out_of_range]) stays inside the loop over
    the candidates; what reaches the caller is a [runtime_error] with one of
    five messages. *)
Theorem decompress_resource_exceptions (decompress_flags : Z)
    (context_rf : option ResourceFile) (s s' : State) (e : exn) :
  decompress_resource decompress_flags context_rf s = (Throw e, s') →
  e ∈ [ runtime_error "resource marked as compressed but is too small";
        runtime_error
          "resource marked as compressed but does not have compression attribute set";
        runtime_error "compressed resource header version is not 8 or 9";
        runtime_error "no decompressors are available for this resource";
        runtime_error "no decompressor succeeded" ].
Proof.
  unfold decompress_resource, mbind, M_bind, get_res, liftR, throwM, mret, M_ret.
  simpl.
  destruct (negb (flag_set (res_flags (st_res s)) FLAG_COMPRESSED)); [done|].
  destruct (_ && _); [done|].
  destruct (flag_set decompress_flags DISABLED); [done|].
  destruct (_ <? _); [intros [= <- _]; set_solver|].
  destruct (negb (header_magic _ =? _)); [done|].
  destruct (negb (flag_set (attributes _) 1)); [intros [= <- _]; set_solver|].
  unfold header_ids.
  destruct (header_version _ =? 9); simpl.
  - match goal with |- context [collect_decompressors ?f ?rf ?id s] =>
      destruct (collect_decompressors_Ok f rf id s) as (cs & s1 & -> & Hres) end.
    destruct (bool_decide (cs = [])); [intros [= <- _]; set_solver|].
    intros (_ & -> & _)%try_decompressors_Throw. set_solver.
  - destruct (header_version _ =? 8); simpl; [|intros [= <- _]; set_solver].
    match goal with |- context [collect_decompressors ?f ?rf ?id s] =>
      destruct (collect_decompressors_Ok f rf id s) as (cs & s1 & -> & Hres) end.
    destruct (bool_decide (cs = [])); [intros [= <- _]; set_solver|].
    intros (_ & -> & _)%try_decompressors_Throw. set_solver.
Qed.

End Outcome.

(** The built-in decompressor 0 of the sample environment returns the four
    bytes that follow the header: four bytes were announced. *)
Lemma decompress_resource_success_scenario :
  let s := sample_state (sample_resource 0x0001 (sample_data 0 4 [x01; x02; x03; x04])) in
  ∃ s',
    decompress_resource (Env := sample_env) 0 None s = (Ok tt, s')
    ∧ Z.of_nat (length (res_data (st_res s'))) = 4
    ∧ res_flags (st_res s') = 0x0200.
Proof.
  intros s.
  destruct (decompress_resource (Env := sample_env) 0 None s) as [[[]|e] s'] eqn:Hrun;
    [|vm_compute in Hrun; discriminate].
  destruct (decompress_resource_success (Env := sample_env) 0 None s s' 0 0)
    as (Hlen & Hflags & _).
  - split; [reflexivity|]. split; [right; reflexivity | reflexivity].
  - split; [vm_compute; discriminate|]. repeat split; vm_compute; reflexivity.
  - exact Hrun.
  - exists s'. split; [reflexivity|]. split; [exact Hlen | exact Hflags].
Defined.

(** The second call finds the resource decompressed. *)
Lemma decompress_resource_twice_scenario :
  let s := sample_state (sample_resource 0x0001 (sample_data 0 4 [x01; x02; x03; x04])) in
  ∃ s',
    decompress_resource (Env := sample_env) 0 None s = (Ok tt, s')
    ∧ decompress_resource (Env := sample_env) 0 None s' = (Ok tt, s').
Proof.
  intros s.
  destruct (decompress_resource (Env := sample_env) 0 None s) as [[[]|e] s'] eqn:Hrun;
    [|vm_compute in Hrun; discriminate].
  exists s'. split; [reflexivity|].
  apply (decompress_resource_twice (Env := sample_env) 0 None s s'); [reflexivity|].
  exact Hrun.
Defined.

(** A resource of ten bytes marked compressed. *)
Lemma decompress_resource_exceptions_scenario :
  let s := sample_state (sample_resource 0x0001 (replicate 10 x00)) in
  ∃ e s',
    decompress_resource (Env := sample_env) 0 None s = (Throw e, s')
    ∧ e ∈ [ runtime_error "resource marked as compressed but is too small";
            runtime_error
              "resource marked as compressed but does not have compression attribute set";
            runtime_error "compressed resource header version is not 8 or 9";
            runtime_error "no decompressors are available for this resource";
            runtime_error "no decompressor succeeded" ].
Proof.
  intros s.
  destruct (decompress_resource (Env := sample_env) 0 None s) as [[[]|e] s'] eqn:Hrun;
    [vm_compute in Hrun; discriminate|].
  exists e, s'. split; [reflexivity|].
  exact (decompress_resource_exceptions (Env := sample_env) 0 None s s' e Hrun).
Defined.

(* ================================================================== *)
(** * Further properties of [get_system_decompressor] *)
(* ================================================================== *)

(** X4.  A system decompressor is read from its file once.  After a call of
    [get_system_decompressor] that has returned a resource, a call for the
    same decompressor returns the same resource and leaves the cache as it
    is, whatever [load_file] would now answer: the two calls below run in
    two environments that need not agree on any file. *)
Theorem get_system_decompressor_cached (Env1 Env2 : Environment) (use_ncmp : bool)
    (id : Z) (s s' : State) (r : Resource) :
  get_system_decompressor (Env := Env1) use_ncmp id s = (Ok r, s') →
  get_system_decompressor (Env := Env2) use_ncmp id s' = (Ok r, s').
Proof.
  unfold get_system_decompressor, mbind, M_bind, get_id_to_res, put_id_to_res,
    mret, M_ret, throwM. simpl.
  destruct (st_id_to_res s !! _) as [r0|] eqn:Hkey.
  - intros [= <- <-]. by rewrite Hkey.
  - destruct (load_file _) as [data|]; [|done]. simpl.
    intros [= <- <-]. simpl. by rewrite lookup_insert_eq.
Qed.

(** The dcmp -1 of the sample environment, asked for again once its file is
    gone. *)
Lemma get_system_decompressor_cached_scenario :
  ∃ r s',
    get_system_decompressor (Env := sample_env) false (-1)
      (sample_state (sample_resource 0 [])) = (Ok r, s')
    ∧ load_file (Environment := without_files sample_env)
        (system_decompressor_filename false (-1)) = None
    ∧ get_system_decompressor (Env := without_files sample_env) false (-1) s'
      = (Ok r, s').
Proof.
  destruct (get_system_decompressor (Env := sample_env) false (-1)
              (sample_state (sample_resource 0 []))) as [[r|e] s'] eqn:Hget;
    [|vm_compute in Hget; discriminate].
  exists r, s'. split; [reflexivity|]. split; [reflexivity|].
  exact (get_system_decompressor_cached sample_env (without_files sample_env)
           false (-1) _ s' r Hget).
Defined.

Section Cache.
Context `{Env : Environment}.

Lemma cache_extends_refl (c : gmap Z Resource) : cache_extends c c.
Proof. split; [done|]. intros key r Hr Hnone. congruence. Qed.

Lemma cache_extends_trans (c1 c2 c3 : gmap Z Resource) :
  cache_extends c1 c2 → cache_extends c2 c3 → cache_extends c1 c3.
Proof.
  intros [Hsub12 Hnew12] [Hsub23 Hnew23]. split; [by etrans|].
  intros key r Hr Hnone.
  destruct (c2 !! key) as [r2|] eqn:H2.
  - pose proof (lookup_weaken _ _ _ _ H2 Hsub23) as H3.
    assert (r2 = r) as -> by congruence. by apply Hnew12.
  - by apply Hnew23.
Qed.

Lemma get_system_decompressor_extends (use_ncmp : bool) (id : Z) (s : State) :
  cache_extends (st_id_to_res s)
    (st_id_to_res (get_system_decompressor use_ncmp id s).2).
Proof.
  unfold get_system_decompressor, mbind, M_bind, get_id_to_res, put_id_to_res,
    mret, M_ret, throwM. simpl.
  destruct (st_id_to_res s !! _) as [r0|] eqn:Hkey; [apply cache_extends_refl|].
  destruct (load_file _) as [data|] eqn:Hfile; [|apply cache_extends_refl].
  simpl. split; [by apply insert_subseteq|].
  intros key r Hr Hnone.
  apply lookup_insert_Some in Hr as [[<- <-] | [_ Hr]]; [|congruence].
  exists use_ncmp. simpl. by destruct use_ncmp.
Qed.

Lemma try_system_decompressor_extends (use_ncmp : bool) (id : Z) (s : State) :
  cache_extends (st_id_to_res s)
    (st_id_to_res (try_system_decompressor use_ncmp id s).2).
Proof.
  pose proof (get_system_decompressor_extends use_ncmp id s) as Hext.
  unfold try_system_decompressor, try_catch, mbind, M_bind, mret, M_ret, throwM.
  destruct (get_system_decompressor use_ncmp id s) as [[r|e] s']; [done|].
  by destruct e.
Qed.

Lemma collect_decompressors_extends (decompress_flags : Z)
    (context_rf : option ResourceFile) (id : Z) (s : State) :
  cache_extends (st_id_to_res s)
    (st_id_to_res (collect_decompressors decompress_flags context_rf id s).2).
Proof.
  unfold collect_decompressors.
  set (l := match context_rf with Some _ => _ | None => _ end).
  set (l' := if negb (flag_set decompress_flags SKIP_INTERNAL) then _ else l).
  clearbody l'. clear l.
  unfold mbind, M_bind, mret, M_ret.
  destruct (negb (flag_set decompress_flags SKIP_SYSTEM_DCMP)).
  - pose proof (try_system_decompressor_extends false id s) as H1.
    destruct (try_system_decompressor_Ok false id s) as (r1 & s1 & Hrun1 & _).
    rewrite Hrun1 in H1 |- *. simpl in H1.
    destruct (negb (flag_set decompress_flags SKIP_SYSTEM_NCMP)); [|done].
    pose proof (try_system_decompressor_extends true id s1) as H2.
    destruct (try_system_decompressor_Ok true id s1) as (r2 & s2 & Hrun2 & _).
    rewrite Hrun2 in H2 |- *. simpl in H2. by eapply cache_extends_trans.
  - destruct (negb (flag_set decompress_flags SKIP_SYSTEM_NCMP));
      [|apply cache_extends_refl].
    pose proof (try_system_decompressor_extends true id s) as H2.
    destruct (try_system_decompressor_Ok true id s) as (r2 & s2 & Hrun2 & _).
    by rewrite Hrun2 in H2 |- *.
Qed.

Lemma try_decompressors_cache (decompress_flags id extra : Z)
    (cs : list (option Resource)) (s : State) :
  st_id_to_res (try_decompressors decompress_flags id extra cs s).2 = st_id_to_res s.
Proof.
  destruct (try_decompressors decompress_flags id extra cs s) as [[[]|e] s'] eqn:Hrun.
  - apply try_decompressors_Ok in Hrun as (l1 & c & l2 & _ & _ & Hatt).
    by apply attempt_Ok in Hatt as (data & -> & _).
  - by apply try_decompressors_Throw in Hrun as (_ & _ & ->).
Qed.

(** X5.  [decompress_resource] only ever adds to the cache of system
    decompressors.  Whatever the outcome of the call, the entries that were
    in the cache are still there, unchanged, and an entry that was not is a
    resource of type dcmp or ncmp, without flags, that holds the contents
    of the file named after its type and id and sits under the key of its
    type and id. *)
Theorem decompress_resource_cache (decompress_flags : Z)
    (context_rf : option ResourceFile) (s : State) :
  cache_extends (st_id_to_res s)
    (st_id_to_res (decompress_resource decompress_flags context_rf s).2).
Proof.
  unfold decompress_resource, mbind, M_bind, get_res, liftR, throwM, mret, M_ret.
  simpl.
  destruct (negb (flag_set (res_flags (st_res s)) FLAG_COMPRESSED));
    [apply cache_extends_refl|].
  destruct (_ && _); [apply cache_extends_refl|].
  destruct (flag_set decompress_flags DISABLED); [apply cache_extends_refl|].
  destruct (_ <? _); [apply cache_extends_refl|].
  destruct (negb (header_magic _ =? _)); [apply cache_extends_refl|].
  destruct (negb (flag_set (attributes _) 1)); [apply cache_extends_refl|].
  destruct (header_ids _) as [[id extra]|]; [|apply cache_extends_refl].
  pose proof (collect_decompressors_extends decompress_flags context_rf id s) as Hext.
  destruct (collect_decompressors_Ok decompress_flags context_rf id s)
    as (cs & s1 & Hcollect & _).
  rewrite Hcollect in Hext |- *. simpl in Hext.
  destruct (bool_decide (cs = [])); [done|].
  by rewrite try_decompressors_cache.
Qed.

End Cache.

(* ================================================================== *)
(** * The files of the system decompressors *)
(* ================================================================== *)

Lemma length_append (s t : string) :
  String.length (s +:+ t) = (String.length s + String.length t)%nat.
Proof. induction s as [|c s IH]; simpl; [done | by rewrite IH]. Qed.

Lemma append_inj_r (s1 s2 t : string) : s1 +:+ t = s2 +:+ t → s1 = s2.
Proof.
  revert s2. induction s1 as [|c1 s1 IH]; intros [|c2 s2] Heq.
  - done.
  - apply (f_equal String.length) in Heq. rewrite !length_append in Heq.
    simpl in Heq. exfalso. lia.
  - apply (f_equal String.length) in Heq. rewrite !length_append in Heq.
    simpl in Heq. exfalso. lia.
  - change (String c1 (s1 +:+ t) = String c2 (s2 +:+ t)) in Heq.
    injection Heq as -> Heq. f_equal. by apply IH.
Qed.

(** X6.  Two system decompressors never share their file.  The name of the
    file tells the kind (dcmp or ncmp) and the id, negative ids included;
    it is under their keys in the cache, not under their file names, that a
    dcmp and an ncmp of the same negative id meet. *)
Theorem system_decompressor_filename_inj (use_ncmp1 use_ncmp2 : bool) (id1 id2 : Z) :
  system_decompressor_filename use_ncmp1 id1 = system_decompressor_filename use_ncmp2 id2 →
  use_ncmp1 = use_ncmp2 ∧ id1 = id2.
Proof.
  unfold system_decompressor_filename. intros Heq.
  apply (inj (String.append "system_dcmps/")) in Heq.
  destruct use_ncmp1, use_ncmp2; simpl in Heq; try discriminate;
    injection Heq as Heq;
    apply (inj (String.append EmptyString)) in Heq;
    apply append_inj_r in Heq;
    apply (inj pretty) in Heq; done.
Qed.

(** The dcmp and the ncmp of id -1 have the same key and different files. *)
Lemma system_decompressor_filename_inj_scenario :
  system_decompressor_key RESOURCE_TYPE_ncmp (-1)
  = system_decompressor_key RESOURCE_TYPE_dcmp (-1)
  ∧ system_decompressor_filename true (-1) ≠ system_decompressor_filename false (-1).
Proof.
  split; [reflexivity|]. intros Heq.
  destruct (system_decompressor_filename_inj true false (-1) (-1) Heq) as [Hkind _].
  discriminate Hkind.
Defined.

(* ================================================================== *)
(** * The regions of the emulated address space *)
(* ================================================================== *)

Section Regions.
Context `{Env : Environment}.

Lemma allocate_at_inv (mem mem' : MemoryContext) (addr size : Z) :
  allocate_at mem addr size = Ok mem' →
  existsb (overlaps addr size) (mem_regions mem) = false
  ∧ addr + size ≤ 2 ^ 32
  ∧ mem' = {| mem_regions := (addr, size) :: mem_regions mem;
              mem_bytes := mem_bytes mem;
              mem_symbols := mem_symbols mem |}.
Proof.
  unfold allocate_at. destruct (addr =? 0); [done|].
  destruct (Z.ltb_spec (2 ^ 32) (addr + size)); [done|].
  destruct (existsb _ _); [done|]. by intros [= <-].
Qed.

(** X7.  What the set-up of the four data regions needs.  The regions sit
    at fixed addresses, so each has to end before the next one starts: when
    [allocate_regions] succeeds, the output region (decompressed size plus
    extra bytes) has at most 0x60000000 bytes and the compressed resource at
    most 0x400000 bytes, because its working buffer, 256 times as large,
    starts at 0x80000000 and the input region at 0xC0000000.  The four
    regions are then in place on top of the regions there were, and the
    input region starts with the compressed resource. *)
Theorem allocate_regions_fits (mem mem' : MemoryContext) (data : list byte)
    (header : CompressedResourceHeader) (output_extra_bytes : Z) :
  allocate_regions mem data header output_extra_bytes = Ok mem' →
  output_region_size header output_extra_bytes ≤ 0x60000000
  ∧ Z.of_nat (length data) ≤ 0x400000
  ∧ mem_regions mem'
    = [ (input_addr, input_region_size data);
        (working_buffer_addr, working_buffer_region_size data);
        (output_addr, output_region_size header output_extra_bytes);
        (stack_addr, stack_region_size) ] ++ mem_regions mem
  ∧ mem_read mem' input_addr (Z.of_nat (length data)) = Ok data.
Proof.
  unfold allocate_regions.
  intros (mem1 & H1 & Hrest)%result_bind_Ok.
  apply result_bind_Ok in Hrest as (mem2 & H2 & Hrest).
  apply result_bind_Ok in Hrest as (mem3 & H3 & Hrest).
  apply result_bind_Ok in Hrest as (mem4 & H4 & Hwrite).
  apply mem_write_Ok in Hwrite as ->.
  pose proof (fun x => allocate_at_range_mapped _ _ _ _ x H4) as Hinput.
  apply allocate_at_inv in H1 as (_ & _ & ->).
  apply allocate_at_inv in H2 as (_ & _ & ->).
  apply allocate_at_inv in H3 as (Hfree3 & _ & ->).
  apply allocate_at_inv in H4 as (Hfree4 & _ & ->).
  cbn [mem_regions existsb] in Hfree3, Hfree4.
  apply orb_false_iff in Hfree3 as [Hout _].
  apply orb_false_iff in Hfree4 as [Hwork _].
  unfold overlaps in Hout, Hwork. cbn [fst snd] in Hout, Hwork.
  unfold working_buffer_addr, output_addr, input_addr, working_buffer_region_size,
    input_region_size in Hout, Hwork.
  split.
  { apply andb_false_iff in Hout as [Hlt|Hlt]; apply Z.ltb_ge in Hlt; lia. }
  split.
  { apply andb_false_iff in Hwork as [Hlt|Hlt]; apply Z.ltb_ge in Hlt; lia. }
  split; [done|].
  apply mem_read_poke_same; [by rewrite Nat2Z.id|].
  intros x Hx. apply Hinput. unfold input_region_size. lia.
Qed.

End Regions.

(** The regions for a resource of twenty bytes that announces four. *)
Lemma allocate_regions_fits_scenario :
  let data := sample_data 0 4 [x01; x02; x03; x04] in
  ∃ mem',
    allocate_regions MemoryContext_new data (sample_header_fields data) 0 = Ok mem'
    ∧ mem_regions mem'
      = [(0xC0000000, 0x114); (0x80000000, 0x1400); (0x20000000, 4); (0x10000000, 0x4000)]
    ∧ mem_read mem' 0xC0000000 20 = Ok data.
Proof.
  intros data.
  destruct (allocate_regions MemoryContext_new data (sample_header_fields data) 0)
    as [mem'|e] eqn:Hrun; [|vm_compute in Hrun; discriminate].
  destruct (allocate_regions_fits _ _ _ _ _ Hrun) as (_ & _ & Hregions & Hread).
  exists mem'. split; [reflexivity|]. split; [exact Hregions | exact Hread].
Defined.

(* ================================================================== *)
(** * The PowerPC side of [decompress_resource] *)
(* ================================================================== *)

Section PowerPC.
Context `{Env : Environment}.

Ltac ppc_frame_ranges :=
  rewrite ?length_be32_bytes in *;
  unfold offsetof_set_r2_opcode, ppc_frame_addr, stack_addr, stack_region_size,
    sizeof_PPC32DecompressorInputHeader in *;
  lia.

(** X8.  What a PowerPC decompressor finds when it is entered.  With the
    stack region mapped, [run_ppc] hands the interpreter a machine in which
    r1 points to a frame of 40 bytes that ends where the stack region ends;
    r2 is the second word of the transition vector; r3 is the address of
    the compressed data after its header, r4 the output region, r5 the
    resource header for a version 9 resource and the working buffer
    otherwise, r6 the size of the input region less the header; the link
    register and the saved link register of the frame hold the address of
    the two instructions at the end of the frame, [li r2, -1] and [sc]; and
    the program counter is the entry point.  Returning from the
    decompressor thus runs the system call with r2 = -1, the one case in
    which the handler ends the emulation; with any other r2 it throws
    [runtime_error("unimplemented syscall")]; it never returns. *)
Theorem ppc_entry_state (ld : LoadedDecompressor) (mem : MemoryContext)
    (data : list byte) (header : CompressedResourceHeader)
    (debugger : option DebuggerMode) :
  (∀ x, stack_addr ≤ x < stack_addr + stack_region_size → mapped mem x = true) →
  let return_addr := ppc_frame_addr + offsetof_set_r2_opcode in
  ∃ emu0,
    run_ppc ld mem data header debugger
    = (emu ← PPC32Emulator_execute ppc_syscall_handler debugger emu0; Ok (ppc_mem emu))
    ∧ ppc_r (ppc_regs emu0) 1%nat = ppc_frame_addr
    ∧ ppc_frame_addr + sizeof_PPC32DecompressorInputHeader
      = stack_addr + stack_region_size
    ∧ ppc_r (ppc_regs emu0) 2%nat = u32 (entry_r2 ld)
    ∧ ppc_r (ppc_regs emu0) 3%nat = input_addr + sizeof_CompressedResourceHeader
    ∧ ppc_r (ppc_regs emu0) 4%nat = output_addr
    ∧ ppc_r (ppc_regs emu0) 5%nat
      = (if header_version header =? 9 then input_addr else working_buffer_addr)
    ∧ ppc_r (ppc_regs emu0) 6%nat
      = u32 (input_region_size data - sizeof_CompressedResourceHeader)
    ∧ ppc_lr (ppc_regs emu0) = return_addr
    ∧ ppc_pc (ppc_regs emu0) = u32 (entry_pc ld)
    ∧ read_u32b (ppc_mem emu0) (ppc_frame_addr + 8) = Ok return_addr
    ∧ read_u32b (ppc_mem emu0) (ppc_frame_addr + 20) = Ok (u32 (entry_r2 ld))
    ∧ read_u32b (ppc_mem emu0) return_addr = Ok 0x3840FFFF
    ∧ read_u32b (ppc_mem emu0) (return_addr + 4) = Ok 0x44000002
    ∧ (∀ emu, ∃ e,
         ppc_syscall_handler emu = Throw e
         ∧ e = (if ppc_r (ppc_regs emu) 2%nat =? 0xFFFFFFFF then terminate_emulation
                else runtime_error "unimplemented syscall")).
Proof.
  intros Hstack return_addr. eexists. split.
  { unfold run_ppc. rewrite mem_at_Ok; [reflexivity|].
    apply load_is_Some. intros x Hx. apply Hstack.
    unfold sizeof_PPC32DecompressorInputHeader in Hx. ppc_frame_ranges. }
  cbn [ppc_regs ppc_mem ppc_r ppc_lr ppc_pc ppc_set_r].
  split; [by rewrite !fn_lookup_insert_ne, fn_lookup_insert by done|].
  split; [ppc_frame_ranges|].
  split; [by rewrite !fn_lookup_insert_ne, fn_lookup_insert by done|].
  split; [by rewrite !fn_lookup_insert_ne, fn_lookup_insert by done|].
  split; [by rewrite !fn_lookup_insert_ne, fn_lookup_insert by done|].
  split.
  { rewrite !fn_lookup_insert_ne, fn_lookup_insert by done.
    by destruct (header_version header =? 9). }
  split; [by rewrite fn_lookup_insert|].
  split; [done|]. split; [done|].
  split.
  { unfold read_u32b. rewrite !mem_read_poke_disjoint by ppc_frame_ranges.
    rewrite mem_read_poke_same;
      [|done|intros x Hx; rewrite !mapped_poke; apply Hstack; ppc_frame_ranges].
    cbn [mbind result_bind]. by rewrite be32_bytes_value. }
  split.
  { unfold read_u32b. rewrite !mem_read_poke_disjoint by ppc_frame_ranges.
    rewrite mem_read_poke_same;
      [|done|intros x Hx; rewrite !mapped_poke; apply Hstack; ppc_frame_ranges].
    cbn [mbind result_bind]. by rewrite be32_bytes_value. }
  split.
  { unfold read_u32b, return_addr, offsetof_set_r2_opcode.
    rewrite !mem_read_poke_disjoint by ppc_frame_ranges.
    rewrite mem_read_poke_same;
      [|done|intros x Hx; rewrite !mapped_poke; apply Hstack; ppc_frame_ranges].
    cbn [mbind result_bind]. by rewrite be32_bytes_value. }
  split.
  { unfold read_u32b, return_addr, offsetof_set_r2_opcode.
    replace (ppc_frame_addr + 32 + 4) with (ppc_frame_addr + 36) by lia.
    rewrite mem_read_poke_same;
      [|done|intros x Hx; rewrite !mapped_poke; apply Hstack; ppc_frame_ranges].
    cbn [mbind result_bind]. by rewrite be32_bytes_value. }
  intros emu. unfold ppc_syscall_handler.
  destruct (ppc_r (ppc_regs emu) 2%nat =? 0xFFFFFFFF); eauto.
Qed.

End PowerPC.

(** An ncmp whose transition vector names the entry point 0xF0000100 and
    the r2 value 0xF0002000, about to decompress a version 9 resource. *)
Lemma ppc_entry_state_scenario :
  let ld := {| entry_pc := 0xF0000100; entry_r2 := 0xF0002000; is_ppc := true;
               loaded_mem := MemoryContext_new |} in
  let mem := {| mem_regions := [(0x10000000, 0x4000)]; mem_bytes := ∅;
                mem_symbols := ∅ |} in
  let data := sample_data 128 4 [x01; x02; x03; x04] in
  ∃ emu0,
    run_ppc (Env := sample_env) ld mem data (sample_header_fields data) None
    = Ok (ppc_mem emu0)
    ∧ ppc_r (ppc_regs emu0) 1%nat = 0x10003FD8
    ∧ ppc_lr (ppc_regs emu0) = 0x10003FF8
    ∧ read_u32b (ppc_mem emu0) 0x10003FF8 = Ok 0x3840FFFF
    ∧ read_u32b (ppc_mem emu0) 0x10003FFC = Ok 0x44000002.
Proof.
  intros ld mem data.
  destruct (ppc_entry_state (Env := sample_env) ld mem data (sample_header_fields data)
              None) as (emu0 & Hrun & Hr1 & _ & _ & _ & _ & _ & _ & Hlr & _ & _ & _
                        & Hli & Hsc & _).
  - intros x Hx. unfold stack_addr, stack_region_size in Hx.
    unfold mapped, in_region. simpl.
    apply orb_true_iff. left. apply andb_true_iff. split; [apply Z.leb_le | apply Z.ltb_lt]; lia.
  - exists emu0. split; [exact Hrun|]. split; [exact Hr1|]. split; [exact Hlr|].
    split; [exact Hli | exact Hsc].
Defined.

(* ================================================================== *)
(** * Further properties of the two syscall handlers *)
(* ================================================================== *)

Section Traps.
Context `{Env : Environment}.

Lemma toolbox_number (opcode : Z) :
  Z.testbit opcode 11 = true →
  decode_trap opcode
  = {| trap_number := Z.land opcode 0x0BFF;
       auto_pop := flag_set opcode 0x0400;
       trap_flags := 0 |}
  ∧ Z.testbit (Z.land opcode 0x0BFF) 11 = true.
Proof.
  intros Hbit. unfold decode_trap.
  change 0x0800 with (2 ^ 11). rewrite flag_set_bit, Hbit by lia.
  split; [done|]. by rewrite Z.land_spec, Hbit.
Qed.

Lemma differ_at_bit_11 (t c : Z) :
  Z.testbit t 11 = true → Z.testbit c 11 = false → (t =? c) = false.
Proof. intros Ht Hc. apply Z.eqb_neq. intros ->. congruence. Qed.

(** X9.  Toolbox traps.  An opcode with bit 11 set names a toolbox trap,
    and its trap number keeps that bit; the numbers the two handlers know
    (0x1E, 0x22, 0x25, 0x29, 0x2A, 0x2E, 0x46) are all numbers of OS traps.
    So the handler that [decompress_resource] installs skips every toolbox
    trap, leaving registers, memory and its table of call stubs as they are,
    while the handler of m68kexec stops on every one of them with a
    [runtime_error]. *)
Theorem toolbox_traps (opcode : Z) (emu : M68KEmulator) (traps : gmap Z Z) :
  Z.testbit opcode 11 = true →
  shim_syscall_handler opcode (emu, traps) = Ok (emu, traps)
  ∧ m68kexec_syscall_handler opcode emu
    = Throw (runtime_error
        ("unimplemented toolbox trap (num=" +:+ format_hX (Z.land opcode 0x0BFF)
         +:+ ", auto_pop=" +:+ (if Z.testbit opcode 10 then "true" else "false")
         +:+ ")" +:+ newline)).
Proof.
  intros Hbit. destruct (toolbox_number opcode Hbit) as [Hdecode Hnum].
  split.
  - unfold shim_syscall_handler. rewrite Hdecode. cbn [trap_number].
    by rewrite !(differ_at_bit_11 _ _ Hnum).
  - unfold m68kexec_syscall_handler. rewrite Hdecode. cbn [trap_number auto_pop].
    rewrite !(differ_at_bit_11 _ _ Hnum) by done. cbn [orb].
    change 0x0800 with (2 ^ 11). rewrite flag_set_bit, Hnum by lia.
    change 0x0400 with (2 ^ 10). rewrite flag_set_bit by lia.
    rewrite <- Z.land_assoc. done.
Qed.

(** *** NewPtr *)

Lemma allocate_at_read_byte (mem mem' : MemoryContext) (addr size x : Z) :
  allocate_at mem addr size = Ok mem' → mapped mem x = true →
  read_byte mem' x = read_byte mem x.
Proof.
  intros Halloc Hmapped. unfold read_byte.
  rewrite (allocate_at_mapped _ _ _ _ x Halloc), Hmapped, orb_true_r.
  by apply allocate_at_Ok in Halloc as (_ & _ & _ & ->).
Qed.

Lemma allocate_at_block_size (mem mem' : MemoryContext) (addr size : Z) :
  allocate_at mem addr size = Ok mem' → get_block_size mem' addr = Ok size.
Proof.
  intros (_ & _ & _ & ->)%allocate_at_Ok. unfold get_block_size. simpl.
  by rewrite Z.eqb_refl.
Qed.

(** X10.  NewPtr in m68kexec.  When the handler returns from trap 0x1E, A0
    holds the address of a block that is new: none of its [D0] bytes was
    mapped before, all of them are now, and the block is known to
    [get_block_size] with the size asked for.  The address is not zero, D0
    holds the result code 0, every byte that was mapped reads as before, and
    the other registers are untouched. *)
Theorem newptr_allocates (opcode : Z) (emu emu' : M68KEmulator) :
  trap_number (decode_trap opcode) = 0x1E →
  m68kexec_syscall_handler opcode emu = Ok emu' →
  let size := regs_d (emu_regs emu) 0%nat in
  let addr := regs_a (emu_regs emu') 0%nat in
  0 < addr < 2 ^ 32
  ∧ regs_d (emu_regs emu') 0%nat = 0
  ∧ get_block_size (emu_mem emu') addr = Ok size
  ∧ (∀ x, addr ≤ x < addr + size →
       mapped (emu_mem emu) x = false ∧ mapped (emu_mem emu') x = true)
  ∧ (∀ x, mapped (emu_mem emu) x = true →
       read_byte (emu_mem emu') x = read_byte (emu_mem emu) x)
  ∧ (∀ i, i ≠ 0%nat →
       regs_d (emu_regs emu') i = regs_d (emu_regs emu) i
       ∧ regs_a (emu_regs emu') i = regs_a (emu_regs emu) i)
  ∧ regs_pc (emu_regs emu') = regs_pc (emu_regs emu)
  ∧ regs_sr (emu_regs emu') = regs_sr (emu_regs emu).
Proof.
  intros Htrap. unfold m68kexec_syscall_handler. rewrite Htrap.
  change (0x1E =? 0x1E) with true. cbv iota.
  intros ([addr mem'] & Halloc & Hrest)%result_bind_Ok.
  destruct (Z.eqb_spec addr 0) as [|Hnz]; [done|].
  injection Hrest as <-. cbn [emu_regs emu_mem].
  apply allocate_Ok in Halloc as [Hrange Halloc].
  assert (regs_a (set_d (set_a (emu_regs emu) 0 addr) 0 0) 0%nat = addr) as Ha0.
  { simpl. rewrite fn_lookup_insert. by apply u32_small. }
  rewrite Ha0.
  split; [lia|]. split; [done|].
  split; [by eapply allocate_at_block_size|].
  split.
  { intros x Hx. split; [|by eapply allocate_at_range_mapped].
    apply allocate_at_Ok in Halloc as (_ & _ & Hfree & _). by apply Hfree. }
  split; [intros x Hx; by eapply allocate_at_read_byte|].
  split; [|done].
  intros i Hi. simpl. by rewrite !fn_lookup_insert_ne.
Qed.

(** *** NewHandle and GetHandleSize *)

Lemma find_region_base_None (regions : list (Z * Z)) (addr size base : Z) :
  existsb (overlaps addr size) regions = false →
  (∀ region, region ∈ regions → 0 ≤ region.2) →
  addr < base < addr + size →
  find (fun region : Z * Z => region.1 =? base) regions = None.
Proof.
  intros Hfree Hsizes Hbase.
  induction regions as [|region regions IH]; [done|].
  simpl in Hfree. apply orb_false_iff in Hfree as [Hhead Htail].
  simpl. destruct (Z.eqb_spec region.1 base) as [Heq|_].
  - exfalso. pose proof (Hsizes region ltac:(by left)) as Hpos.
    unfold overlaps in Hhead. apply andb_false_iff in Hhead as [Hlt|Hlt];
      apply Z.ltb_ge in Hlt; lia.
  - apply IH; [done|]. intros r Hr. apply Hsizes. by right.
Qed.

(** X11.  NewHandle followed by GetHandleSize, in m68kexec.  NewHandle
    allocates the block four bytes larger than asked and stores in its first
    four bytes the address of the fifth, which is the master pointer the
    handle leads to.  GetHandleSize reads that pointer and asks
    [get_block_size] for the block that starts there; no block does, since
    the one just allocated starts four bytes earlier.  So for a handle that
    NewHandle has just returned for a size that is not zero, in a memory
    whose regions have sizes that are not negative, GetHandleSize answers
    with the error code -111 in D0 and not with the size. *)
Theorem gethandlesize_of_newhandle (opcode1 opcode2 : Z) (emu emu' : M68KEmulator) :
  trap_number (decode_trap opcode1) = 0x22 →
  trap_number (decode_trap opcode2) = 0x25 →
  0 < regs_d (emu_regs emu) 0%nat < 2 ^ 32 - 4 →
  (∀ region, region ∈ mem_regions (emu_mem emu) → 0 ≤ region.2) →
  m68kexec_syscall_handler opcode1 emu = Ok emu' →
  let handle := regs_a (emu_regs emu') 0%nat in
  read_u32b (emu_mem emu') handle = Ok (handle + 4)
  ∧ get_block_size (emu_mem emu') handle = Ok (regs_d (emu_regs emu) 0%nat + 4)
  ∧ ∃ emu'',
      m68kexec_syscall_handler opcode2 emu' = Ok emu''
      ∧ regs_d (emu_regs emu'') 0%nat = u32 (-111)
      ∧ emu_mem emu'' = emu_mem emu'.
Proof.
  intros Htrap1 Htrap2 Hsize Hsizes.
  unfold m68kexec_syscall_handler at 1. rewrite Htrap1.
  change (0x22 =? 0x1E) with false. change (0x22 =? 0x22) with true. cbv iota.
  rewrite (u32_small (_ + 4)) by lia.
  intros ([addr mem1] & Halloc & Hrest)%result_bind_Ok.
  destruct (Z.eqb_spec addr 0) as [|Hnz]; [done|].
  apply result_bind_Ok in Hrest as (mem2 & Hwrite & Hrest).
  injection Hrest as <-. cbn [emu_regs emu_mem].
  apply allocate_Ok in Halloc as [Hrange Halloc].
  assert (regs_a (set_d (set_a (emu_regs emu) 0 addr) 0 0) 0%nat = addr) as Ha0.
  { simpl. rewrite fn_lookup_insert. by apply u32_small. }
  rewrite Ha0.
  pose proof (allocate_at_Ok _ _ _ _ Halloc) as (_ & Hfit & _ & Hmem1).
  assert (u32 (addr + 4) = addr + 4) as Hptr by (apply u32_small; lia).
  rewrite Hptr in Hwrite.
  unfold write_u32b in Hwrite.
  pose proof (mem_write_Ok _ _ _ _ Hwrite) as ->.
  assert (∀ x, addr ≤ x < addr + Z.of_nat (length (be32_bytes (addr + 4))) →
            mapped mem1 x = true) as Hmapped.
  { intros x Hx. rewrite length_be32_bytes in Hx.
    eapply allocate_at_range_mapped; [done|]. lia. }
  assert (read_u32b (poke mem1 addr (be32_bytes (addr + 4))) addr = Ok (addr + 4))
    as Hread.
  { unfold read_u32b. rewrite mem_read_poke_same by done.
    cbn [mbind result_bind]. rewrite be32_bytes_value. f_equal.
    apply Z.mod_small. lia. }
  assert (get_block_size (poke mem1 addr (be32_bytes (addr + 4))) (addr + 4)
          = Throw (memory_error NotARegionBase)) as Hblock.
  { unfold get_block_size. cbn [poke mem_regions]. rewrite Hmem1. cbn [mem_regions].
    cbn [find fst]. destruct (Z.eqb_spec addr (addr + 4)) as [|_]; [lia|].
    rewrite (find_region_base_None _ addr (regs_d (emu_regs emu) 0%nat + 4)); [done| |done|lia].
    unfold allocate_at in Halloc.
    destruct (addr =? 0); [done|]. destruct (2 ^ 32 <? _); [done|].
    by destruct (existsb _ _). }
  split; [done|].
  split.
  { unfold get_block_size. cbn [poke mem_regions]. rewrite Hmem1. cbn [mem_regions find fst].
    by rewrite Z.eqb_refl. }
  eexists. split; [|split].
  - unfold m68kexec_syscall_handler. rewrite Htrap2.
    change (0x25 =? 0x1E) with false. change (0x25 =? 0x22) with false.
    change (0x25 =? 0x25) with true. cbv iota.
    cbn [emu_regs emu_mem]. rewrite Ha0, Hread. cbn [mbind result_bind].
    rewrite Hblock. cbn [is_out_of_range]. reflexivity.
  - simpl. by rewrite fn_lookup_insert.
  - reflexivity.
Qed.

End Traps.

(** Trap 0xA9F0 (a toolbox trap, with bit 11 set) in the memory of the
    BlockMove scenario. *)
Lemma toolbox_traps_scenario :
  shim_syscall_handler (Env := sample_env) 0xA9F0 (blockmove_emu, ∅) = Ok (blockmove_emu, ∅)
  ∧ is_ok (m68kexec_syscall_handler (Env := sample_env) 0xA9F0 blockmove_emu) = false.
Proof.
  destruct (toolbox_traps (Env := sample_env) 0xA9F0 blockmove_emu ∅) as [Hshim Hexec].
  - reflexivity.
  - split; [exact Hshim|]. rewrite Hexec. reflexivity.
Defined.

(** NewPtr for four bytes in the memory of the BlockMove scenario, which has
    two regions: the sample environment picks 0x40002000. *)
Lemma newptr_allocates_scenario :
  ∃ emu',
    m68kexec_syscall_handler (Env := sample_env) 0xA11E blockmove_emu = Ok emu'
    ∧ regs_a (emu_regs emu') 0%nat = 0x40002000
    ∧ get_block_size (emu_mem emu') 0x40002000 = Ok 4.
Proof.
  destruct (m68kexec_syscall_handler (Env := sample_env) 0xA11E blockmove_emu)
    as [emu'|e] eqn:Hrun; [|vm_compute in Hrun; discriminate].
  destruct (newptr_allocates (Env := sample_env) 0xA11E blockmove_emu emu' eq_refl Hrun)
    as (_ & _ & Hsize & _).
  assert (regs_a (emu_regs emu') 0%nat = 0x40002000) as Ha0.
  { vm_compute in Hrun. injection Hrun as <-. reflexivity. }
  exists emu'. split; [reflexivity|]. split; [exact Ha0|].
  rewrite Ha0 in Hsize. exact Hsize.
Defined.

(** NewHandle for four bytes, then GetHandleSize on the handle. *)
Lemma gethandlesize_of_newhandle_scenario :
  ∃ emu' emu'',
    m68kexec_syscall_handler (Env := sample_env) 0xA122 blockmove_emu = Ok emu'
    ∧ m68kexec_syscall_handler (Env := sample_env) 0xA025 emu' = Ok emu''
    ∧ regs_d (emu_regs emu'') 0%nat = 0xFFFFFF91.
Proof.
  destruct (m68kexec_syscall_handler (Env := sample_env) 0xA122 blockmove_emu)
    as [emu'|e] eqn:Hrun; [|vm_compute in Hrun; discriminate].
  destruct (gethandlesize_of_newhandle (Env := sample_env) 0xA122 0xA025
              blockmove_emu emu') as (_ & _ & emu'' & Hsize & Hd0 & _).
  - reflexivity.
  - reflexivity.
  - vm_compute. split; reflexivity.
  - intros region Hregion. vm_compute in Hregion.
    apply elem_of_cons in Hregion as [-> | Hregion]; [vm_compute; discriminate|].
    apply list_elem_of_singleton in Hregion as ->. vm_compute. discriminate.
  - exact Hrun.
  - exists emu', emu''. split; [reflexivity|]. split; [exact Hsize | exact Hd0].
Defined.

(* ================================================================== *)
(** * m68kexec: the architecture, the segments and the stack *)
(* ================================================================== *)

Lemma prefix_app (p s : string) : String.prefix p (p +:+ s) = true.
Proof.
  induction p as [|c p IH]; simpl; [by destruct s|].
  destruct (Ascii.ascii_dec c c); [done | congruence].
Qed.

(** X13.  An executable named on the command line decides the architecture, for
    any file name. *)
Theorem select_architecture_load (file : string) (arch : Architecture) :
  select_architecture_arg arch ("--load-pe=" +:+ file) = X86
  ∧ select_architecture_arg arch ("--load-dol=" +:+ file) = PPC32.
Proof.
  split.
  - unfold select_architecture_arg.
    rewrite (prefix_app "--load-pe=" file). reflexivity.
  - unfold select_architecture_arg.
    rewrite (prefix_app "--load-dol=" file).
    assert (String.prefix "--load-pe=" ("--load-dol=" +:+ file) = false) as -> by done.
    reflexivity.
Qed.

(** A string that starts with [p] is [p] followed by something. *)
Lemma prefix_inv (p s : string) : String.prefix p s = true → ∃ t, s = p +:+ t.
Proof.
  revert s. induction p as [|c p IH]; intros s Hprefix; [by exists s|].
  destruct s as [|c' s]; [done|]. simpl in Hprefix.
  destruct (Ascii.ascii_dec c c') as [<-|]; [|done].
  destruct (IH s Hprefix) as [t ->]. by exists t.
Qed.

(** An argument that is none of the three architecture options and names
    no executable to load leaves the architecture as it is. *)
Lemma select_architecture_arg_silent (arch : Architecture) (arg : string) :
  arg ∉ ["--m68k"; "--ppc32"; "--x86"] →
  (∀ file, arg ≠ "--load-pe=" +:+ file) →
  (∀ file, arg ≠ "--load-dol=" +:+ file) →
  select_architecture_arg arch arg = arch.
Proof.
  rewrite !not_elem_of_cons. intros (Hm68k & Hppc32 & Hx86 & _) Hpe Hdol.
  unfold select_architecture_arg.
  destruct (String.eqb_spec arg "--m68k"); [done|].
  destruct (String.eqb_spec arg "--ppc32"); [done|].
  destruct (String.eqb_spec arg "--x86"); [done|].
  destruct (String.prefix "--load-pe=" arg) eqn:Hprefix_pe.
  { destruct (prefix_inv _ _ Hprefix_pe) as [file ->]. by destruct (Hpe file). }
  destruct (String.prefix "--load-dol=" arg) eqn:Hprefix_dol; [|done].
  destruct (prefix_inv _ _ Hprefix_dol) as [file ->]. by destruct (Hdol file).
Qed.

Lemma fold_left_silent (rest : list string) (arch : Architecture) :
  (∀ arg, arg ∈ rest →
     (arg ∉ ["--m68k"; "--ppc32"; "--x86"])
     ∧ (∀ file, arg ≠ "--load-pe=" +:+ file)
     ∧ (∀ file, arg ≠ "--load-dol=" +:+ file)) →
  fold_left select_architecture_arg rest arch = arch.
Proof.
  revert arch. induction rest as [|arg rest IH]; intros arch Hsilent; [done|].
  simpl. destruct (Hsilent arg) as (Hoptions & Hpe & Hdol); [by left|].
  rewrite select_architecture_arg_silent by done.
  apply IH. intros arg' Harg'. apply Hsilent. by right.
Qed.

(** X12.  The architecture is the one of the last argument that names one.
    The arguments that name an architecture are [--m68k], [--ppc32] and
    [--x86], and [--load-pe=<file>] (X86) and [--load-dol=<file>] (PPC32)
    for any file name.  When the arguments [rest] are none of these, a
    command line that consists of them alone runs the 68K interpreter, and
    a command line in which they follow an argument that names an
    architecture runs the interpreter of that architecture, whatever the
    arguments before it are, program name included. *)
Theorem select_architecture_last (prog : string) (rest : list string) :
  (∀ arg, arg ∈ rest →
     (arg ∉ ["--m68k"; "--ppc32"; "--x86"])
     ∧ (∀ file, arg ≠ "--load-pe=" +:+ file)
     ∧ (∀ file, arg ≠ "--load-dol=" +:+ file)) →
  select_architecture (prog :: rest) = M68K
  ∧ ∀ (before : list string) (file : string),
      select_architecture (prog :: before ++ "--m68k" :: rest) = M68K
      ∧ select_architecture (prog :: before ++ "--ppc32" :: rest) = PPC32
      ∧ select_architecture (prog :: before ++ "--x86" :: rest) = X86
      ∧ select_architecture (prog :: before ++ ("--load-pe=" +:+ file) :: rest) = X86
      ∧ select_architecture (prog :: before ++ ("--load-dol=" +:+ file) :: rest) = PPC32.
Proof.
  intros Hsilent. unfold select_architecture. cbn [tail].
  split; [by apply fold_left_silent|].
  intros before file.
  rewrite !fold_left_app. cbn [fold_left].
  set (arch := fold_left select_architecture_arg before M68K). clearbody arch.
  assert (select_architecture_arg arch ("--load-pe=" +:+ file) = X86) as ->.
  { unfold select_architecture_arg. by rewrite (prefix_app "--load-pe=" file). }
  assert (select_architecture_arg arch ("--load-dol=" +:+ file) = PPC32) as ->.
  { unfold select_architecture_arg. rewrite (prefix_app "--load-dol=" file).
    by assert (String.prefix "--load-pe=" ("--load-dol=" +:+ file) = false) as -> by done. }
  change (select_architecture_arg arch "--m68k") with M68K.
  change (select_architecture_arg arch "--ppc32") with PPC32.
  change (select_architecture_arg arch "--x86") with X86.
  by rewrite !fold_left_silent.
Qed.

(** [m68kexec --m68k --load-dol=a.dol --trace] runs the PowerPC interpreter,
    [m68kexec --load-pe=a.exe --m68k --trace] and [m68kexec --trace] the
    68K one. *)
Lemma select_architecture_last_scenario :
  select_architecture ["m68kexec"; "--m68k"; "--load-dol=a.dol"; "--trace"] = PPC32
  ∧ select_architecture ["m68kexec"; "--load-pe=a.exe"; "--m68k"; "--trace"] = M68K
  ∧ select_architecture ["m68kexec"; "--trace"] = M68K.
Proof.
  destruct (select_architecture_last "m68kexec" ["--trace"]) as [Hnone Hlast].
  - intros arg Harg. apply list_elem_of_singleton in Harg. subst arg.
    split; [|split].
    + rewrite !not_elem_of_cons. repeat split; [discriminate..|apply not_elem_of_nil].
    + intros file Heq. vm_compute in Heq. discriminate Heq.
    + intros file Heq. vm_compute in Heq. discriminate Heq.
  - split; [|split].
    + exact (proj2 (proj2 (proj2 (proj2 (Hlast ["--m68k"] "a.dol"))))).
    + exact (proj1 (Hlast ["--load-pe=a.exe"] "")).
    + exact Hnone.
Defined.

(** *** Segments *)

Lemma load_app (mem : MemoryContext) (n1 n2 : nat) (addr : Z) :
  load mem addr (n1 + n2)
  = match load mem addr n1, load mem (addr + Z.of_nat n1) n2 with
    | Some l1, Some l2 => Some (l1 ++ l2)
    | _, _ => None
    end.
Proof.
  revert addr. induction n1 as [|n1 IH]; intros addr.
  - simpl. rewrite Z.add_0_r. by destruct (load mem addr n2).
  - change (S n1 + n2)%nat with (S (n1 + n2)). cbn [load].
    destruct (read_byte mem addr) as [b|]; [|done].
    rewrite IH. replace (addr + 1 + Z.of_nat n1) with (addr + Z.of_nat (S n1)) by lia.
    destruct (load mem (addr + 1) n1) as [l1|]; [|done].
    by destruct (load mem (addr + Z.of_nat (S n1)) n2).
Qed.

Lemma mem_write_mapped (mem : MemoryContext) (addr : Z) (bs : list byte) :
  (∀ x, addr ≤ x < addr + Z.of_nat (length bs) → mapped mem x = true) →
  mem_write mem addr bs = Ok (poke mem addr bs).
Proof.
  intros Hmapped. unfold mem_write. rewrite mem_at_Ok; [done|].
  rewrite Nat2Z.id. by apply load_is_Some.
Qed.

(** X14.  A memory segment of m68kexec.  Where [allocate_at] grants the
    region, setting up the segment cannot fail, and the region then reads
    as the data cut to the size of the segment when they are longer, or
    followed by zeroes up to that size when they are shorter; no other
    region is created. *)
Theorem load_segment_contents (mem mem1 : MemoryContext) (addr size : Z)
    (data : list byte) :
  0 ≤ addr → 0 ≤ size →
  allocate_at mem addr size = Ok mem1 →
  ∃ mem',
    load_segment mem addr size data = Ok mem'
    ∧ mem_read mem' addr size
      = Ok (take (Z.to_nat size) (data ++ replicate (Z.to_nat size) x00))
    ∧ mem_regions mem' = (addr, size) :: mem_regions mem.
Proof.
  intros Haddr Hsize Halloc. unfold load_segment. rewrite Halloc.
  cbn [mbind result_bind].
  pose proof (fun x => allocate_at_range_mapped _ _ _ _ x Halloc) as Hmapped.
  pose proof (allocate_at_inv _ _ _ _ Halloc) as (_ & Hfit & Hmem1).
  assert (mem_regions mem1 = (addr, size) :: mem_regions mem) as Hregions
    by (by rewrite Hmem1).
  destruct (Z.leb_spec size (Z.of_nat (length data))) as [Hle|Hgt].
  - assert (length (take (Z.to_nat size) data) = Z.to_nat size) as Hlen
      by (rewrite length_take; lia).
    rewrite mem_write_mapped by (intros x Hx; apply Hmapped; lia).
    eexists. split; [done|]. split; [|done].
    rewrite take_app_le by lia.
    apply mem_read_poke_same; [done|]. intros x Hx. apply Hmapped. lia.
  - rewrite mem_write_mapped by (intros x Hx; apply Hmapped; lia).
    cbn [mbind result_bind]. unfold mem_memset.
    rewrite u32_small by lia.
    set (zeroes := replicate (Z.to_nat (size - Z.of_nat (length data))) (byte_of 0)).
    assert (length zeroes = Z.to_nat (size - Z.of_nat (length data))) as Hzeroes
      by apply length_replicate.
    rewrite mem_write_mapped
      by (intros x Hx; rewrite mapped_poke; apply Hmapped; lia).
    eexists. split; [done|]. split; [|done].
    unfold mem_read.
    replace (Z.to_nat size) with (length data + length zeroes)%nat by lia.
    rewrite load_app.
    rewrite load_poke_disjoint by lia.
    rewrite load_poke_same by (intros x Hx; apply Hmapped; lia).
    rewrite load_poke_same
      by (intros x Hx; rewrite mapped_poke; apply Hmapped; lia).
    f_equal. rewrite take_app_ge by lia.
    rewrite take_replicate. f_equal. unfold zeroes. f_equal.
    rewrite !length_replicate. lia.
Qed.

(** The segment [1000:8/DEADBEEF]: four bytes of data in a segment of
    eight. *)
Lemma load_segment_contents_scenario :
  ∃ mem',
    load_segment MemoryContext_new 0x1000 8 [xde; xad; xbe; xef] = Ok mem'
    ∧ mem_read mem' 0x1000 8 = Ok [xde; xad; xbe; xef; x00; x00; x00; x00].
Proof.
  destruct (load_segment_contents MemoryContext_new
              {| mem_regions := [(0x1000, 8)]; mem_bytes := ∅; mem_symbols := ∅ |}
              0x1000 8 [xde; xad; xbe; xef]) as (mem' & Hload & Hread & _).
  - lia.
  - lia.
  - reflexivity.
  - exists mem'. split; [exact Hload | exact Hread].
Defined.

(** *** The stack *)

Lemma length_le32_bytes (v : Z) : length (le32_bytes v) = 4%nat.
Proof. done. Qed.

Lemma le32_bytes_value (v : Z) : be_value (rev (le32_bytes v)) 0 = v mod 2 ^ 32.
Proof. unfold le32_bytes. rewrite rev_involutive. apply be32_bytes_value. Qed.

(** A 32-bit value written and read back in the same byte order. *)
Lemma read_u32_poke (is_little_endian : bool) (mem : MemoryContext) (addr v : Z) :
  (∀ x, addr ≤ x < addr + 4 → mapped mem x = true) →
  read_u32 is_little_endian
    (poke mem addr (if is_little_endian then le32_bytes v else be32_bytes v)) addr
  = Ok (u32 v).
Proof.
  intros Hmapped. unfold read_u32, read_u32l, read_u32b.
  destruct is_little_endian.
  - rewrite mem_read_poke_same by done. cbn [mbind result_bind].
    by rewrite le32_bytes_value.
  - rewrite mem_read_poke_same by done. cbn [mbind result_bind].
    by rewrite be32_bytes_value.
Qed.

Lemma write_u32_inv (is_little_endian : bool) (mem mem' : MemoryContext) (addr v : Z) :
  (if is_little_endian then write_u32l mem addr v else write_u32b mem addr v) = Ok mem' →
  mem' = poke mem addr (if is_little_endian then le32_bytes v else be32_bytes v)
  ∧ ∀ x, addr ≤ x < addr + 4 → mapped mem x = true.
Proof.
  intros Hwrite.
  assert (mem_write mem addr (if is_little_endian then le32_bytes v else be32_bytes v)
          = Ok mem') as Hw by (by destruct is_little_endian).
  split; [by apply mem_write_Ok in Hw|].
  unfold mem_write in Hw. apply result_bind_Ok in Hw as ([] & Hat & _).
  unfold mem_at in Hat.
  destruct (load mem addr _) as [bs|] eqn:Hload; [|done].
  intros x Hx. eapply load_is_Some; [by rewrite Hload|].
  rewrite Nat2Z.id. by destruct is_little_endian.
Qed.

(** What pushing the values does to the stack pointer and to memory. *)
Lemma push_values_inv (is_little_endian : bool) (values_to_push : list Z)
    (mem mem' : MemoryContext) (sp sp' : Z) :
  4 * Z.of_nat (length values_to_push) ≤ sp < 2 ^ 32 →
  push_values is_little_endian mem sp values_to_push = Ok (sp', mem') →
  sp' = sp - 4 * Z.of_nat (length values_to_push)
  ∧ (∀ (i : nat) value, values_to_push !! i = Some value →
       read_u32 is_little_endian mem' (sp - 4 * (Z.of_nat i + 1)) = Ok (u32 value))
  ∧ (∀ x, sp' ≤ x < sp → mapped mem x = true)
  ∧ (∀ x, x < sp' ∨ sp ≤ x → read_byte mem' x = read_byte mem x)
  ∧ mem_regions mem' = mem_regions mem.
Proof.
  revert mem mem' sp sp'.
  induction values_to_push as [|value rest IH]; intros mem mem' sp sp' Hsp.
  - simpl. intros [= <- <-]. split; [lia|]. split; [done|]. split; [lia|]. done.
  - cbn [push_values length] in *.
    rewrite u32_small by lia.
    intros (mem1 & Hwrite & Hrest)%result_bind_Ok.
    apply write_u32_inv in Hwrite as [-> Hmapped].
    apply IH in Hrest as (-> & Hvalues & Hrange & Hother & Hregions); [|lia].
    split; [lia|]. split; [|split; [|split]].
    + intros [|i] v Hv.
      * injection Hv as <-. replace (sp - 4 * (Z.of_nat 0 + 1)) with (sp - 4) by lia.
        unfold read_u32, read_u32l, read_u32b, mem_read.
        assert (load mem' (sp - 4) (Z.to_nat 4)
                = load (poke mem (sp - 4)
                          (if is_little_endian then le32_bytes value
                           else be32_bytes value)) (sp - 4) (Z.to_nat 4)) as Hsame.
        { apply load_ext. intros x Hx. apply Hother. lia. }
        pose proof (read_u32_poke is_little_endian mem (sp - 4) value Hmapped) as Hread.
        unfold read_u32, read_u32l, read_u32b, mem_read in Hread.
        destruct is_little_endian; by rewrite Hsame.
      * replace (sp - 4 * (Z.of_nat (S i) + 1)) with (sp - 4 - 4 * (Z.of_nat i + 1)) by lia.
        by apply Hvalues.
    + intros x Hx. destruct (decide (x < sp - 4)) as [Hlow|Hhigh].
      * rewrite <- (mapped_poke mem (sp - 4) x
                     (if is_little_endian then le32_bytes value else be32_bytes value)).
        apply Hrange. lia.
      * apply Hmapped. lia.
    + intros x Hx. rewrite Hother by lia.
      apply read_byte_poke_outside.
      assert (length (if is_little_endian then le32_bytes value else be32_bytes value)
              = 4%nat) as -> by (by destruct is_little_endian).
      lia.
    + by rewrite Hregions.
Qed.


Lemma push_values_mapped (is_little_endian : bool) (values_to_push : list Z)
    (mem : MemoryContext) (sp : Z) :
  4 * Z.of_nat (length values_to_push) ≤ sp < 2 ^ 32 →
  (∀ x, sp - 4 * Z.of_nat (length values_to_push) ≤ x < sp → mapped mem x = true) →
  is_ok (push_values is_little_endian mem sp values_to_push) = true.
Proof.
  revert mem sp.
  induction values_to_push as [|value rest IH]; intros mem sp Hsp Hmapped; [done|].
  cbn [push_values length] in *. rewrite u32_small by lia.
  assert ((if is_little_endian then write_u32l mem (sp - 4) value
           else write_u32b mem (sp - 4) value)
          = Ok (poke mem (sp - 4)
                  (if is_little_endian then le32_bytes value else be32_bytes value)))
    as ->.
  { destruct is_little_endian; unfold write_u32l, write_u32b;
      apply mem_write_mapped; intros x Hx; apply Hmapped;
      rewrite ?length_le32_bytes, ?length_be32_bytes in Hx; lia. }
  cbn [mbind result_bind]. apply IH; [lia|].
  intros x Hx. rewrite mapped_poke. apply Hmapped. lia.
Qed.

(** X15.  The values pushed on the stack.  Starting from a stack pointer
    that leaves room for them above address zero, when the pushes succeed
    the stack pointer has moved down by four bytes per value; the values
    lie in the order of the command line from the top of the stack down, so
    that the first one is just below the old stack pointer and the last one
    at the new stack pointer, each in the byte order of the emulated
    machine; the bytes from the new stack pointer up to the old one were all
    mapped; no byte outside them has changed and no region was created. *)
Theorem push_values_stack (is_little_endian : bool) (values_to_push : list Z)
    (mem mem' : MemoryContext) (sp sp' : Z) :
  4 * Z.of_nat (length values_to_push) ≤ sp < 2 ^ 32 →
  push_values is_little_endian mem sp values_to_push = Ok (sp', mem') →
  sp' = sp - 4 * Z.of_nat (length values_to_push)
  ∧ (∀ (i : nat) value, values_to_push !! i = Some value →
       read_u32 is_little_endian mem' (sp - 4 * (Z.of_nat i + 1)) = Ok (u32 value))
  ∧ (∀ x, sp' ≤ x < sp → mapped mem x = true)
  ∧ (∀ x, x < sp' ∨ sp ≤ x → read_byte mem' x = read_byte mem x)
  ∧ mem_regions mem' = mem_regions mem.
Proof. apply push_values_inv. Qed.

Section Stack.
Context `{Env : Environment}.

(** X16.  The stack that m68kexec creates.  When the registers hold no
    stack pointer and [allocate] grants the 0x10000 bytes of a stack region
    below the end of the address space, up to 0x4000 values can be pushed:
    preparing the stack succeeds, the stack pointer ends that many words
    below the end of the new region, and the values are found from there in
    the reverse of the order in which they were given. *)
Theorem prepare_stack_automatic (is_little_endian : bool) (mem mem1 : MemoryContext)
    (region : Z) (values_to_push : list Z) :
  allocate pick_address mem stack_size = Ok (region, mem1) →
  region + stack_size < 2 ^ 32 →
  Z.of_nat (length values_to_push) ≤ 0x4000 →
  ∃ mem',
    prepare_stack is_little_endian mem 0 values_to_push
    = Ok (region + stack_size - 4 * Z.of_nat (length values_to_push), mem')
    ∧ (∀ (i : nat) value, values_to_push !! i = Some value →
         read_u32 is_little_endian mem' (region + stack_size - 4 * (Z.of_nat i + 1))
         = Ok (u32 value))
    ∧ mem_regions mem' = (region, stack_size) :: mem_regions mem.
Proof.
  intros Halloc Hend Hcount. unfold prepare_stack.
  change (0 =? 0) with true. cbv iota. rewrite Halloc. cbn [mbind result_bind].
  apply allocate_Ok in Halloc as [Hregion Halloc].
  unfold stack_size in *.
  rewrite u32_small by lia.
  pose proof (push_values_mapped is_little_endian values_to_push mem1 (region + 0x10000))
    as Hok.
  destruct (push_values is_little_endian mem1 (region + 0x10000) values_to_push)
    as [[sp' mem']|e] eqn:Hpush.
  - apply push_values_inv in Hpush as (-> & Hvalues & _ & _ & Hregions); [|lia].
    exists mem'. split; [done|]. split; [done|].
    rewrite Hregions. by apply allocate_at_inv in Halloc as (_ & _ & ->).
  - exfalso. enough (false = true) by done. apply Hok; [lia|].
    intros x Hx. eapply allocate_at_range_mapped; [done|]. lia.
Qed.

End Stack.

(** [--push=11111111 --push=22222222] on a 68K machine whose stack pointer
    is at the end of a region of eight bytes at 0x300: the second value ends
    up at the stack pointer. *)
Lemma push_values_stack_scenario :
  let mem := {| mem_regions := [(0x300, 8)]; mem_bytes := ∅; mem_symbols := ∅ |} in
  ∃ mem',
    push_values false mem 0x308 [0x11111111; 0x22222222] = Ok (0x300, mem')
    ∧ read_u32b mem' 0x304 = Ok 0x11111111
    ∧ read_u32b mem' 0x300 = Ok 0x22222222.
Proof.
  intros mem.
  destruct (push_values false mem 0x308 [0x11111111; 0x22222222])
    as [[sp' mem']|e] eqn:Hpush; [|vm_compute in Hpush; discriminate].
  destruct (push_values_stack false [0x11111111; 0x22222222] mem mem'
              0x308 sp') as (-> & Hvalues & _).
  - simpl. lia.
  - exact Hpush.
  - exists mem'. split; [reflexivity|].
    split; [exact (Hvalues 0%nat _ eq_refl) | exact (Hvalues 1%nat _ eq_refl)].
Defined.

(** The same two values with no stack pointer given, in the sample
    environment. *)
Lemma prepare_stack_automatic_scenario :
  ∃ mem',
    prepare_stack (Env := sample_env) false MemoryContext_new 0 [0x11111111; 0x22222222]
    = Ok (0x4000FFF8, mem')
    ∧ read_u32b mem' 0x4000FFFC = Ok 0x11111111
    ∧ read_u32b mem' 0x4000FFF8 = Ok 0x22222222.
Proof.
  destruct (prepare_stack_automatic (Env := sample_env) false MemoryContext_new
              {| mem_regions := [(0x40000000, 0x10000)]; mem_bytes := ∅;
                 mem_symbols := ∅ |}
              0x40000000 [0x11111111; 0x22222222]) as (mem' & Hrun & Hvalues & _).
  - reflexivity.
  - reflexivity.
  - simpl. lia.
  - exists mem'. split; [exact Hrun|].
    split; [exact (Hvalues 0%nat _ eq_refl) | exact (Hvalues 1%nat _ eq_refl)].
Defined.

(* ================================================================== *)
(** * QuickDrawFormats.cc: colours, rectangles, regions, pixel maps *)
(* ================================================================== *)

Lemma u8_small (z : Z) : 0 ≤ z < 256 → u8 z = z.
Proof. intros Hz. by apply Z.mod_small. Qed.

Lemma signed_small (w z : Z) :
  0 < w → - 2 ^ (w - 1) ≤ z < 2 ^ (w - 1) → signed w z = z.
Proof.
  intros Hw Hz. unfold signed.
  assert (2 ^ w = 2 * 2 ^ (w - 1)) as Hpow
    by (rewrite <- Z.pow_succ_r by lia; f_equal; lia).
  destruct (Z.ltb_spec (z mod 2 ^ w) (2 ^ (w - 1))) as [Hlt|Hge].
  - destruct (Z.le_gt_cases 0 z).
    + apply Z.mod_small. lia.
    + rewrite <- (Z.mod_add z 1) in Hlt by lia.
      rewrite Z.mod_small in Hlt by lia. lia.
  - destruct (Z.le_gt_cases 0 z).
    + rewrite Z.mod_small in Hge by lia. lia.
    + rewrite <- (Z.mod_add z 1) by lia. rewrite Z.mod_small by lia. lia.
Qed.

Lemma signed_mod (w z : Z) : 0 < w → signed w (z mod 2 ^ w) = signed w z.
Proof. intros Hw. unfold signed. by rewrite Z.mod_mod by lia. Qed.

Lemma signed_add_mul (w k z : Z) : 0 < w → signed w (k * 2 ^ w + z) = signed w z.
Proof.
  intros Hw. unfold signed. rewrite (Z.add_comm (k * _)), Z.mod_add; [done|].
  apply Z.pow_nonzero; lia.
Qed.

(** Two integers that share no bit: their bitwise or is their sum. *)
Lemma lor_disjoint (a b : Z) : Z.land a b = 0 → Z.lor a b = a + b.
Proof.
  intros Hdisj. rewrite <- Z.lxor_lor by done. symmetry.
  by apply Z.add_nocarry_lxor.
Qed.

Lemma land_shiftl_low (a b n : Z) :
  0 ≤ n → 0 ≤ b < 2 ^ n → Z.land (Z.shiftl a n) b = 0.
Proof.
  intros Hn Hb. apply Z.bits_inj'. intros i Hi.
  rewrite Z.land_spec, Z.bits_0.
  destruct (Z.ltb_spec i n).
  - by rewrite Z.shiftl_spec_low.
  - rewrite andb_comm.
    destruct (Z.eq_dec b 0) as [->|]; [by rewrite Z.bits_0|].
    rewrite (Z.bits_above_log2 b i); [done | lia |].
    assert (Z.log2 b < n) by (apply Z.log2_lt_pow2; lia). lia.
Qed.

Lemma lor_shiftl_add (a b n : Z) :
  0 ≤ n → 0 ≤ b < 2 ^ n → Z.lor (Z.shiftl a n) b = a * 2 ^ n + b.
Proof.
  intros Hn Hb. rewrite lor_disjoint by (by apply land_shiftl_low).
  by rewrite Z.shiftl_mul_pow2.
Qed.

(** *** Colours *)

(** X17.  [Color::as8] loses nothing in its casts.  Each component of the
    result is the quotient of the 16-bit component by 0x101, which is at
    most 255, so the conversion to [uint8_t] keeps it; and a colour made
    from 8-bit components by repeating each byte (that is, multiplying it
    by 0x101) gives these components back. *)
Theorem Color_as8_exact (r g b : Z) :
  Color_as8 (Color_new r g b)
  = {| c8_r := u16 r / 0x101; c8_g := u16 g / 0x101; c8_b := u16 b / 0x101 |}
  ∧ Color_as8 (Color_new (u8 r * 0x101) (u8 g * 0x101) (u8 b * 0x101))
    = Color8_new r g b.
Proof.
  assert (∀ v, u8 (u16 v / 0x101) = u16 v / 0x101) as Hexact.
  { intros v. unfold u8, u16.
    pose proof (Z.mod_pos_bound v (2 ^ 16) ltac:(lia)).
    apply Z.mod_small. split; [apply Z.div_pos; lia|].
    apply Z.div_lt_upper_bound; lia. }
  assert (∀ v, u16 (u8 v * 0x101) / 0x101 = u8 v) as Hround.
  { intros v. unfold u16, u8.
    pose proof (Z.mod_pos_bound v (2 ^ 8) ltac:(lia)).
    rewrite (Z.mod_small (_ * _)) by lia. apply Z.div_mul. lia. }
  unfold Color_as8, Color_new, Color8_new. cbn [c_r c_g c_b c8_r c8_g c8_b].
  rewrite !Hexact. split; [done|]. by rewrite !Hround.
Qed.

(** X18.  [Color8::Color8(uint32_t)] reads a colour written 0xRRGGBB; the
    top byte of the argument plays no role. *)
Theorem Color8_of_u32_components (a r g b : Z) :
  0 ≤ a < 256 → 0 ≤ r < 256 → 0 ≤ g < 256 → 0 ≤ b < 256 →
  Color8_of_u32 (a * 2 ^ 24 + r * 2 ^ 16 + g * 2 ^ 8 + b)
  = {| c8_r := r; c8_g := g; c8_b := b |}.
Proof.
  intros Ha Hr Hg Hb. unfold Color8_of_u32, Color8_new, u8, u32.
  rewrite (Z.mod_small (_ + b)) by lia.
  rewrite !Z.shiftr_div_pow2 by lia.
  f_equal; Z.div_mod_to_equations; lia.
Qed.

Lemma Color_to_u64_digits (r g b : Z) :
  Color_to_u64 (Color_new r g b) = u16 r * 2 ^ 32 + u16 g * 2 ^ 16 + u16 b.
Proof.
  unfold Color_to_u64, Color_new, u64, u16. cbn [c_r c_g c_b].
  pose proof (Z.mod_pos_bound r (2 ^ 16) ltac:(lia)).
  pose proof (Z.mod_pos_bound g (2 ^ 16) ltac:(lia)).
  pose proof (Z.mod_pos_bound b (2 ^ 16) ltac:(lia)).
  rewrite !(Z.mod_small (_ mod 2 ^ 16) (2 ^ 64)) by lia.
  rewrite !Z.shiftl_mul_pow2 by lia.
  rewrite !(Z.mod_small (_ * _) (2 ^ 64)) by lia.
  rewrite <- (Z.shiftl_mul_pow2 (r mod _)) by lia.
  rewrite (lor_shiftl_add (r mod 2 ^ 16) (g mod 2 ^ 16 * 2 ^ 16) 32) by lia.
  replace (r mod 2 ^ 16 * 2 ^ 32 + g mod 2 ^ 16 * 2 ^ 16)
    with ((r mod 2 ^ 16 * 2 ^ 16 + g mod 2 ^ 16) * 2 ^ 16) by lia.
  rewrite <- Z.shiftl_mul_pow2 by lia.
  rewrite lor_shiftl_add by lia. rewrite Z.shiftl_mul_pow2 by lia. lia.
Qed.

(** The colour 0x336699, behind a top byte that is dropped. *)
Lemma Color8_of_u32_components_scenario :
  Color8_of_u32 0xFF336699 = {| c8_r := 0x33; c8_g := 0x66; c8_b := 0x99 |}.
Proof.
  apply (Color8_of_u32_components 0xFF 0x33 0x66 0x99); lia.
Defined.

(** X19.  [Color::to_u64] tells colours apart.  The value is the number
    whose three 16-bit digits are the components, red first, so two colours
    with the same value are the same colour. *)
Theorem Color_to_u64_injective (r g b r' g' b' : Z) :
  Color_to_u64 (Color_new r g b) = Color_to_u64 (Color_new r' g' b') →
  Color_new r g b = Color_new r' g' b'
  ∧ Color_to_u64 (Color_new r g b) = u16 r * 2 ^ 32 + u16 g * 2 ^ 16 + u16 b.
Proof.
  rewrite !Color_to_u64_digits. unfold Color_new, u16.
  pose proof (Z.mod_pos_bound r (2 ^ 16) ltac:(lia)).
  pose proof (Z.mod_pos_bound g (2 ^ 16) ltac:(lia)).
  pose proof (Z.mod_pos_bound b (2 ^ 16) ltac:(lia)).
  pose proof (Z.mod_pos_bound r' (2 ^ 16) ltac:(lia)).
  pose proof (Z.mod_pos_bound g' (2 ^ 16) ltac:(lia)).
  pose proof (Z.mod_pos_bound b' (2 ^ 16) ltac:(lia)).
  intros Heq. split; [|done]. f_equal; lia.
Qed.

(** Components that differ by a multiple of 0x10000 make the same colour. *)
Lemma Color_to_u64_injective_scenario :
  Color_new 0x10001 2 3 = Color_new 1 0x10002 3.
Proof.
  exact (proj1 (Color_to_u64_injective 0x10001 2 3 1 0x10002 3 eq_refl)).
Defined.

(** *** Rectangles *)

Lemma Rect_contains_spec (r : Rect) (x y : Z) :
  Rect_contains r x y = true
  ↔ rect_x1 r ≤ x < rect_x2 r ∧ rect_y1 r ≤ y < rect_y2 r.
Proof.
  unfold Rect_contains. rewrite !andb_true_iff, !Z.leb_le, !Z.ltb_lt. lia.
Qed.

Lemma Rect_contains_rect_spec (r other : Rect) :
  Rect_contains_rect r other = true
  ↔ rect_x1 r ≤ rect_x1 other < rect_x2 r ∧ rect_y1 r ≤ rect_y1 other < rect_y2 r
    ∧ rect_x1 r ≤ rect_x2 other ≤ rect_x2 r ∧ rect_y1 r ≤ rect_y2 other ≤ rect_y2 r.
Proof.
  unfold Rect_contains_rect. rewrite !andb_true_iff, !Z.leb_le, !Z.ltb_lt. lia.
Qed.

(** X20.  Containment of rectangles agrees with containment of points: a
    rectangle that contains another one contains every point of it. *)
Theorem Rect_contains_trans (r other : Rect) (x y : Z) :
  Rect_contains_rect r other = true →
  Rect_contains other x y = true →
  Rect_contains r x y = true.
Proof. rewrite Rect_contains_rect_spec, !Rect_contains_spec. lia. Qed.

(** The point (5, 5) in the rectangle from (4, 4) to (6, 6), itself in the
    rectangle from (0, 0) to (10, 10). *)
Lemma Rect_contains_trans_scenario :
  Rect_contains {| rect_y1 := 0; rect_x1 := 0; rect_y2 := 10; rect_x2 := 10 |} 5 5 = true.
Proof.
  apply (Rect_contains_trans _
           {| rect_y1 := 4; rect_x1 := 4; rect_y2 := 6; rect_x2 := 6 |});
    reflexivity.
Defined.

(** X21.  Rectangles without points.  A rectangle contains a point exactly
    when the point lies within its width and height from its top left
    corner, and it contains itself exactly when its width and height are
    positive.  [is_empty] holds exactly when the width or the height is
    zero; a rectangle whose width or height is zero or negative contains no
    point, so the rectangles whose corners are the wrong way round have no
    point either although [is_empty] does not hold for them. *)
Theorem Rect_contains_positive (r : Rect) (x y : Z) :
  (Rect_contains r x y = true
   ↔ 0 ≤ x - rect_x1 r < Rect_width r ∧ 0 ≤ y - rect_y1 r < Rect_height r)
  ∧ (Rect_contains_rect r r = true ↔ 0 < Rect_width r ∧ 0 < Rect_height r)
  ∧ (Rect_is_empty r = true ↔ Rect_width r = 0 ∨ Rect_height r = 0)
  ∧ (Rect_width r ≤ 0 ∨ Rect_height r ≤ 0 → Rect_contains r x y = false).
Proof.
  unfold Rect_width, Rect_height.
  split; [rewrite Rect_contains_spec; lia|].
  split; [rewrite Rect_contains_rect_spec; lia|].
  split.
  - unfold Rect_is_empty. rewrite orb_true_iff, !Z.eqb_eq. lia.
  - intros Hneg. apply not_true_is_false. rewrite Rect_contains_spec. lia.
Qed.

(** A rectangle whose bottom is above its top: it has no point and does not
    contain itself, and it is not empty in the sense of [is_empty]. *)
Lemma Rect_contains_positive_scenario :
  let r := {| rect_y1 := 10; rect_x1 := 10; rect_y2 := 5; rect_x2 := 20 |} in
  Rect_contains r 12 7 = false
  ∧ Rect_contains_rect r r = false
  ∧ Rect_is_empty r = false.
Proof.
  intros r.
  destruct (Rect_contains_positive r 12 7) as (_ & Hself & Hempty & Hnone).
  split; [|split].
  - apply Hnone. right. unfold Rect_height. simpl. lia.
  - apply not_true_is_false. intros Hc. apply Hself in Hc.
    unfold Rect_height in Hc. simpl in Hc. lia.
  - apply not_true_is_false. intros Hc. apply Hempty in Hc.
    unfold Rect_width, Rect_height in Hc. simpl in Hc. lia.
Defined.

(** *** Regions *)

Lemma lor_negative_low (a y : Z) :
  - 2 ^ 15 ≤ y < 0 → Z.lor (Z.shiftl a 16) y = y.
Proof.
  intros Hy. apply Z.bits_inj'. intros i Hi. rewrite Z.lor_spec.
  destruct (Z.ltb_spec i 16).
  - by rewrite Z.shiftl_spec_low.
  - rewrite (testbit_negative y i) by lia. apply orb_true_r.
Qed.

(** X22.  The signature of an inversion point and the point read back from
    it.  For coordinates in the range of [int16_t], the point recovered
    from the signature of (x, y) has the same y; it has the same x when y
    is not negative.  When y is negative its sign extension fills the upper
    half of the signature, where x was put, and the x recovered is -1
    whatever x was. *)
Theorem inversion_point_round_trip (x y : Z) :
  - 2 ^ 15 ≤ x < 2 ^ 15 → - 2 ^ 15 ≤ y < 2 ^ 15 →
  inversion_point_for_signature (signature_for_inversion_point x y)
  = {| pt_y := y; pt_x := if y <? 0 then -1 else x |}.
Proof.
  intros Hx Hy.
  unfold inversion_point_for_signature, signature_for_inversion_point, Point_new.
  rewrite (signed_small 16 x), (signed_small 16 y) by (change (16 - 1) with 15; lia).
  change 0xFFFF with (Z.ones 16). rewrite !Z.land_ones by lia.
  rewrite !signed_mod by lia. rewrite Z.shiftr_div_pow2 by lia.
  destruct (Z.ltb_spec y 0) as [Hneg|Hpos].
  - rewrite lor_negative_low by lia.
    rewrite (signed_small 32 y) by (change (32 - 1) with 31; lia).
    rewrite (signed_small 16 y) by (change (16 - 1) with 15; lia).
    replace (y / 2 ^ 16) with (-1) by (Z.div_mod_to_equations; lia).
    done.
  - assert (Z.lor (Z.shiftl x 16) y = x * 2 ^ 16 + y) as ->.
    { apply lor_shiftl_add; lia. }
    rewrite (signed_small 32) by (change (32 - 1) with 31; lia).
    rewrite signed_add_mul by lia.
    rewrite (signed_small 16 y) by (change (16 - 1) with 15; lia).
    replace ((x * 2 ^ 16 + y) / 2 ^ 16) with x by (Z.div_mod_to_equations; lia).
    by rewrite (signed_small 16 x) by (change (16 - 1) with 15; lia).
Qed.

(** The point (7, -2): its x comes back as -1. *)
Lemma inversion_point_round_trip_scenario :
  inversion_point_for_signature (signature_for_inversion_point 7 (-2))
  = {| pt_y := -2; pt_x := -1 |}.
Proof.
  apply (inversion_point_round_trip 7 (-2)); lia.
Defined.

(** The inversion points above and to the left of (x, y). *)
Lemma count_inversions_parity (inversions : list Z) (x y : Z) (contained : bool) :
  fold_left (fun contained pt =>
               let pt_x := signed 16 (Z.land (Z.shiftr pt 16) 0xFFFF) in
               let pt_y := signed 16 (Z.land pt 0xFFFF) in
               if (pt_x <=? x) && (pt_y <=? y) then negb contained else contained)
            inversions contained
  = xorb contained
      (Nat.odd (length (filter
         (fun pt => (signed 16 (Z.land (Z.shiftr pt 16) 0xFFFF) <=? x)
                    && (signed 16 (Z.land pt 0xFFFF) <=? y) = true) inversions))).
Proof.
  revert contained. induction inversions as [|pt inversions IH]; intros contained.
  - simpl. by destruct contained.
  - cbn [fold_left]. rewrite IH. rewrite filter_cons.
    destruct ((signed 16 (Z.land (Z.shiftr pt 16) 0xFFFF) <=? x)
              && (signed 16 (Z.land pt 0xFFFF) <=? y)) eqn:Habove.
    + rewrite decide_True by done. cbn [length]. rewrite Nat.odd_succ.
      rewrite <- Nat.negb_odd. by destruct contained, (Nat.odd _).
    + rewrite decide_False by done. done.
Qed.

(** X23.  The test of [Region::contains] for large regions does not depend
    on the order in which the inversion points are visited: the answer is
    the parity of the number of inversion points above and to the left of
    the point, so two traversals of the same points agree. *)
Theorem count_inversions_order (inversions inversions' : list Z) (x y : Z) :
  inversions ≡ₚ inversions' →
  count_inversions inversions x y = count_inversions inversions' x y.
Proof.
  intros Hperm. unfold count_inversions. rewrite !count_inversions_parity.
  by rewrite Hperm.
Qed.

(** Two inversion points, visited in either order. *)
Lemma count_inversions_order_scenario :
  count_inversions [0x00010001; 0x00020002] 5 5
  = count_inversions [0x00020002; 0x00010001] 5 5.
Proof.
  apply count_inversions_order. apply perm_swap.
Defined.

(** *** Patterns and pixel maps *)

(** X24.  A pattern tiles the plane: [Pattern::pixel_at] has period 8 in
    both coordinates, and the wrap-around of its [uint8_t] arguments at 256
    does not break the tiling. *)
Theorem Pattern_pixel_at_period (rows : Z → byte) (x y i j : Z) :
  Pattern_pixel_at rows (x + 8 * i) (y + 8 * j) = Pattern_pixel_at rows x y.
Proof.
  unfold Pattern_pixel_at, u8.
  change 7 with (Z.ones 3) at 1 3 4 6. rewrite !Z.land_ones by lia.
  assert (∀ v k, (v + 8 * k) mod 2 ^ 8 mod 2 ^ 3 = v mod 2 ^ 8 mod 2 ^ 3) as Hmod.
  { intros v k. rewrite !Z.mod_mod_divide by (by exists 32).
    replace (v + 8 * k) with (v + k * 2 ^ 3) by lia. apply Z.mod_add. lia. }
  by rewrite !Hmod.
Qed.

Lemma land_ones_range (a n : Z) : 0 ≤ n → 0 ≤ Z.land a (Z.ones n) < 2 ^ n.
Proof. intros Hn. rewrite Z.land_ones by done. apply Z.mod_pos_bound. lia. Qed.

(** X25.  Every entry of a pixel map fits in the pixel size.  For the six
    pixel sizes [lookup_entry] knows, the entry it returns is less than 2
    to the pixel size, which is the range [decode_color_image] expects of a
    colour id; for any other pixel size it throws. *)
Theorem lookup_entry_range (data : Z → byte) (pixel_size row_bytes x y : Z) :
  match lookup_entry data pixel_size row_bytes x y with
  | Ok entry => (pixel_size ∈ [1; 2; 4; 8; 16; 32]) ∧ (0 ≤ entry < 2 ^ pixel_size)
  | Throw e =>
      (pixel_size ∉ [1; 2; 4; 8; 16; 32])
      ∧ (e = runtime_error "pixel size is not 1, 2, 4, 8, 16, or 32 bits")
  end.
Proof.
  unfold lookup_entry.
  destruct (Z.eqb_spec pixel_size 1) as [->|H1].
  { split; [set_solver|]. exact (land_ones_range _ 1 ltac:(lia)). }
  destruct (Z.eqb_spec pixel_size 2) as [->|H2].
  { split; [set_solver|]. exact (land_ones_range _ 2 ltac:(lia)). }
  destruct (Z.eqb_spec pixel_size 4) as [->|H4].
  { split; [set_solver|]. exact (land_ones_range _ 4 ltac:(lia)). }
  destruct (Z.eqb_spec pixel_size 8) as [->|H8].
  { split; [set_solver|]. apply byte_val_range. }
  destruct (Z.eqb_spec pixel_size 16) as [->|H16].
  { split; [set_solver|]. apply (be_value_bound [_; _] 0). lia. }
  destruct (Z.eqb_spec pixel_size 32) as [->|H32].
  { split; [set_solver|]. apply (be_value_bound [_; _; _; _] 0). lia. }
  split; [|done]. rewrite !not_elem_of_cons. repeat split; try done.
  apply not_elem_of_nil.
Qed.

(** X26.  The grey levels of [decode_4bit_image].  Without a colour table
    the two pixels of a byte get the grey levels 17 times the high and the
    low four bits: the sixteen levels spread evenly from 0 to 255. *)
Theorem gray4_levels (indexes : byte) :
  gray4_left (byte_val indexes) = 17 * (byte_val indexes / 16)
  ∧ gray4_right (byte_val indexes) = 17 * (byte_val indexes mod 16).
Proof. destruct indexes; split; reflexivity. Qed.

(* ================================================================== *)
(** * The channels of an xrgb1555 pixel *)
(* ================================================================== *)

(** A mask that starts at bit [k]: what it keeps of [a] is what the mask
    without the shift keeps of [a] shifted down. *)
Lemma land_shiftl_mask (a m k : Z) :
  0 ≤ k → Z.land a (Z.shiftl m k) = Z.shiftl (Z.land (Z.shiftr a k) m) k.
Proof.
  intros Hk. apply Z.bits_inj'. intros i Hi.
  destruct (Z.ltb_spec i k).
  - by rewrite Z.land_spec, !Z.shiftl_spec_low, andb_false_r by lia.
  - rewrite Z.land_spec, !Z.shiftl_spec, Z.land_spec, Z.shiftr_spec by lia.
    do 2 f_equal. lia.
Qed.

(** A field of five bits spread over eight: its three top bits are
    repeated below it. *)
Lemma spread_5_to_8 (field : Z) :
  0 ≤ field < 32 → Z.lor (Z.shiftl field 3) (field / 4) = 8 * field + field / 4.
Proof.
  intros Hfield. rewrite Z.lor_comm, lor_disjoint.
  - rewrite Z.shiftl_mul_pow2 by lia. lia.
  - rewrite Z.land_comm. apply land_shiftl_low; [lia|].
    split; [apply Z.div_pos; lia | apply Z.div_lt_upper_bound; lia].
Qed.

(** X27.  The channels of an xrgb1555 pixel in [decode_color_image].  Red,
    green and blue are the fields of five bits at bits 10, 5 and 0 of the
    colour; each becomes the 8-bit value [8 * field + field / 4], so that
    the field 0 gives 0, the field 31 gives 255, and a larger field gives a
    larger value; bit 15 and the bits above it play no role. *)
Theorem xrgb1555_channels (color_id : Z) :
  0 ≤ color_id →
  let spread field := 8 * field + field / 4 in
  xrgb1555_r color_id = spread ((color_id / 2 ^ 10) mod 32)
  ∧ xrgb1555_g color_id = spread ((color_id / 2 ^ 5) mod 32)
  ∧ xrgb1555_b color_id = spread (color_id mod 32)
  ∧ spread 0 = 0 ∧ spread 31 = 255
  ∧ ∀ f1 f2, 0 ≤ f1 < f2 → spread f1 < spread f2.
Proof.
  intros Hcolor spread.
  assert (∀ a, Z.land a 0xF8 = Z.shiftl ((a / 2 ^ 3) mod 32) 3) as Hhigh.
  { intros a. change 0xF8 with (Z.shiftl (Z.ones 5) 3).
    rewrite land_shiftl_mask by lia.
    by rewrite Z.land_ones, Z.shiftr_div_pow2 by lia. }
  assert (∀ a, Z.land a 0x07 = a mod 8) as Hlow.
  { intros a. change 0x07 with (Z.ones 3). by rewrite Z.land_ones by lia. }
  assert (∀ field, 0 ≤ field < 32 → u8 (spread field) = spread field) as Hfits.
  { intros field Hfield. apply u8_small. unfold spread.
    assert (0 ≤ field / 4 < 8)
      by (split; [apply Z.div_pos; lia | apply Z.div_lt_upper_bound; lia]).
    lia. }
  unfold xrgb1555_r, xrgb1555_g, xrgb1555_b.
  rewrite !Hhigh, !Hlow, !Z.shiftr_div_pow2 by lia.
  split; [|split; [|split; [|split; [done|split; [done|]]]]].
  - replace (color_id / 2 ^ 7 / 2 ^ 3) with (color_id / 2 ^ 10)
      by (rewrite Z.div_div by lia; done).
    replace ((color_id / 2 ^ 12) mod 8) with ((color_id / 2 ^ 10) mod 32 / 4)
      by (Z.div_mod_to_equations; lia).
    rewrite spread_5_to_8 by (apply Z.mod_pos_bound; lia).
    apply Hfits. apply Z.mod_pos_bound. lia.
  - replace (color_id / 2 ^ 2 / 2 ^ 3) with (color_id / 2 ^ 5)
      by (rewrite Z.div_div by lia; done).
    replace ((color_id / 2 ^ 7) mod 8) with ((color_id / 2 ^ 5) mod 32 / 4)
      by (Z.div_mod_to_equations; lia).
    rewrite spread_5_to_8 by (apply Z.mod_pos_bound; lia).
    apply Hfits. apply Z.mod_pos_bound. lia.
  - rewrite (Z.shiftl_mul_pow2 color_id 3) by lia.
    replace (u32 (color_id * 2 ^ 3) / 2 ^ 3 mod 32) with (color_id mod 32)
      by (unfold u32; Z.div_mod_to_equations; lia).
    replace ((color_id / 2 ^ 2) mod 8) with (color_id mod 32 / 4)
      by (Z.div_mod_to_equations; lia).
    rewrite spread_5_to_8 by (apply Z.mod_pos_bound; lia).
    apply Hfits. apply Z.mod_pos_bound. lia.
  - intros f1 f2 Hf. unfold spread.
    assert (f1 / 4 ≤ f2 / 4) by (apply Z.div_le_mono; lia). lia.
Qed.

(** White and a pure red. *)
Lemma xrgb1555_channels_scenario :
  (xrgb1555_r 0x7FFF, xrgb1555_g 0x7FFF, xrgb1555_b 0x7FFF) = (255, 255, 255)
  ∧ (xrgb1555_r 0x7C00, xrgb1555_g 0x7C00, xrgb1555_b 0x7C00) = (255, 0, 0).
Proof.
  destruct (xrgb1555_channels 0x7FFF ltac:(lia)) as (Hr1 & Hg1 & Hb1 & _).
  destruct (xrgb1555_channels 0x7C00 ltac:(lia)) as (Hr2 & Hg2 & Hb2 & _).
  rewrite Hr1, Hg1, Hb1, Hr2, Hg2, Hb2. split; reflexivity.
Defined.

(* ================================================================== *)
(** * Loops over the pixels of an image *)
(* ================================================================== *)

(** A loop whose body cannot fail while the invariant holds. *)
Lemma for_loop_inv {T : Type} (P : Z → T → Prop) (n : nat) (start : Z)
    (body : Z → T → result T) (s : T) :
  P start s →
  (∀ i s, start ≤ i < start + Z.of_nat n → P i s →
          ∃ s', body i s = Ok s' ∧ P (i + 1) s') →
  ∃ s', for_loop n start body s = Ok s' ∧ P (start + Z.of_nat n) s'.
Proof.
  revert start s. induction n as [|n IH]; intros start s Hstart Hbody.
  - exists s. split; [done|]. by rewrite Z.add_0_r.
  - destruct (Hbody start s) as (s1 & Hrun & H1); [lia | done |].
    destruct (IH (start + 1) s1) as (s' & Hloop & H'); [done | |].
    { intros i s2 Hi. apply Hbody. lia. }
    exists s'. cbn [for_loop]. rewrite Hrun. split; [done|].
    by replace (start + Z.of_nat (S n)) with (start + 1 + Z.of_nat n) by lia.
Qed.

(** A loop that has run to its end: the invariant has gone through. *)
Lemma for_loop_inv_Ok {T : Type} (P : Z → T → Prop) (n : nat) (start : Z)
    (body : Z → T → result T) (s s' : T) :
  for_loop n start body s = Ok s' →
  P start s →
  (∀ i s s', start ≤ i < start + Z.of_nat n → P i s → body i s = Ok s' → P (i + 1) s') →
  P (start + Z.of_nat n) s'.
Proof.
  revert start s. induction n as [|n IH]; intros start s Hrun Hstart Hbody.
  - injection Hrun as <-. by rewrite Z.add_0_r.
  - cbn [for_loop] in Hrun.
    destruct (body start s) as [s1|e] eqn:Hstep; [|done].
    replace (start + Z.of_nat (S n)) with (start + 1 + Z.of_nat n) by lia.
    apply (IH (start + 1) s1); [done | |].
    + apply (Hbody start s); [lia | done | done].
    + intros i s2 s3 Hi. apply Hbody. lia.
Qed.

(* ================================================================== *)
(** * [decode_monochrome_image] *)
(* ================================================================== *)

(** The pixels left in the byte after [z] rounds, and the one on top. *)
Lemma shifted_pixels_top (b z : Z) :
  0 ≤ z < 8 →
  negb (Z.land (u8 (Z.shiftl b z)) 0x80 =? 0) = Z.testbit b (7 - z).
Proof.
  intros Hz. change 0x80 with (2 ^ 7).
  change (negb (Z.land ?x ?m =? 0)) with (flag_set x m).
  rewrite flag_set_bit by lia. unfold u8.
  rewrite Z.mod_pow2_bits_low by lia. by rewrite Z.shiftl_spec by lia.
Qed.

Lemma shifted_pixels_next (b z : Z) :
  0 ≤ z → u8 (Z.shiftl (u8 (Z.shiftl b z)) 1) = u8 (Z.shiftl b (z + 1)).
Proof.
  intros Hz. unfold u8. rewrite <- (Z.shiftl_shiftl b z 1) by lia.
  rewrite !(Z.shiftl_mul_pow2 _ 1) by lia.
  by rewrite Z.mul_mod_idemp_l by lia.
Qed.

Section Monochrome.
Context (data : Z → byte) (w h row_bytes : Z) (Hw : 0 ≤ w) (Hh : 0 ≤ h).

Lemma monochrome_byte (y k : Z) (img : Image) :
  0 ≤ y < h → 0 ≤ k → 8 * k < w →
  monochrome_partial data w h row_bytes (fun x' y' => y' < y ∨ (y' = y ∧ x' < 8 * k)) img →
  let x := 8 * k in
  let z_limit := if x + 8 <=? w then 8 else w - x in
  ∃ st,
    for_loop (Z.to_nat z_limit) 0 (fun z '(pixels, result) =>
      let value := if negb (Z.land pixels 0x80 =? 0) then 0x00 else 0xFF in
      let pixels := u8 (Z.shiftl pixels 1) in
      result ← write_pixel result (x + z) y value value value 0xFF;
      Ok (pixels, result))
      (byte_val (data (y * row_bytes + x / 8)), img) = Ok st
    ∧ monochrome_partial data w h row_bytes
        (fun x' y' => y' < y ∨ (y' = y ∧ x' < 8 * (k + 1))) st.2.
Proof.
  intros Hy Hk Hkw Himg x z_limit.
  assert (0 < z_limit ≤ 8 ∧ x + z_limit ≤ w ∧ (x + z_limit < x + 8 → x + z_limit = w))
    as (Hlimit & Hfits & Hlast).
  { unfold z_limit, x. destruct (Z.leb_spec (8 * k + 8) w); lia. }
  set (b := byte_val (data (y * row_bytes + x / 8))).
  destruct (for_loop_inv
    (fun z (st : Z * Image) =>
       st.1 = u8 (Z.shiftl b z)
       ∧ monochrome_partial data w h row_bytes
           (fun x' y' => y' < y ∨ (y' = y ∧ x' < x + z)) st.2)
    (Z.to_nat z_limit) 0
    (fun z '(pixels, result) =>
      let value := if negb (Z.land pixels 0x80 =? 0) then 0x00 else 0xFF in
      let pixels := u8 (Z.shiftl pixels 1) in
      result ← write_pixel result (x + z) y value value value 0xFF;
      Ok (pixels, result))
    (b, img)) as (st & Hrun & _ & Hdone).
  - split.
    + cbn [fst]. rewrite Z.shiftl_0_r. symmetry. apply u8_small. apply byte_val_range.
    + cbn [snd]. destruct Himg as (Hwidth & Hheight & Halpha & Hpixels).
      split; [done|]. split; [done|]. split; [done|].
      intros x' y' Hx' Hy' Hfilled. apply Hpixels; [done | done |].
      unfold x in Hfilled. lia.
  - intros z [pixels result] Hz [Hpixels (Hwidth & Hheight & Halpha & Hfilled)].
    cbn [fst snd] in Hpixels, Hwidth, Hheight, Halpha, Hfilled. subst pixels.
    rewrite shifted_pixels_top by lia. rewrite shifted_pixels_next by lia.
    unfold write_pixel, Image_inside. rewrite Hwidth, Hheight, Halpha.
    assert ((0 <=? x + z) && (x + z <? w) && (0 <=? y) && (y <? h) = true) as ->.
    { rewrite !andb_true_iff, !Z.leb_le, !Z.ltb_lt. unfold x. lia. }
    cbn [mbind result_bind]. eexists. split; [reflexivity|].
    cbn [fst snd]. split; [done|].
    split; [done|]. split; [done|]. split; [done|].
    cbn [img_pixels]. intros x' y' Hx' Hy' Hnow.
    destruct (decide ((x', y') = (x + z, y))) as [Heq|Hne].
    + injection Heq as -> ->. rewrite lookup_insert_eq. f_equal.
      unfold monochrome_expected, monochrome_pixel, x.
      replace ((8 * k + z) / 8) with k by (Z.div_mod_to_equations; lia).
      replace ((8 * k + z) mod 8) with z by (Z.div_mod_to_equations; lia).
      unfold b, x. replace (8 * k / 8) with k by (Z.div_mod_to_equations; lia).
      by destruct (Z.testbit _ _).
    + rewrite lookup_insert_ne by done. apply Hfilled; [done | done |].
      destruct Hnow as [?|[-> ?]]; [by left|]. right. split; [done|].
      assert (x' ≠ x + z) by congruence. lia.
  - exists st. split; [done|].
    rewrite Z.add_0_l, Z2Nat.id in Hdone by lia.
    destruct Hdone as (Hwidth & Hheight & Halpha & Hfilled).
    split; [done|]. split; [done|]. split; [done|].
    intros x' y' Hx' Hy' Hnow. apply Hfilled; [done | done |].
    unfold x in *. lia.
Qed.

Lemma monochrome_row (y : Z) (img : Image) :
  0 ≤ y < h →
  monochrome_partial data w h row_bytes (fun x' y' => y' < y) img →
  ∃ img',
    for_loop (Z.to_nat ((w + 7) / 8)) 0 (fun k result =>
      let x := 8 * k in
      let pixels := byte_val (data (y * row_bytes + x / 8)) in
      let z_limit := if x + 8 <=? w then 8 else w - x in
      '(_, result) ←
        for_loop (Z.to_nat z_limit) 0 (fun z '(pixels, result) =>
          let value := if negb (Z.land pixels 0x80 =? 0) then 0x00 else 0xFF in
          let pixels := u8 (Z.shiftl pixels 1) in
          result ← write_pixel result (x + z) y value value value 0xFF;
          Ok (pixels, result)) (pixels, result);
      Ok result) img = Ok img'
    ∧ monochrome_partial data w h row_bytes (fun x' y' => y' < y + 1) img'.
Proof.
  intros Hy Himg.
  assert (0 ≤ (w + 7) / 8) as Hcount by (apply Z.div_pos; lia).
  destruct (for_loop_inv
    (fun k img => monochrome_partial data w h row_bytes
                    (fun x' y' => y' < y ∨ (y' = y ∧ x' < 8 * k)) img)
    (Z.to_nat ((w + 7) / 8)) 0
    (fun k result =>
      let x := 8 * k in
      let pixels := byte_val (data (y * row_bytes + x / 8)) in
      let z_limit := if x + 8 <=? w then 8 else w - x in
      '(_, result) ←
        for_loop (Z.to_nat z_limit) 0 (fun z '(pixels, result) =>
          let value := if negb (Z.land pixels 0x80 =? 0) then 0x00 else 0xFF in
          let pixels := u8 (Z.shiftl pixels 1) in
          result ← write_pixel result (x + z) y value value value 0xFF;
          Ok (pixels, result)) (pixels, result);
      Ok result) img) as (img' & Hrun & Hdone).
  - destruct Himg as (Hwidth & Hheight & Halpha & Hfilled).
    split; [done|]. split; [done|]. split; [done|].
    intros x' y' Hx' Hy' Hnow. apply Hfilled; [done | done | lia].
  - intros k result Hk Hresult. rewrite Z2Nat.id in Hk by lia.
    assert (8 * k < w) as Hkw by (Z.div_mod_to_equations; lia).
    destruct (monochrome_byte y k result Hy ltac:(lia) Hkw Hresult)
      as ([pixels result'] & Hrun & Hdone).
    cbv zeta in Hrun |- *. rewrite Hrun. cbn [mbind result_bind]. by exists result'.
  - exists img'. split; [done|].
    rewrite Z.add_0_l, Z2Nat.id in Hdone by lia.
    destruct Hdone as (Hwidth & Hheight & Halpha & Hfilled).
    split; [done|]. split; [done|]. split; [done|].
    intros x' y' Hx' Hy' Hnow. apply Hfilled; [done | done |].
    assert (x' < 8 * ((w + 7) / 8)) by (Z.div_mod_to_equations; lia). lia.
Qed.

Lemma monochrome_rows :
  ∃ img,
    for_loop (Z.to_nat h) 0 (fun y result =>
      for_loop (Z.to_nat ((w + 7) / 8)) 0 (fun k result =>
        let x := 8 * k in
        let pixels := byte_val (data (y * row_bytes + x / 8)) in
        let z_limit := if x + 8 <=? w then 8 else w - x in
        '(_, result) ←
          for_loop (Z.to_nat z_limit) 0 (fun z '(pixels, result) =>
            let value := if negb (Z.land pixels 0x80 =? 0) then 0x00 else 0xFF in
            let pixels := u8 (Z.shiftl pixels 1) in
            result ← write_pixel result (x + z) y value value value 0xFF;
            Ok (pixels, result)) (pixels, result);
        Ok result) result)
      (Image_new w h false) = Ok img
    ∧ monochrome_partial data w h row_bytes (fun x' y' => True) img.
Proof.
  destruct (for_loop_inv
    (fun y img => monochrome_partial data w h row_bytes (fun x' y' => y' < y) img)
    (Z.to_nat h) 0
    (fun y result =>
      for_loop (Z.to_nat ((w + 7) / 8)) 0 (fun k result =>
        let x := 8 * k in
        let pixels := byte_val (data (y * row_bytes + x / 8)) in
        let z_limit := if x + 8 <=? w then 8 else w - x in
        '(_, result) ←
          for_loop (Z.to_nat z_limit) 0 (fun z '(pixels, result) =>
            let value := if negb (Z.land pixels 0x80 =? 0) then 0x00 else 0xFF in
            let pixels := u8 (Z.shiftl pixels 1) in
            result ← write_pixel result (x + z) y value value value 0xFF;
            Ok (pixels, result)) (pixels, result);
        Ok result) result)
    (Image_new w h false)) as (img & Hrun & Hdone).
  - split; [done|]. split; [done|]. split; [done|]. intros x' y' Hx' Hy' Hnow. lia.
  - intros y result Hy Hresult. rewrite Z2Nat.id in Hy by lia.
    apply monochrome_row; [lia | done].
  - exists img. split; [done|].
    rewrite Z.add_0_l, Z2Nat.id in Hdone by lia.
    destruct Hdone as (Hwidth & Hheight & Halpha & Hfilled).
    split; [done|]. split; [done|]. split; [done|].
    intros x' y' Hx' Hy' _. apply Hfilled; [done | done | lia].
Qed.

End Monochrome.

(** X28.  [decode_monochrome_image] unpacks the rows bit by bit.  For data
    of the size the width, the height and the row size call for (with no
    row size given, the width a multiple of 8 and one byte for 8 pixels;
    with a row size, rows that hold the width), the decoder returns an
    image of that width and height in which the pixel at (x, y) is black
    when bit [7 - x mod 8] of the byte [x / 8] of row [y] is set and white
    when it is clear: the leftmost pixel of a byte is its most significant
    bit.  That byte lies inside the data, and no write falls outside the
    image, also in a last byte of which the width uses only a part. *)
Theorem decode_monochrome_image_pixels (data : Z → byte) (size w h row_bytes : Z) :
  0 ≤ w → 0 ≤ h →
  (if row_bytes =? 0 then Z.land w 7 = 0 else w ≤ 8 * row_bytes) →
  let stride := if row_bytes =? 0 then w / 8 else row_bytes in
  size = stride * h →
  ∃ img,
    decode_monochrome_image data size w h row_bytes = Ok img
    ∧ img_width img = w ∧ img_height img = h
    ∧ ∀ x y, 0 ≤ x < w → 0 ≤ y < h →
        0 ≤ y * stride + x / 8 < size
        ∧ read_pixel img x y
          = Ok (monochrome_pixel
                  (Z.testbit (byte_val (data (y * stride + x / 8))) (7 - x mod 8))).
Proof.
  intros Hw Hh Hrow stride Hsize.
  destruct (monochrome_rows data w h stride Hw Hh)
    as (img & Hrun & Hwidth & Hheight & Halpha & Hpixels).
  assert (w ≤ 8 * stride) as Hfits.
  { unfold stride. destruct (row_bytes =? 0); [|done].
    change 7 with (Z.ones 3) in Hrow. rewrite Z.land_ones in Hrow by lia.
    Z.div_mod_to_equations. lia. }
  exists img. split.
  - unfold decode_monochrome_image.
    assert ((if row_bytes =? 0 then
               if negb (Z.land w 7 =? 0) then
                 Throw (runtime_error
                          "width must be a multiple of 8 unless row_bytes is specified")
               else Ok (w / 8)
             else Ok row_bytes) = Ok stride) as ->.
    { unfold stride. destruct (row_bytes =? 0); [|done]. by rewrite Hrow. }
    cbn [mbind result_bind]. rewrite Hsize, Z.eqb_refl. exact Hrun.
  - split; [done|]. split; [done|].
    intros x y Hx Hy. split.
    + assert (0 ≤ x / 8 < stride) as Hbyte
        by (split; [apply Z.div_pos; lia | apply Z.div_lt_upper_bound; lia]).
      rewrite Hsize. nia.
    + unfold read_pixel, Image_inside. rewrite Hwidth, Hheight.
      assert ((0 <=? x) && (x <? w) && (0 <=? y) && (y <? h) = true) as ->.
      { rewrite !andb_true_iff, !Z.leb_le, !Z.ltb_lt. lia. }
      by rewrite (Hpixels x y Hx Hy I).
Qed.

(** Two rows of ten pixels in two bytes each: of the second byte of a row
    only the two top bits are used.  The pixel at (9, 1) is bit 6 of the
    fourth byte, 0x40: black. *)
Lemma decode_monochrome_image_pixels_scenario :
  let data := fun i : Z => if i =? 3 then x40 else x00 in
  ∃ img,
    decode_monochrome_image data 4 10 2 2 = Ok img
    ∧ read_pixel img 9 1 = Ok {| px_r := 0; px_g := 0; px_b := 0; px_a := 0xFF |}
    ∧ read_pixel img 8 1 = Ok {| px_r := 0xFF; px_g := 0xFF; px_b := 0xFF; px_a := 0xFF |}.
Proof.
  intros data.
  destruct (decode_monochrome_image_pixels data 4 10 2 2) as (img & Hrun & _ & _ & Hpixels).
  - lia.
  - lia.
  - simpl. lia.
  - reflexivity.
  - exists img. split; [exact Hrun|].
    split; [exact (proj2 (Hpixels 9 1 ltac:(lia) ltac:(lia)))
           | exact (proj2 (Hpixels 8 1 ltac:(lia) ltac:(lia)))].
Defined.

(* ================================================================== *)
(** * [decode_sssf_image] *)
(* ================================================================== *)

Lemma get_bytes_Ok (r r' : StringReader) (n : nat) (bs : list byte) :
  get_bytes r n = Ok (bs, r') →
  bs = take n (sr_rest r) ∧ length bs = n
  ∧ sr_data r' = sr_data r ∧ sr_offset r' = (sr_offset r + n)%nat.
Proof.
  unfold get_bytes. destruct (Nat.leb_spec (sr_offset r + n) (length (sr_data r)));
    [|done].
  intros [= <- <-]. split; [done|]. split; [|done].
  unfold sr_rest. rewrite length_take, length_drop. lia.
Qed.

Lemma sr_rest_advance (r r' : StringReader) (n : nat) :
  sr_data r' = sr_data r → sr_offset r' = (sr_offset r + n)%nat →
  sr_rest r' = drop n (sr_rest r).
Proof. intros Hdata Hoffset. unfold sr_rest. by rewrite Hdata, Hoffset, drop_drop. Qed.

Lemma get_u8_Ok (r r' : StringReader) (v : Z) :
  get_u8 r = Ok (v, r') →
  ∃ b, sr_data r !! sr_offset r = Some b ∧ v = byte_val b
       ∧ sr_data r' = sr_data r ∧ sr_offset r' = S (sr_offset r).
Proof.
  unfold get_u8. intros ([bs r1] & Hget & Hrest)%result_bind_Ok.
  injection Hrest as <- <-.
  apply get_bytes_Ok in Hget as (-> & Hlen & Hdata & Hoffset).
  unfold sr_rest in *.
  destruct (drop (sr_offset r) (sr_data r)) as [|b rest] eqn:Hdrop; [done|].
  exists b. split.
  - rewrite <- (Nat.add_0_r (sr_offset r)), <- lookup_drop. by rewrite Hdrop.
  - simpl. split; [lia|]. split; [done | lia].
Qed.

(** A run never takes the decoded data past the target size. *)
Lemma push_zeroes_Ok (n : nat) (decoded decoded' : list byte) (target_size : Z) :
  push_zeroes n decoded target_size = Ok decoded' →
  Z.of_nat (length decoded) ≤ target_size →
  Z.of_nat (length decoded') ≤ target_size.
Proof.
  revert decoded. induction n as [|n IH]; intros decoded; simpl.
  - by intros [= <-].
  - destruct (Z.leb_spec target_size (Z.of_nat (length decoded))); [done|].
    intros Hrun _. apply (IH _ Hrun). rewrite length_app. simpl. lia.
Qed.

Lemma push_data_Ok (n : nat) (data_r data_r' : StringReader)
    (decoded decoded' : list byte) (target_size : Z) :
  push_data n data_r decoded target_size = Ok (decoded', data_r') →
  Z.of_nat (length decoded) ≤ target_size →
  Z.of_nat (length decoded') ≤ target_size.
Proof.
  revert data_r decoded. induction n as [|n IH]; intros data_r decoded; simpl.
  - by intros [= <- <-].
  - destruct (Z.leb_spec target_size (Z.of_nat (length decoded))); [done|].
    destruct (get_u8 data_r) as [[v data_r1]|]; [|done].
    intros Hrun _. apply (IH _ _ Hrun). rewrite length_app. simpl. lia.
Qed.

(** The loop over the runs ends with exactly as many bytes as the image has
    pixels. *)
Lemma decode_sssf_runs_length (r : list byte) (data_r : StringReader)
    (decoded decoded' : list byte) (target_size : Z) :
  decode_sssf_runs r data_r decoded target_size = Ok decoded' →
  Z.of_nat (length decoded) ≤ target_size →
  Z.of_nat (length decoded') = target_size.
Proof.
  remember (length r) as n eqn:Hn.
  revert r data_r decoded Hn.
  induction (lt_wf n) as [n _ IH]. intros r data_r decoded -> Hrun Hle.
  destruct r as [|num_zeroes r]; simpl in Hrun.
  - destruct (Z.ltb_spec (Z.of_nat (length decoded)) target_size); [done|].
    injection Hrun as <-. lia.
  - destruct (Z.ltb_spec (Z.of_nat (length decoded)) target_size); simpl in Hrun;
      [|injection Hrun as <-; lia].
    destruct (push_zeroes _ decoded target_size) as [decoded1|] eqn:Hzeroes; [|done].
    pose proof (push_zeroes_Ok _ _ _ _ Hzeroes Hle) as Hle1.
    destruct (Z.leb_spec target_size (Z.of_nat (length decoded1)));
      [injection Hrun as <-; lia|].
    destruct r as [|num_data_bytes r]; [done|].
    destruct (push_data _ data_r decoded1 target_size) as [[decoded2 data_r2]|] eqn:Hdata;
      [|done].
    pose proof (push_data_Ok _ _ _ _ _ _ Hdata Hle1) as Hle2.
    apply (IH (length r) ltac:(simpl; lia) r data_r2 decoded2 eq_refl Hrun Hle2).
Qed.

Lemma u8_u8 (z : Z) : u8 (u8 z) = u8 z.
Proof. unfold u8. apply Z.mod_mod. lia. Qed.

(** One pixel written. *)
Lemma sssf_pixel_Ok (clut : list ColorTableEntry) (ret ret' : Image) (x y v : Z) :
  img_has_alpha ret = true →
  sssf_pixel clut ret x y v = Ok ret' →
  ∃ px,
    sssf_color clut v = Some px
    ∧ Image_inside ret x y = true
    ∧ ret' = {| img_width := img_width ret; img_height := img_height ret;
                img_has_alpha := true;
                img_pixels := <[(x, y) := px]> (img_pixels ret) |}.
Proof.
  intros Halpha. unfold sssf_pixel, sssf_color, write_pixel.
  destruct (v =? 0).
  - destruct (Image_inside ret x y); [|done]. intros [= <-].
    eexists. split; [done|]. split; [done|]. by rewrite Halpha.
  - destruct (clut !! Z.to_nat v) as [entry|]; [|done]. cbn [mbind option_bind].
    destruct (Image_inside ret x y); [|done]. intros [= <-].
    eexists. split; [done|]. split; [done|]. rewrite Halpha.
    unfold Color_as8. cbn [c8_r c8_g c8_b]. by rewrite !u8_u8.
Qed.

Section Sssf.
Context (clut : list ColorTableEntry) (decoded_data : list byte) (width height : Z)
  (Hwidth : 0 ≤ width) (Hheight : 0 ≤ height).

Lemma sssf_row (y : Z) (st st' : StringReader * Image) :
  0 ≤ y < height →
  for_loop (Z.to_nat width) 0 (fun x '(decoded_r, ret) =>
    '(v, decoded_r) ← get_u8 decoded_r;
    ret ← sssf_pixel clut ret x y v;
    Ok (decoded_r, ret)) st = Ok st' →
  sssf_partial clut decoded_data width height (y * width) (fun x' y' => y' < y) st →
  sssf_partial clut decoded_data width height ((y + 1) * width) (fun x' y' => y' < y + 1) st'.
Proof.
  intros Hy Hrun Hst.
  pose proof (for_loop_inv_Ok
    (fun x st => sssf_partial clut decoded_data width height (y * width + x)
                   (fun x' y' => y' < y ∨ (y' = y ∧ x' < x)) st)
    _ _ _ _ _ Hrun) as Hinv.
  rewrite Z.add_0_l, Z2Nat.id in Hinv by done.
  destruct Hinv as (Hdata & Hoffset & Hw & Hh & Halpha & Hfilled).
  - destruct Hst as (Hdata & Hoffset & Hw & Hh & Halpha & Hfilled).
    split; [done|]. split; [lia|]. split; [done|]. split; [done|]. split; [done|].
    intros x' y' Hx' Hy' Hnow. apply Hfilled; [done | done | lia].
  - intros x [decoded_r ret] [decoded_r' ret'] Hx
      (Hdata & Hoffset & Hw & Hh & Halpha & Hfilled) Hstep.
    cbn [fst snd] in Hdata, Hoffset, Hw, Hh, Halpha, Hfilled.
    apply result_bind_Ok in Hstep as ([v decoded_r1] & Hget & Hstep).
    apply result_bind_Ok in Hstep as (ret1 & Hpixel & Hstep).
    injection Hstep as <- <-.
    apply get_u8_Ok in Hget as (b & Hb & -> & Hdata1 & Hoffset1).
    apply (sssf_pixel_Ok _ _ _ _ _ _ Halpha) in Hpixel as (px & Hcolor & _ & ->).
    unfold sssf_partial. cbn [fst snd img_width img_height img_has_alpha img_pixels].
    split; [congruence|]. split; [lia|]. split; [done|]. split; [done|]. split; [done|].
    intros x' y' Hx' Hy' Hnow.
    destruct (decide ((x', y') = (x, y))) as [Heq|Hne].
    + injection Heq as -> ->. exists b, px. rewrite lookup_insert_eq.
      split; [|done]. rewrite <- Hdata. rewrite <- Hb. f_equal. lia.
    + rewrite lookup_insert_ne by done. apply Hfilled; [done | done |].
      destruct Hnow as [?|[-> ?]]; [by left|]. right. split; [done|].
      assert (x' ≠ x) by congruence. lia.
  - split; [done|]. split; [lia|]. split; [done|]. split; [done|]. split; [done|].
    intros x' y' Hx' Hy' Hnow. apply Hfilled; [done | done | lia].
Qed.

Lemma sssf_rows (st' : StringReader * Image) :
  for_loop (Z.to_nat height) 0 (fun y st =>
    for_loop (Z.to_nat width) 0 (fun x '(decoded_r, ret) =>
      '(v, decoded_r) ← get_u8 decoded_r;
      ret ← sssf_pixel clut ret x y v;
      Ok (decoded_r, ret)) st)
    (StringReader_new decoded_data, Image_new width height true) = Ok st' →
  sssf_partial clut decoded_data width height (height * width) (fun x' y' => True) st'.
Proof.
  intros Hrun.
  pose proof (for_loop_inv_Ok
    (fun y st => sssf_partial clut decoded_data width height (y * width)
                   (fun x' y' => y' < y) st) _ _ _ _ _ Hrun) as Hinv.
  rewrite Z.add_0_l, Z2Nat.id in Hinv by done.
  destruct Hinv as (Hdata & Hoffset & Hw & Hh & Halpha & Hfilled).
  - split; [done|]. split; [simpl; lia|]. split; [done|]. split; [done|]. split; [done|].
    intros x' y' Hx' Hy' Hnow. lia.
  - intros y st st1 Hy Hst Hstep. rewrite ?Z.add_0_l in Hy.
    apply (sssf_row y st st1); [lia | done | done].
  - split; [done|]. split; [done|]. split; [done|]. split; [done|]. split; [done|].
    intros x' y' Hx' Hy' _. apply Hfilled; [done | done | lia].
Qed.

End Sssf.

Lemma be_value_nonneg (bs : list byte) : 0 ≤ be_value bs 0.
Proof. apply (be_value_bound bs 0). lia. Qed.

(** X29.  The image that [decode_sssf_image] returns.  The width and the
    height are the first two 16-bit numbers of the header.  When the
    decoder returns, for an image of less than 2^31 pixels, the runs have
    produced exactly one byte per pixel, no more and no fewer, and the pixel
    at (x, y) is made from byte [y * width + x]: transparent black for a
    zero, and otherwise the opaque colour of that index in the colour table
    reduced to 8 bits per channel. *)
Theorem decode_sssf_image_pixels (r : StringReader) (clut : list ColorTableEntry)
    (img : Image) :
  decode_sssf_image r clut = Ok img →
  let width := be_at (sr_rest r) 0 2 in
  let height := be_at (sr_rest r) 2 2 in
  let data_stream_offset := be_at (sr_rest r) 8 4 in
  width * height < 2 ^ 31 →
  img_width img = width ∧ img_height img = height
  ∧ ∃ decoded_data,
      decode_sssf_runs (drop 12 (sr_rest r))
        (StringReader_sub r data_stream_offset
           (u64 (StringReader_size r - data_stream_offset)))
        [] (width * height) = Ok decoded_data
      ∧ Z.of_nat (length decoded_data) = width * height
      ∧ ∀ x y, 0 ≤ x < width → 0 ≤ y < height →
          ∃ v px,
            decoded_data !! Z.to_nat (y * width + x) = Some v
            ∧ sssf_color clut (byte_val v) = Some px
            ∧ read_pixel img x y = Ok px.
Proof.
  unfold decode_sssf_image.
  intros ([w r1] & Hw & Hrun)%result_bind_Ok.
  apply result_bind_Ok in Hrun as ([h r2] & Hh & Hrun).
  apply result_bind_Ok in Hrun as ([offset r3] & Hoffset & Hrun).
  apply result_bind_Ok in Hrun as (decoded_data & Hruns & Hrun).
  apply result_bind_Ok in Hrun as ([decoded_r ret] & Hloop & Hrun).
  injection Hrun as <-.
  unfold get_u16b in Hw, Hh. unfold get_u32b in Hoffset.
  apply result_bind_Ok in Hw as ([bs1 r1'] & Hget1 & Heq1). injection Heq1 as <- <-.
  apply result_bind_Ok in Hh as ([bs2 r2'] & Hget2 & Heq2). injection Heq2 as <- <-.
  apply result_bind_Ok in Hoffset as ([bs3 r3'] & Hget3 & Heq3). injection Heq3 as <- <-.
  apply get_bytes_Ok in Hget1 as (-> & _ & Hdata1 & Hoffset1).
  apply get_bytes_Ok in Hget2 as (-> & _ & Hdata2 & Hoffset2).
  apply get_bytes_Ok in Hget3 as (-> & _ & Hdata3 & Hoffset3).
  cbn [skip sr_data sr_offset] in Hdata3, Hoffset3.
  assert (sr_rest r1' = drop 2 (sr_rest r)) as Hrest1 by (by apply sr_rest_advance).
  assert (sr_rest (skip r2' 4) = drop 8 (sr_rest r)) as Hrest2.
  { apply sr_rest_advance; cbn [skip sr_data sr_offset]; [congruence | lia]. }
  assert (sr_rest r3' = drop 12 (sr_rest r)) as Hrest3.
  { apply sr_rest_advance; [congruence | lia]. }
  rewrite Hrest1, Hrest2 in *. rewrite Hrest3 in Hruns.
  change (be_value (take 2 (sr_rest r)) 0) with (be_at (sr_rest r) 0 2) in *.
  change (be_value (take 2 (drop 2 (sr_rest r))) 0) with (be_at (sr_rest r) 2 2) in *.
  change (be_value (take 4 (drop 8 (sr_rest r))) 0) with (be_at (sr_rest r) 8 4) in *.
  intros Hsmall.
  set (width := be_at (sr_rest r) 0 2) in *.
  set (height := be_at (sr_rest r) 2 2) in *.
  set (data_stream_offset := be_at (sr_rest r) 8 4) in *.
  assert (0 ≤ width) as Hwidth by apply be_value_nonneg.
  assert (0 ≤ height) as Hheight by apply be_value_nonneg.
  assert (u64 (signed 32 (width * height)) = width * height) as Htarget.
  { rewrite signed_small by (change (32 - 1) with 31; nia).
    apply Z.mod_small. nia. }
  rewrite Htarget in Hruns.
  assert (StringReader_size r3' = StringReader_size r) as Hsize
    by (unfold StringReader_size; congruence).
  assert (∀ offset size, StringReader_sub r3' offset size = StringReader_sub r offset size)
    as Hsub by (intros; unfold StringReader_sub; congruence).
  rewrite Hsize, Hsub in Hruns.
  pose proof (decode_sssf_runs_length _ _ _ _ _ Hruns ltac:(simpl; nia)) as Hlength.
  apply sssf_rows in Hloop as (_ & _ & Hw & Hh & _ & Hfilled); [|done|done].
  cbn [fst snd] in Hw, Hh, Hfilled.
  split; [done|]. split; [done|].
  exists decoded_data. split; [done|]. split; [done|].
  intros x y Hx Hy.
  destruct (Hfilled x y Hx Hy I) as (v & px & Hv & Hcolor & Hpixel).
  exists v, px. split; [done|]. split; [done|].
  unfold read_pixel, Image_inside. rewrite Hw, Hh.
  assert ((0 <=? x) && (x <? width) && (0 <=? y) && (y <? height) = true) as ->.
  { rewrite !andb_true_iff, !Z.leb_le, !Z.ltb_lt. lia. }
  by rewrite Hpixel.
Qed.

(** An image of two pixels by one: one transparent pixel, then one pixel of
    colour 1, which the data stream at offset 14 supplies. *)
Lemma decode_sssf_image_pixels_scenario :
  let data := [x00; x02; x00; x01; x00; x00; x00; x00; x00; x00; x00; x0e;
               x01; x01; x01] in
  let clut := [ {| color_num := 0; cte_c := Color_new 0 0 0 |};
                {| color_num := 1; cte_c := Color_new 0xFFFF 0x8080 0 |} ] in
  ∃ img,
    decode_sssf_image (StringReader_new data) clut = Ok img
    ∧ img_width img = 2 ∧ img_height img = 1
    ∧ read_pixel img 0 0 = Ok {| px_r := 0; px_g := 0; px_b := 0; px_a := 0 |}
    ∧ read_pixel img 1 0 = Ok {| px_r := 0xFF; px_g := 0x80; px_b := 0; px_a := 0xFF |}.
Proof.
  intros data clut.
  destruct (decode_sssf_image (StringReader_new data) clut) as [img|e] eqn:Hrun;
    [|vm_compute in Hrun; discriminate].
  destruct (decode_sssf_image_pixels _ _ _ Hrun ltac:(vm_compute; reflexivity))
    as (Hw & Hh & decoded & Hruns & _ & Hpixels).
  vm_compute in Hruns. injection Hruns as <-.
  exists img. split; [reflexivity|]. split; [exact Hw|]. split; [exact Hh|].
  split.
  - destruct (Hpixels 0 0) as (v & px & Hv & Hcolor & Hread);
      [vm_compute; split; [discriminate | reflexivity] ..|].
    vm_compute in Hv. injection Hv as <-. vm_compute in Hcolor. injection Hcolor as <-.
    exact Hread.
  - destruct (Hpixels 1 0) as (v & px & Hv & Hcolor & Hread);
      [vm_compute; split; [discriminate | reflexivity] ..|].
    vm_compute in Hv. injection Hv as <-. vm_compute in Hcolor. injection Hcolor as <-.
    exact Hread.
Defined.
